(** * mysqlerrgen: the MySQL error-catalog compiler of orisano/mysqlerr

    A shallow embedding of [cmd/mysqlerrgen/main.go] and of the second copy
    of the same program kept in the repository, followed by the properties
    of the line scanner, the escape decoder, the reader of the previously
    generated [constants.go] and the code generator.

    Go strings are byte sequences: [list ascii].  Go's [int] is the 64-bit
    two's-complement integer: a [Z] with the wrap-around written out.  A
    call can return normally, return an [error], panic, or (for the one
    unbounded loop of the program) not return at all: the [outcome] type. *)

From Stdlib Require Import ZArith Ascii String List Lia Bool.
From stdpp Require Import base option list strings gmap.
Import ListNotations.
Open Scope Z_scope.

Abbreviation gostring := (list ascii).

(** A string literal of the source. *)
Definition str (s : string) : gostring := list_ascii_of_string s.

(* ===================================================================== *)
(** ** The Go runtime and the standard-library calls the program makes *)
(* ===================================================================== *)

Module Go.

Definition tab : ascii := "009"%char.
Definition lf : ascii := "010"%char.
Definition cr : ascii := "013"%char.
Definition dquote : ascii := "034"%char.
Definition backslash : ascii := "092"%char.

(** The numeric value of a byte, and the conversion [byte(n)] of an
    integer, which keeps the low eight bits. *)
Definition byte_val (a : ascii) : Z := Z.of_N (N_of_ascii a).
Definition byte_of (n : Z) : ascii := ascii_of_N (Z.to_N (n mod 256)).

(** [int] on the 64-bit platforms the tool is built for. *)
Definition min_int : Z := - 2 ^ 63.
Definition max_int : Z := 2 ^ 63 - 1.
Definition wrap_int (z : Z) : Z := (z + 2 ^ 63) mod 2 ^ 64 - 2 ^ 63.
Definition int_add (a b : Z) : Z := wrap_int (a + b).

(** What a call does besides returning a value. *)
Inductive panic : Type :=
| IndexOutOfRange (index len : Z)   (* a[index] with len(a) = len *)
| SliceOutOfRange (low len : Z)     (* s[low:] with len(s) = len *)
| PanicString (msg : gostring)      (* panic(msg) *)
| PanicQuoted (msg operand : gostring).   (* panic(msg + strconv.Quote(operand)) *)

Inductive outcome (E A : Type) : Type :=
| Ok (a : A)          (* normal return *)
| Err (e : E)         (* a non-nil error is returned *)
| Panic (p : panic)   (* the goroutine panics: the process crashes *)
| Diverges.           (* the call had not returned when the fuel ran out *)
Arguments Ok {E A} a.
Arguments Err {E A} e.
Arguments Panic {E A} p.
Arguments Diverges {E A}.

Definition bind {E A B} (m : outcome E A) (k : A -> outcome E B) : outcome E B :=
  match m with
  | Ok a => k a
  | Err e => Err e
  | Panic p => Panic p
  | Diverges => Diverges
  end.

Definition len (s : gostring) : Z := Z.of_nat (length s).

(** [strings.HasPrefix]. *)
Fixpoint HasPrefix (s prefix : gostring) {struct prefix} : bool :=
  match prefix, s with
  | [], _ => true
  | p :: prefix', c :: s' => Ascii.eqb c p && HasPrefix s' prefix'
  | _ :: _, [] => false
  end.

Definition mem (c : ascii) (chars : gostring) : bool :=
  existsb (Ascii.eqb c) chars.

(** [strings.IndexAny(s, chars)] for a [chars] of ASCII characters, which
    is every call of the program: the index of the first byte of [s] that
    is in [chars], or -1. *)
Fixpoint IndexAny (s chars : gostring) : Z :=
  match s with
  | [] => -1
  | c :: s' =>
      if mem c chars then 0
      else let i := IndexAny s' chars in if i <? 0 then -1 else i + 1
  end.

(** [strings.TrimLeft(s, cutset)] for an ASCII [cutset]. *)
Fixpoint TrimLeft (s cutset : gostring) : gostring :=
  match s with
  | [] => []
  | c :: s' => if mem c cutset then TrimLeft s' cutset else s
  end.

(** The slices [s[:i]] and [s[i:]] for an index in range. *)
Definition slice_to (s : gostring) (i : Z) : gostring := take (Z.to_nat i) s.
Definition slice_from (s : gostring) (i : Z) : gostring := drop (Z.to_nat i) s.

(** [strings.Split(s, sep)] for a non-empty [sep]: [skip] counts the bytes
    of a separator that was just matched and is being stepped over, [cur]
    holds the current field in reverse. *)
Fixpoint Split_from (sep : gostring) (skip : nat) (cur s : gostring) : list gostring :=
  match s with
  | [] => [rev cur]
  | c :: s' =>
      match skip with
      | S k => Split_from sep k cur s'
      | O =>
          if HasPrefix s sep
          then rev cur :: Split_from sep (length sep - 1) [] s'
          else Split_from sep O (c :: cur) s'
      end
  end.
Definition Split (s sep : gostring) : list gostring := Split_from sep O [] s.

(** Decimal digits. *)
Definition is_digit (c : ascii) : bool :=
  (48 <=? byte_val c) && (byte_val c <=? 57).
Definition digit_val (c : ascii) : Z := byte_val c - 48.
Definition digit_char (d : Z) : ascii := byte_of (48 + d).

Fixpoint digits_val (acc : Z) (ds : gostring) : Z :=
  match ds with
  | [] => acc
  | c :: ds' => digits_val (acc * 10 + digit_val c) ds'
  end.

(** [strconv.ParseUint(s, 10, 0)], which reads the bytes from the left
    with the number in a [uint64].  A byte that is no digit ends the call
    with a syntax error, and digits that do not fit 64 bits end it with a
    range error where they stop fitting, before any later byte is looked
    at. *)
Definition max_uint64 : Z := 2 ^ 64 - 1.

Inductive uint_result : Type :=
| UintOk (n : Z)   (* n, nil *)
| UintSyntax       (* 0, ErrSyntax *)
| UintRange.       (* the maximum, ErrRange *)

(** The loop [for _, c := range []byte(s)], [n] the number so far; the
    cutoff is [maxUint64/10 + 1]. *)
Fixpoint ParseUint_loop (n : Z) (s : gostring) : uint_result :=
  match s with
  | [] => UintOk n
  | c :: s' =>
      if negb (is_digit c) then UintSyntax
      else if max_uint64 / 10 + 1 <=? n then UintRange      (* n*base overflows *)
      else
        let n := n * 10 in
        let n1 := (n + digit_val c) mod 2 ^ 64 in
        if (n1 <? n) || (max_uint64 <? n1) then UintRange   (* n+d overflows *)
        else ParseUint_loop n1 s'
  end.

Definition ParseUint (s : gostring) : uint_result :=
  match s with
  | [] => UintSyntax
  | _ :: _ => ParseUint_loop 0 s
  end.

(** [strconv.ParseInt(s, 10, 0)]: the value and whether the error is nil.
    What follows the sign goes to [ParseUint]; a range error of [ParseUint]
    is kept, with the bound of [int] on the side of the sign as the
    value. *)
Definition int_of_uint (neg : bool) (r : uint_result) : Z * bool :=
  match r with
  | UintSyntax => (0, false)
  | UintRange => (if neg then min_int else max_int, false)
  | UintOk un =>
      if negb neg && (2 ^ 63 <=? un) then (max_int, false)
      else if neg && (2 ^ 63 <? un) then (min_int, false)
      else (if neg then - un else un, true)
  end.

Definition ParseInt (s : gostring) : Z * bool :=
  match s with
  | [] => (0, false)
  | c :: s' =>
      if Ascii.eqb c "+" then int_of_uint false (ParseUint s')
      else if Ascii.eqb c "-" then int_of_uint true (ParseUint s')
      else int_of_uint false (ParseUint s)
  end.

(** [strconv.Atoi]: the value and whether the returned error is nil.  The
    library takes a shorter way for strings of fewer than 19 bytes, which
    cannot leave the range, with the results [ParseInt] has for them. *)
Definition Atoi (s : gostring) : Z * bool := ParseInt s.

(** How [fmt] prints an [int] operand: decimal, with a minus sign for a
    negative number.  An [int] has at most 19 digits. *)
Fixpoint digits_of (fuel : nat) (n : Z) (acc : gostring) : gostring :=
  match fuel with
  | O => acc
  | S fuel' =>
      let acc' := digit_char (n mod 10) :: acc in
      if n <? 10 then acc' else digits_of fuel' (n / 10) acc'
  end.
Definition Itoa (n : Z) : gostring :=
  if n <? 0 then "-"%char :: digits_of 20 (- n) [] else digits_of 20 n [].

(** [fmt.Fprintln]: the operands separated by single spaces, then a
    newline.  The operands are already rendered. *)
Fixpoint join_sp (args : list gostring) : gostring :=
  match args with
  | [] => []
  | [a] => a
  | a :: args' => a ++ " "%char :: join_sp args'
  end.
Definition Sprintln (args : list gostring) : gostring := join_sp args ++ [lf].

(** *** UTF-8 *)

Definition RuneError : Z := 65533.          (* U+FFFD *)
Definition is_cont (b : Z) : bool := (128 <=? b) && (b <=? 191).

(** The runtime's [decoderune]: the code point at the start of a
    non-empty [s] and the number of bytes it takes; an invalid or short
    sequence is [RuneError] of width 1. *)
Definition decoderune (s : gostring) : Z * nat :=
  match map byte_val s with
  | [] => (RuneError, 1%nat)
  | b0 :: bs =>
      if b0 <? 128 then (b0, 1%nat)
      else if (192 <=? b0) && (b0 <? 224) then
        match bs with
        | b1 :: _ =>
            let r := Z.lor (Z.shiftl (Z.land b0 31) 6) (Z.land b1 63) in
            if is_cont b1 && (127 <? r) then (r, 2%nat) else (RuneError, 1%nat)
        | _ => (RuneError, 1%nat)
        end
      else if (224 <=? b0) && (b0 <? 240) then
        match bs with
        | b1 :: b2 :: _ =>
            let r := Z.lor (Z.lor (Z.shiftl (Z.land b0 15) 12)
                                  (Z.shiftl (Z.land b1 63) 6)) (Z.land b2 63) in
            if is_cont b1 && is_cont b2 && (2047 <? r)
               && negb ((55296 <=? r) && (r <=? 57343))
            then (r, 3%nat) else (RuneError, 1%nat)
        | _ => (RuneError, 1%nat)
        end
      else if (240 <=? b0) && (b0 <? 248) then
        match bs with
        | b1 :: b2 :: b3 :: _ =>
            let r := Z.lor (Z.lor (Z.lor (Z.shiftl (Z.land b0 7) 18)
                                         (Z.shiftl (Z.land b1 63) 12))
                                  (Z.shiftl (Z.land b2 63) 6)) (Z.land b3 63) in
            if is_cont b1 && is_cont b2 && is_cont b3
               && (65535 <? r) && (r <=? 1114111)
            then (r, 4%nat) else (RuneError, 1%nat)
        | _ => (RuneError, 1%nat)
        end
      else (RuneError, 1%nat)
  end.

(** The conversion [[]rune(s)]. *)
Fixpoint runes_of (fuel : nat) (s : gostring) : list Z :=
  match fuel, s with
  | S fuel', _ :: _ =>
      let '(r, size) := decoderune s in r :: runes_of fuel' (drop size s)
  | _, _ => []
  end.
Definition to_runes (s : gostring) : list Z := runes_of (length s) s.

(** [utf8.AppendRune], behind [strings.Builder.WriteRune]. *)
Definition encode_rune (r : Z) : gostring :=
  let enc3 (r : Z) :=
    [byte_of (Z.lor 224 (Z.shiftr r 12));
     byte_of (Z.lor 128 (Z.land (Z.shiftr r 6) 63));
     byte_of (Z.lor 128 (Z.land r 63))] in
  if (0 <=? r) && (r <=? 127) then [byte_of r]
  else if (0 <=? r) && (r <=? 2047) then
    [byte_of (Z.lor 192 (Z.shiftr r 6)); byte_of (Z.lor 128 (Z.land r 63))]
  else if (r <? 0) || (1114111 <? r) || ((55296 <=? r) && (r <=? 57343))
  then enc3 RuneError
  else if r <=? 65535 then enc3 r
  else
    [byte_of (Z.lor 240 (Z.shiftr r 18));
     byte_of (Z.lor 128 (Z.land (Z.shiftr r 12) 63));
     byte_of (Z.lor 128 (Z.land (Z.shiftr r 6) 63));
     byte_of (Z.lor 128 (Z.land r 63))].

(** *** bufio.Scanner with the default split function

    [ScanLines] cuts the stream at each newline and drops one trailing
    carriage return from every line; a last line without a newline is
    returned when it is not empty.  The scanner's buffer holds
    [MaxScanTokenSize] bytes: when a line does not end within them,
    [Scan] returns false, and the program, which does not look at
    [Err()], takes the stream to have ended there. *)
Definition MaxScanTokenSize : Z := 65536.

Definition dropCR (data : gostring) : gostring :=
  match rev data with
  | c :: rest => if Ascii.eqb c cr then rev rest else data
  | [] => data
  end.

(** [cur] is the line read so far, in reverse. *)
Fixpoint scan_from (cur : gostring) (data : gostring) : list gostring :=
  match data with
  | [] => match cur with [] => [] | _ :: _ => [dropCR (rev cur)] end
  | c :: data' =>
      if Ascii.eqb c lf then dropCR (rev cur) :: scan_from [] data'
      else if MaxScanTokenSize <=? len cur + 1 then []
      else scan_from (c :: cur) data'
  end.
Definition scan_lines (data : gostring) : list gostring := scan_from [] data.

End Go.

Import Go.

(* ===================================================================== *)
(** ** The tokenizer and the two line parsers

    [consumeWord], [trimDelimiters], [parseLanguage] and the loop of
    [parseQuoted] read the same in both files of the repository. *)
(* ===================================================================== *)

Record language : Type := mkLanguage {
  longName : gostring;
  shortName : gostring;
  charset : gostring
}.

Record message : Type := mkMessage {
  langShortName : gostring;
  text : gostring
}.

Record mysqlError : Type := mkMysqlError {
  name : gostring;
  code : Z;
  sqlState : gostring;
  odbcState : gostring;
  messages : list message;
  obsolete : bool
}.

Definition is_empty (s : gostring) : bool :=
  match s with [] => true | _ :: _ => false end.

(** The delimiters of [consumeWord] and the cutset of [trimDelimiters]. *)
Definition word_delims : gostring := [" "%char; ","%char; tab; cr; lf; "="%char].
Definition trim_delims : gostring := [" "%char; ","%char; tab; "="%char].

Definition consumeWord (s : gostring) : gostring * gostring :=
  let i := IndexAny s word_delims in
  if i <? 0 then (s, []) else (slice_to s i, slice_from s i).

Definition trimDelimiters (s : gostring) : gostring := TrimLeft s trim_delims.

(** One pass through the body of the loop of [parseLanguage]: the triple
    read and the text left. *)
Definition parseLanguage_body (s : gostring) : language * gostring :=
  let '(longName, x) := consumeWord s in
  let x := trimDelimiters x in
  let '(shortName, x) := consumeWord x in
  let x := trimDelimiters x in
  let '(charset, x) := consumeWord x in
  (mkLanguage longName shortName charset, trimDelimiters x).

(** [for !(strings.HasPrefix(s, ";") || s == "") { ... }]: nothing in the
    source bounds the number of passes, so the loop takes fuel, and [None]
    says that it was still running when the fuel ran out. *)
Fixpoint parseLanguage_loop (fuel : nat) (s : gostring) (languages : list language)
  : option (list language) :=
  match fuel with
  | O => None
  | S fuel' =>
      if HasPrefix s (str ";") || is_empty s then Some languages
      else
        let '(l, s') := parseLanguage_body s in
        parseLanguage_loop fuel' s' (languages ++ [l])
  end.

Definition parseLanguage (fuel : nat) (s : gostring) : option (list language) :=
  let '(_, s) := consumeWord s in
  let s := trimDelimiters s in
  parseLanguage_loop fuel s [].

(** *** parseQuoted *)

Definition rlen (r : list Z) : Z := Z.of_nat (length r).
Definition rune_at (r : list Z) (i : Z) : Z := nth (Z.to_nat i) r 0.

(** [for j := 0; j < 3 && i < len(r); i, j = i+1, j+1 { ... }] with
    [left = 3 - j]; the result is the index [i] at which the loop is left
    and the number [n].  48 and 55 are ['0'] and ['7']. *)
Fixpoint octal_loop (r : list Z) (left : nat) (i n : Z) : Z * Z :=
  match left with
  | O => (i, n)
  | S left' =>
      if i <? rlen r then
        if (rune_at r i <? 48) && (55 <? rune_at r i)
        then (i - 1, n)                                   (* i--; break *)
        else octal_loop r left' (i + 1) (n * 8 + (rune_at r i - 48))
      else (i, n)
  end.

Inductive quoted : Type :=
| Closed (b : gostring)   (* the closing quote was met: [b.String()] *)
| EndOfLine.              (* the loop ran off the end of [r] *)

(** [for i := 0; i < len(r); i++ { ... }], the builder [b] threaded
    through.  34, 92 and 110 are the double quote, the backslash and ['n']. *)
Fixpoint parseQuoted_loop (fuel : nat) (r : list Z) (i : Z) (b : gostring)
  : option quoted :=
  match fuel with
  | O => None
  | S fuel' =>
      if i <? rlen r then
        if rune_at r i =? 34 then Some (Closed b)
        else if (rune_at r i =? 92) && (i + 1 <? rlen r) then
          let i := i + 1 in
          if rune_at r i =? 110 then
            parseQuoted_loop fuel' r (i + 1) (b ++ [lf])
          else if (48 <=? rune_at r i) && (rune_at r i <=? 55) then
            let '(i, n) := octal_loop r 3 i 0 in
            parseQuoted_loop fuel' r (i + 1) (b ++ [byte_of n])
          else
            parseQuoted_loop fuel' r (i + 1) (b ++ encode_rune (rune_at r i))
        else
          parseQuoted_loop fuel' r (i + 1) (b ++ encode_rune (rune_at r i))
      else Some EndOfLine
  end.

(** Every pass moves [i] forward, so one more pass than [r] has runes is
    enough ([parseQuoted_loop_returns] below). *)
Definition parseQuoted_run (s : gostring) : option quoted :=
  let r := to_runes s in
  parseQuoted_loop (S (length r)) r 0 [].

(** The scanner's view of the whole input. *)
Record scan_state : Type := mkState {
  defaultLanguage : gostring;
  errorCodeOffset : Z;
  rCount : Z;
  languages : list language;
  errs : list mysqlError
}.

Definition initial_state : scan_state :=
  mkState (str "eng") 1000 0 [] [].

(** [curErr := &errs[len(errs)-1]; curErr.messages = append(...)]. *)
Definition append_message (errs : list mysqlError) (m : message)
  : option (list mysqlError) :=
  match rev errs with
  | [] => None
  | e :: before =>
      Some (rev before ++
            [mkMysqlError (name e) (code e) (sqlState e) (odbcState e)
                          (messages e ++ [m]) (obsolete e)])
  end.

Definition header_prefix (line : gostring) : bool :=
  HasPrefix line (str "ER_") || HasPrefix line (str "WARN_")
  || HasPrefix line (str "OBSOLETE_ER_") || HasPrefix line (str "OBSOLETE_WARN_").

Definition continuation_prefix (line : gostring) : bool :=
  HasPrefix line [tab] || HasPrefix line (str " ").

(** The steps of the message-continuation case up to the quoted literal:
    the language token and the text after the blanks that follow it. *)
Definition split_continuation (line : gostring) : gostring * gostring :=
  let line := TrimLeft line [" "%char; tab] in
  let i := IndexAny line [" "%char; tab] in
  let '(langShortName, line) :=
    if 0 <=? i then (slice_to line i, slice_from line i) else (line, []) in
  (langShortName, TrimLeft line [" "%char; tab]).

(* ===================================================================== *)
(** ** cmd/mysqlerrgen/main.go *)
(* ===================================================================== *)

Module Main.

(** The errors [run] returns, by the format string that builds them. *)
Inductive error : Type :=
| UnexpectedEOL                                      (* "unexpected EOL" *)
| InvalidFormat (line : gostring)                    (* "invalid format: %q" *)
| UnexpectedEOLAt (line : gostring)                  (* "unexpected EOL: %q" *)
| ParseQuote (line : gostring) (cause : error)       (* "parse quote(%q): %w" *)
| UnknownFormat (line : gostring).                   (* "unknown format: %q" *)

Definition parseQuoted (s : gostring) : outcome error gostring :=
  match parseQuoted_run s with
  | Some (Closed b) => Ok b
  | Some EndOfLine => Err UnexpectedEOL
  | None => Diverges
  end.

(** The body of [for s.Scan() { line := s.Text(); switch { ... } }]. *)
Definition scan_line (fuel : nat) (st : scan_state) (text : gostring)
  : outcome error scan_state :=
  let line := text in
  if HasPrefix line (str "language") then
    match parseLanguage fuel line with
    | Some ls =>
        Ok (mkState (defaultLanguage st) (errorCodeOffset st) (rCount st) ls (errs st))
    | None => Diverges
    end
  else if HasPrefix line (str "start-error-number") then
    let '(_, line) := consumeWord line in
    let line := trimDelimiters line in
    let '(offsetStr, rest) := consumeWord line in
    if negb (is_empty rest) then Err (InvalidFormat text)
    else
      Ok (mkState (defaultLanguage st) (fst (Atoi offsetStr)) 0 (languages st) (errs st))
  else if HasPrefix line (str "default-language") then
    let '(_, line) := consumeWord line in
    let line := trimDelimiters line in
    let '(shortName, rest) := consumeWord line in
    if negb (is_empty rest) then Err (InvalidFormat text)
    else
      Ok (mkState shortName (errorCodeOffset st) (rCount st) (languages st) (errs st))
  else if continuation_prefix line then
    let '(langShortName, line) := split_continuation line in
    if negb (HasPrefix line [dquote]) then Err (UnexpectedEOLAt text)
    else
      match parseQuoted (slice_from line 1) with
      | Ok text' =>
          match append_message (errs st) (mkMessage langShortName text') with
          | Some errs' =>
              Ok (mkState (defaultLanguage st) (errorCodeOffset st) (rCount st)
                          (languages st) errs')
          | None => Panic (IndexOutOfRange (-1) 0)
          end
      | Err e => Err (ParseQuote text e)
      | Panic p => Panic p
      | Diverges => Diverges
      end
  else if header_prefix line then
    let '(errorName, line) := consumeWord line in
    let line := trimDelimiters line in
    let '(sqlState, line) := consumeWord line in
    let line := trimDelimiters line in
    let '(odbcState, line) := consumeWord line in
    let errorCode := int_add (errorCodeOffset st) (rCount st) in
    Ok (mkState (defaultLanguage st) (errorCodeOffset st) (int_add (rCount st) 1)
                (languages st)
                (errs st ++
                 [mkMysqlError errorName errorCode sqlState odbcState []
                               (HasPrefix errorName (str "OBSOLETE_"))]))
  else if HasPrefix line (str "#") || is_empty line then Ok st
  else if HasPrefix line (str "reserved-error-section") then Ok st
  else Err (UnknownFormat line).

Fixpoint scan (fuel : nat) (st : scan_state) (lines : list gostring)
  : outcome error scan_state :=
  match lines with
  | [] => Ok st
  | line :: lines' => bind (scan_line fuel st line) (fun st' => scan fuel st' lines')
  end.

(** *** The constants of the previous [constants.go] *)

(** A Go map that was never made is [nil]: [None]. *)
Record constants : Type := mkConstants {
  byName : option (gmap (list ascii) Z);
  byCode : option (gmap Z (list (list ascii)))
}.

Definition no_constants : constants := mkConstants None None.   (* &constants{} *)

(** [c.byCode[code]]: reading a missing key, or a nil map, gives nil. *)
Definition names_of (c : constants) (code : Z) : list gostring :=
  match byCode c with
  | Some m => default [] (m !! code)
  | None => []
  end.

Definition add (c : constants) (name : gostring) (code : Z) : constants :=
  let bn := match byName c with Some m => m | None => ∅ end in
  let bn := <[name := code]> bn in
  let bc := match byCode c with Some m => m | None => ∅ end in
  let bc := <[code := default [] (bc !! code) ++ [name]]> bc in
  mkConstants (Some bn) (Some bc).

Fixpoint deprecates_loop (names : list gostring) (name : gostring) (code : Z)
                         (ds : list mysqlError) : list mysqlError :=
  match names with
  | [] => ds
  | n :: names' =>
      if bool_decide (n = name) then deprecates_loop names' name code ds
      else deprecates_loop names' name code (ds ++ [mkMysqlError n code [] [] [] false])
  end.

Definition deprecates (c : constants) (name : gostring) (code : Z) : list mysqlError :=
  deprecates_loop (names_of c code) name code [].

(** The body of the loop of [parseConstantsGo]. *)
Definition read_line (c : constants) (line : gostring) : outcome error constants :=
  if negb (HasPrefix line (str "const ")) then Ok c
  else
    let tokens := Split line (str " ") in
    match tokens !! 1%nat with
    | None => Panic (IndexOutOfRange 1 (Z.of_nat (length tokens)))
    | Some key =>
        match tokens !! 3%nat with
        | None => Panic (IndexOutOfRange 3 (Z.of_nat (length tokens)))
        | Some t3 => Ok (add c key (fst (Atoi t3)))
        end
    end.

Fixpoint read_lines (c : constants) (lines : list gostring) : outcome error constants :=
  match lines with
  | [] => Ok c
  | line :: lines' => bind (read_line c line) (fun c' => read_lines c' lines')
  end.

(** [parseConstantsGo] on a file that can be opened and holds [data]. *)
Definition parseConstantsGo (data : gostring) : outcome error constants :=
  read_lines no_constants (scan_lines data).

(** *** The generator *)

Definition license_lines : list gostring :=
  [
    str "// Copyright 2021-2023 Nao Yonashiro ";
    str "// ";
    str "// Permission is hereby granted, free of charge, to any person obtaining a copy of this software and associated documentation files (the “Software”), to deal in the Software without restriction, including without limitation the rights to use, copy, modify, merge, publish, distribute, sublicense, and/or sell copies of the Software, and to permit persons to whom the Software is furnished to do so, subject to the following conditions:";
    str "// ";
    str "// The above copyright notice and this permission notice shall be included in all copies or substantial portions of the Software.";
    str "//";
    str "// THE SOFTWARE IS PROVIDED “AS IS”, WITHOUT WARRANTY OF ANY KIND, EXPRESS OR IMPLIED, INCLUDING BUT NOT LIMITED TO THE WARRANTIES OF MERCHANTABILITY, FITNESS FOR A PARTICULAR PURPOSE AND NONINFRINGEMENT. IN NO EVENT SHALL THE AUTHORS OR COPYRIGHT HOLDERS BE LIABLE FOR ANY CLAIM, DAMAGES OR OTHER LIABILITY, WHETHER IN AN ACTION OF CONTRACT, TORT OR OTHERWISE, ARISING FROM, OUT OF OR IN CONNECTION WITH THE SOFTWARE OR THE USE OR OTHER DEALINGS IN THE SOFTWARE."
  ].

Fixpoint join_lines (ls : list gostring) : gostring :=
  match ls with
  | [] => []
  | [l] => l
  | l :: ls' => l ++ lf :: join_lines ls'
  end.

Definition writeLicense : gostring := Sprintln [join_lines license_lines].

Definition const_decl (name : gostring) (code : Z) : gostring :=
  Sprintln [str "const"; name; str "="; Itoa code].

Definition deprecated_decl (d : mysqlError) : gostring :=
  Sprintln [str "// Deprecated: should not be used"] ++ const_decl (name d) (code d).

(** What one pass of [for _, mysqlErr := range errs] writes. *)
Definition emit_error (cs : constants) (mysqlErr : mysqlError) : gostring :=
  concat (map deprecated_decl (deprecates cs (name mysqlErr) (code mysqlErr)))
  ++ const_decl (name mysqlErr) (code mysqlErr).

Definition preamble (pkg : gostring) : gostring :=
  Sprintln [str "// Code generated mysqlerrgen DO NOT EDIT."]
  ++ writeLicense
  ++ Sprintln [str "package"; pkg].

Definition generate (pkg : gostring) (cs : constants) (errs : list mysqlError) : gostring :=
  preamble pkg ++ concat (map (emit_error cs) errs).

(** [run]: [pkg] is the flag, [input] the bytes of the source (standard
    input or the body of the response), [prior] the content of
    [<pkg>/constants.go] when [os.Stat] finds it.  The directory and the
    file can be made and written; [Ok] carries what was written to
    [constants.go].  The file is created after the scan and the reading
    of the previous file, so any other outcome leaves no new file. *)
Definition run (fuel : nat) (pkg input : gostring) (prior : option gostring)
  : outcome error gostring :=
  bind (scan fuel initial_state (scan_lines input)) (fun st =>
  bind (match prior with
        | Some data => parseConstantsGo data
        | None => Ok no_constants
        end) (fun cs =>
  Ok (generate pkg cs (errs st)))).

End Main.

(* ===================================================================== *)
(** ** The second copy of the program

    The repository holds another [package main] with the same scanner: it
    has no reader of a previous [constants.go], panics where [main.go]
    returns an error, and leaves three checks as empty [if] bodies. *)
(* ===================================================================== *)

Module Legacy.

(** This file returns no error of its own from the scan. *)
Inductive error : Type := .

(** [panic("unexpected EOL")] at the end of the loop. *)
Definition parseQuoted (s : gostring) : outcome error gostring :=
  match parseQuoted_run s with
  | Some (Closed b) => Ok b
  | Some EndOfLine => Panic (PanicString (str "unexpected EOL"))
  | None => Diverges
  end.

Definition scan_line (fuel : nat) (st : scan_state) (text : gostring)
  : outcome error scan_state :=
  let line := text in
  if HasPrefix line (str "language") then
    match parseLanguage fuel line with
    | Some ls =>
        Ok (mkState (defaultLanguage st) (errorCodeOffset st) (rCount st) ls (errs st))
    | None => Diverges
    end
  else if HasPrefix line (str "start-error-number") then
    let '(_, line) := consumeWord line in
    let line := trimDelimiters line in
    let '(offsetStr, rest) := consumeWord line in
    (* if rest != "" { // error } *)
    Ok (mkState (defaultLanguage st) (fst (Atoi offsetStr)) 0 (languages st) (errs st))
  else if HasPrefix line (str "default-language") then
    let '(_, line) := consumeWord line in
    let line := trimDelimiters line in
    let '(shortName, rest) := consumeWord line in
    (* if rest != "" { // error } *)
    Ok (mkState shortName (errorCodeOffset st) (rCount st) (languages st) (errs st))
  else if continuation_prefix line then
    let '(langShortName, line) := split_continuation line in
    (* if the line does not start with a double quote { // Unexpected EOL } *)
    if len line <? 1 then Panic (SliceOutOfRange 1 (len line))
    else
      match parseQuoted (slice_from line 1) with
      | Ok text' =>
          match append_message (errs st) (mkMessage langShortName text') with
          | Some errs' =>
              Ok (mkState (defaultLanguage st) (errorCodeOffset st) (rCount st)
                          (languages st) errs')
          | None => Panic (IndexOutOfRange (-1) 0)
          end
      | Err e => Err e
      | Panic p => Panic p
      | Diverges => Diverges
      end
  else if header_prefix line then
    let '(errorName, line) := consumeWord line in
    let line := trimDelimiters line in
    let '(sqlState, line) := consumeWord line in
    let line := trimDelimiters line in
    let '(odbcState, line) := consumeWord line in
    let errorCode := int_add (errorCodeOffset st) (rCount st) in
    Ok (mkState (defaultLanguage st) (errorCodeOffset st) (int_add (rCount st) 1)
                (languages st)
                (errs st ++
                 [mkMysqlError errorName errorCode sqlState odbcState []
                               (HasPrefix errorName (str "OBSOLETE_ER_"))]))
  else if HasPrefix line (str "#") || is_empty line then Ok st
  else if HasPrefix line (str "reserved-error-section") then Ok st
  else Panic (PanicQuoted (str "unknown format: ") line).

Fixpoint scan (fuel : nat) (st : scan_state) (lines : list gostring)
  : outcome error scan_state :=
  match lines with
  | [] => Ok st
  | line :: lines' => bind (scan_line fuel st line) (fun st' => scan fuel st' lines')
  end.

Definition license_lines : list gostring :=
  [
    str "// Copyright (C) 2021 Nao Yonashiro ";
    str "//";
    str "// This program is free software; you can redistribute it and/or modify";
    str "// it under the terms of the GNU General Public License as published by";
    str "// the Free Software Foundation; either version 2 of the License, or";
    str "// (at your option) any later version.";
    str "";
    str "// This program is distributed in the hope that it will be useful,";
    str "// but WITHOUT ANY WARRANTY; without even the implied warranty of";
    str "// MERCHANTABILITY or FITNESS FOR A PARTICULAR PURPOSE.  See the";
    str "// GNU General Public License for more details.";
    str "";
    str "// You should have received a copy of the GNU General Public License along";
    str "// with this program; if not, write to the Free Software Foundation, Inc.,";
    str "// 51 Franklin Street, Fifth Floor, Boston, MA 02110-1301 USA."
  ].

Definition writeLicense : gostring := Sprintln [Main.join_lines license_lines].

Definition generate (pkg : gostring) (errs : list mysqlError) : gostring :=
  Sprintln [str "// Code generated mysqlerrgen DO NOT EDIT."]
  ++ writeLicense
  ++ Sprintln [str "package"; pkg]
  ++ concat (map (fun e => Main.const_decl (name e) (code e)) errs).

Definition run (fuel : nat) (pkg input : gostring) : outcome error gostring :=
  bind (scan fuel initial_state (scan_lines input)) (fun st =>
  Ok (generate pkg (errs st))).

End Legacy.

(* ===================================================================== *)
(** ** Vocabulary of the properties *)
(* ===================================================================== *)

(** The cases of the switch of [run], in the order it tries them. *)
Inductive kind : Type :=
| KLanguage | KOffset | KDefaultLanguage | KContinuation
| KHeader | KComment | KReserved | KUnknown.

Definition classify (line : gostring) : kind :=
  if HasPrefix line (str "language") then KLanguage
  else if HasPrefix line (str "start-error-number") then KOffset
  else if HasPrefix line (str "default-language") then KDefaultLanguage
  else if continuation_prefix line then KContinuation
  else if header_prefix line then KHeader
  else if HasPrefix line (str "#") || is_empty line then KComment
  else if HasPrefix line (str "reserved-error-section") then KReserved
  else KUnknown.

Definition is_header (line : gostring) : bool :=
  match classify line with KHeader => true | _ => false end.

Definition is_offset_decl (line : gostring) : bool :=
  match classify line with KOffset => true | _ => false end.

(** [w] has no byte of [chars]; [w] has only bytes of [chars]. *)
Definition free_of (chars w : gostring) : bool :=
  forallb (fun c => negb (mem c chars)) w.
Definition all_in (chars w : gostring) : bool :=
  forallb (fun c => mem c chars) w.

(** The text of a stream whose lines all end in a newline. *)
Definition unlines (lines : list gostring) : gostring :=
  concat (map (fun l => l ++ [lf]) lines).

(** The lines of a file generated with no previous constants: the marker,
    the license, the package clause, and one declaration for each record. *)
Definition const_text (e : mysqlError) : gostring :=
  join_sp [str "const"; name e; str "="; Itoa (code e)].

Definition preamble_lines (pkg : gostring) : list gostring :=
  str "// Code generated mysqlerrgen DO NOT EDIT."
  :: Main.license_lines ++ [join_sp [str "package"; pkg]].

(** The constants after the declarations of [es] were read into [c]. *)
Definition record_all (c : Main.constants) (es : list mysqlError) : Main.constants :=
  fold_left (fun c e => Main.add c (name e) (code e)) es c.

(** What the scanner makes of every record: the name is one word, and the
    code is an [int]. *)
Definition scanned_record (e : mysqlError) : Prop :=
  free_of word_delims (name e) = true /\ min_int <= code e <= max_int.

(** No two records of a catalog share a code under different names. *)
Definition code_names_agree (errs : list mysqlError) : Prop :=
  forall e1 e2, In e1 errs -> In e2 errs -> code e1 = code e2 -> name e1 = name e2.

(** The deprecation marker and an alias under it, as the generator prints
    them. *)
Definition deprecated_alias (n : gostring) (code : Z) : gostring :=
  Sprintln [str "// Deprecated: should not be used"] ++ Main.const_decl n code.

(** The escape decoder as section 4.2 of the specification words it, to
    compare [parseQuoted] with: scan by code point up to an unescaped
    closing quote; backslash and [n] is a newline; backslash and an octal
    digit takes up to three consecutive octal digits, stopping at the first
    character that is not one, and gives the byte of that value; backslash
    and any other character gives that character; the end of the input
    before a closing quote is the error. *)
Module Spec.

Definition is_octal (c : Z) : bool := (48 <=? c) && (c <=? 55).

(** Up to [left] consecutive octal digits at the head of [r]: their value
    on top of [n], and the runes after them. *)
Fixpoint octal_digits (left : nat) (r : list Z) (n : Z) : Z * list Z :=
  match left, r with
  | S left', c :: r' =>
      if is_octal c then octal_digits left' r' (n * 8 + (c - 48)) else (n, r)
  | _, _ => (n, r)
  end.

(** [None] only when the fuel runs out, which [S (length r)] never does. *)
Fixpoint decode_runes (fuel : nat) (r : list Z) (b : gostring) : option quoted :=
  match fuel with
  | O => None
  | S fuel' =>
      match r with
      | [] => Some EndOfLine
      | c :: r' =>
          if c =? 34 then Some (Closed b)
          else if c =? 92 then
            match r' with
            | [] => Some EndOfLine
            | e :: r'' =>
                if e =? 110 then decode_runes fuel' r'' (b ++ [lf])
                else if is_octal e then
                  let '(n, rest) := octal_digits 3 r' 0 in
                  decode_runes fuel' rest (b ++ [byte_of n])
                else decode_runes fuel' r'' (b ++ encode_rune e)
            end
          else decode_runes fuel' r' (b ++ encode_rune c)
      end
  end.

Definition decode (s : gostring) : option quoted :=
  let r := to_runes s in decode_runes (S (length r)) r [].

(** No backslash of [r] stands right before an octal digit. *)
Fixpoint no_octal_escape (r : list Z) : bool :=
  match r with
  | c :: r' =>
      match r' with
      | e :: _ => negb ((c =? 92) && is_octal e) && no_octal_escape r'
      | [] => true
      end
  | [] => true
  end.

End Spec.

(** *** Texts of the input format, to state what the scanner reads back *)

(** A token: not empty, with no delimiter of [consumeWord] in it. *)
Definition is_word (w : gostring) : bool :=
  negb (is_empty w) && free_of word_delims w.

(** Lines the switch passes over: comments, empty lines and the reserved
    section marker. *)
Definition is_ignored (line : gostring) : bool :=
  match classify line with KComment | KReserved => true | _ => false end.

(** A text as a quoted literal holds it: a backslash before each double
    quote and backslash, and [\n] for a newline. *)
Definition escape_byte (c : ascii) : gostring :=
  if Ascii.eqb c dquote then [backslash; dquote]
  else if Ascii.eqb c backslash then [backslash; backslash]
  else if Ascii.eqb c lf then [backslash; "n"%char]
  else [c].
Definition escape_text (t : gostring) : gostring := flat_map escape_byte t.

Definition is_ascii_text (t : gostring) : bool :=
  forallb (fun c => byte_val c <? 128) t.

(** A message as a continuation line, and a record as its header line and
    the continuation lines of its messages. *)
Definition message_line (m : message) : gostring :=
  tab :: langShortName m ++ " "%char :: dquote :: escape_text (text m) ++ [dquote].

Definition header_line (e : mysqlError) : gostring :=
  name e ++ " "%char :: sqlState e ++ " "%char :: odbcState e.

Definition record_lines (e : mysqlError) : list gostring :=
  header_line e :: map message_line (messages e).

Definition message_ok (m : message) : bool :=
  negb (is_empty (langShortName m))
  && free_of [" "%char; tab] (langShortName m)
  && is_ascii_text (text m).

Definition record_ok (e : mysqlError) : bool :=
  header_prefix (name e) && free_of word_delims (name e)
  && free_of word_delims (sqlState e) && free_of word_delims (odbcState e)
  && (negb (is_empty (sqlState e)) || is_empty (odbcState e))
  && forallb message_ok (messages e).

(** The records main.go makes of the lines of [es], from an offset and a
    count: the codes are taken in turn, and the flag follows the name. *)
Fixpoint numbered (offset count : Z) (es : list mysqlError) : list mysqlError :=
  match es with
  | [] => []
  | e :: es' =>
      mkMysqlError (name e) (int_add offset count) (sqlState e) (odbcState e)
                   (messages e) (HasPrefix (name e) (str "OBSOLETE_"))
      :: numbered offset (int_add count 1) es'
  end.

(** A language of a language line, and the list of them, each followed by
    a comma and a space. *)
Definition language_text (l : language) : gostring :=
  longName l ++ "="%char :: shortName l ++ " "%char :: charset l.

Definition languages_text (ls : list language) : gostring :=
  flat_map (fun l => language_text l ++ str ", ") ls.

Definition language_ok (l : language) : bool :=
  is_word (longName l) && is_word (shortName l) && is_word (charset l)
  && negb (HasPrefix (longName l) (str ";")).

(** Language and default-language declarations. *)
Definition is_language_decl (line : gostring) : bool :=
  match classify line with KLanguage | KDefaultLanguage => true | _ => false end.

(** Two states with the same numbering and the same catalog. *)
Definition same_catalog (a b : scan_state) : Prop :=
  errorCodeOffset a = errorCodeOffset b /\ rCount a = rCount b /\ errs a = errs b.

(** Two records, and two states, that differ at most in obsolete flags. *)
Definition same_but_flag (a b : mysqlError) : Prop :=
  name a = name b /\ code a = code b /\ sqlState a = sqlState b
  /\ odbcState a = odbcState b /\ messages a = messages b.

Definition same_but_flags (a b : scan_state) : Prop :=
  defaultLanguage a = defaultLanguage b /\ errorCodeOffset a = errorCodeOffset b
  /\ rCount a = rCount b /\ languages a = languages b
  /\ Forall2 same_but_flag (errs a) (errs b).

(** [c.byName[name]], with its comma-ok result. *)
Definition code_of (c : Main.constants) (name : gostring) : option Z :=
  match Main.byName c with
  | Some m => m !! name
  | None => None
  end.

(** How a field reads as a number: the sign and what follows it, as
    [ParseInt] takes them apart, the integer the digits write, and an
    integer brought into the range of [int]. *)
Definition is_negative (s : gostring) : bool := HasPrefix s (str "-").

Definition unsigned (s : gostring) : gostring :=
  match s with
  | c :: s' => if Ascii.eqb c "+" || Ascii.eqb c "-" then s' else s
  | [] => []
  end.

Definition signed_value (s : gostring) : Z :=
  if is_negative s then - digits_val 0 (unsigned s) else digits_val 0 (unsigned s).

Definition clamp_int (z : Z) : Z := Z.max min_int (Z.min max_int z).

(** The two maps of the constants hold the same names: a name with a code
    in [byName] is listed under that code in [byCode], and a name listed in
    [byCode] has a code in [byName]. *)
Definition maps_agree (c : Main.constants) : Prop :=
  (forall n v, code_of c n = Some v -> In n (Main.names_of c v))
  /\ (forall n v, In n (Main.names_of c v) -> exists v', code_of c n = Some v').

(* ===================================================================== *)
(** * Properties *)
(* ===================================================================== *)

(** ** Machine integers *)

Lemma wrap_int_in_range (z : Z) : min_int <= z <= max_int -> wrap_int z = z.
Proof.
  unfold wrap_int, min_int, max_int. intros H.
  rewrite Z.mod_small; lia.
Qed.

Lemma wrap_int_range (z : Z) : min_int <= wrap_int z <= max_int.
Proof.
  unfold wrap_int, min_int, max_int.
  pose proof (Z.mod_pos_bound (z + 2 ^ 63) (2 ^ 64)). lia.
Qed.

Lemma wrap_int_add_r (a b : Z) : wrap_int (a + wrap_int b) = wrap_int (a + b).
Proof.
  unfold wrap_int.
  replace (a + ((b + 2 ^ 63) mod 2 ^ 64 - 2 ^ 63) + 2 ^ 63)
    with (a + (b + 2 ^ 63) mod 2 ^ 64) by lia.
  rewrite Zplus_mod_idemp_r. do 2 f_equal. lia.
Qed.

Lemma wrap_int_add_l (a b : Z) : wrap_int (wrap_int a + b) = wrap_int (a + b).
Proof. rewrite (Z.add_comm (wrap_int a)), wrap_int_add_r. f_equal. lia. Qed.

(** ** The escape decoder *)

(** The test that guards [i--; break] asks for a rune below ['0'] and
    above ['7'] at once. *)
Lemma octal_break_test_never_holds (x : Z) : (x <? 48) && (55 <? x) = false.
Proof.
  destruct (Z.ltb_spec x 48), (Z.ltb_spec 55 x); simpl; try reflexivity; lia.
Qed.

(** So the inner loop always takes [left] runes, or as many as are there,
    whatever they are. *)
Lemma octal_loop_index (r : list Z) (left : nat) (i n : Z) :
  fst (octal_loop r left i n) = Z.min (i + Z.of_nat left) (Z.max i (rlen r)).
Proof.
  revert i n. induction left as [|left IH]; intros i n; simpl octal_loop.
  - simpl. lia.
  - destruct (Z.ltb_spec i (rlen r)) as [Hlt|Hge].
    + rewrite octal_break_test_never_holds, IH. lia.
    + simpl. lia.
Qed.

Lemma octal_loop_moves_on (r : list Z) (left : nat) (i n : Z) :
  i <= fst (octal_loop r left i n).
Proof. rewrite octal_loop_index. lia. Qed.

(** Every pass of the outer loop moves [i] forward, so the loop returns
    within [len(r) - i + 1] passes. *)
Lemma parseQuoted_loop_returns (r : list Z) (fuel : nat) (i : Z) (b : gostring) :
  0 <= i -> Z.max 0 (rlen r - i) < Z.of_nat fuel ->
  exists q, parseQuoted_loop fuel r i b = Some q.
Proof.
  revert i b. induction fuel as [|fuel IH]; intros i b Hi Hfuel; [lia|].
  cbn [parseQuoted_loop].
  destruct (Z.ltb_spec i (rlen r)) as [Hlt|Hge]; [|eauto].
  destruct (rune_at r i =? 34); [eauto|].
  destruct ((rune_at r i =? 92) && (i + 1 <? rlen r)); [|apply IH; lia].
  destruct (rune_at r (i + 1) =? 110); [apply IH; lia|].
  destruct ((48 <=? rune_at r (i + 1)) && (rune_at r (i + 1) <=? 55)); [|apply IH; lia].
  pose proof (octal_loop_moves_on r 3 (i + 1) 0) as Hmove.
  destruct (octal_loop r 3 (i + 1) 0) as [i' n]. simpl in Hmove.
  apply IH; lia.
Qed.

Lemma parseQuoted_run_returns (s : gostring) : exists q, parseQuoted_run s = Some q.
Proof.
  unfold parseQuoted_run. apply parseQuoted_loop_returns; unfold rlen; lia.
Qed.

(** [parseQuoted] of main.go always returns: a text or the error. *)
Lemma parseQuoted_total (s : gostring) :
  (exists b, Main.parseQuoted s = Ok b) \/ Main.parseQuoted s = Err Main.UnexpectedEOL.
Proof.
  unfold Main.parseQuoted. destruct (parseQuoted_run_returns s) as [q ->].
  destruct q; eauto.
Qed.

(** C1. The first round trip of the specification holds: the literal
    [a\nb] decodes to 'a', newline, 'b'.  The two octal round trips do not.
    After [\101] the inner loop has left [i] on the closing quote and the
    outer loop's [i++] steps over it, so the decoder runs off the end of the
    line where the specification's decoder gives the byte 65.  In [\7x] the
    inner loop does not stop at [x]: it takes [x] and the closing quote as
    digits, and again the end of the line is reached, where the
    specification's decoder gives the byte 7 and then [x]; with more text on
    the line the byte written is 242.  The other copy of the program panics
    on the same literals. *)
Theorem parseQuoted_octal_escape_overruns :
  Main.parseQuoted (str "a\nb" ++ [dquote]) = Ok ["a"%char; lf; "b"%char]
  /\ Spec.decode (str "\101" ++ [dquote]) = Some (Closed ["A"%char])
  /\ Main.parseQuoted (str "\101" ++ [dquote]) = Err Main.UnexpectedEOL
  /\ Spec.decode (str "\7x" ++ [dquote]) = Some (Closed [byte_of 7; "x"%char])
  /\ Main.parseQuoted (str "\7x" ++ [dquote]) = Err Main.UnexpectedEOL
  /\ Main.parseQuoted (str "\7x" ++ [dquote] ++ str "y" ++ [dquote]) = Ok [byte_of 242]
  /\ Legacy.parseQuoted (str "\101" ++ [dquote])
     = Panic (PanicString (str "unexpected EOL"))
  /\ Legacy.parseQuoted (str "\7x" ++ [dquote])
     = Panic (PanicString (str "unexpected EOL")).
Proof. repeat split; vm_compute; reflexivity. Qed.

(** ** The tokenizer *)

Lemma HasPrefix_app (p s : gostring) : HasPrefix (p ++ s) p = true.
Proof.
  induction p as [|c p IH]; simpl; [reflexivity|].
  rewrite Ascii.eqb_refl, IH. reflexivity.
Qed.

Lemma HasPrefix_split (s p : gostring) :
  HasPrefix s p = true -> exists t, s = p ++ t.
Proof.
  revert s. induction p as [|c p IH]; intros s H; simpl in *.
  - exists s. reflexivity.
  - destruct s as [|d s]; [discriminate|].
    apply andb_true_iff in H as [Hc Hp].
    apply Ascii.eqb_eq in Hc as ->.
    destruct (IH _ Hp) as [t ->]. exists t. reflexivity.
Qed.

Lemma free_of_cons (chars : gostring) (c : ascii) (w : gostring) :
  free_of chars (c :: w) = true <-> mem c chars = false /\ free_of chars w = true.
Proof.
  unfold free_of. simpl. rewrite andb_true_iff, negb_true_iff. reflexivity.
Qed.

Lemma free_of_app (chars w1 w2 : gostring) :
  free_of chars (w1 ++ w2) = free_of chars w1 && free_of chars w2.
Proof. unfold free_of. apply forallb_app. Qed.

Lemma IndexAny_bounds (s chars : gostring) : -1 <= IndexAny s chars < len s.
Proof.
  unfold len. induction s as [|c s IH]; simpl IndexAny; [simpl; lia|].
  rewrite length_cons, Nat2Z.inj_succ.
  destruct (mem c chars); [lia|].
  destruct (Z.ltb_spec (IndexAny s chars) 0); lia.
Qed.

Lemma IndexAny_free (w chars : gostring) :
  free_of chars w = true -> IndexAny w chars = -1.
Proof.
  induction w as [|c w IH]; intros H; simpl; [reflexivity|].
  apply free_of_cons in H as [-> Hw]. rewrite (IH Hw). reflexivity.
Qed.

Lemma IndexAny_word (w chars : gostring) (d : ascii) (t : gostring) :
  free_of chars w = true -> mem d chars = true ->
  IndexAny (w ++ d :: t) chars = len w.
Proof.
  unfold len. intros Hw Hd. induction w as [|c w IH]; simpl.
  - rewrite Hd. reflexivity.
  - apply free_of_cons in Hw as [-> Hw]. rewrite (IH Hw).
    destruct (Z.ltb_spec (Z.of_nat (length w)) 0); lia.
Qed.

(** A word up to its first delimiter. *)
Lemma consumeWord_word (w : gostring) (d : ascii) (t : gostring) :
  free_of word_delims w = true -> mem d word_delims = true ->
  consumeWord (w ++ d :: t) = (w, d :: t).
Proof.
  intros Hw Hd. unfold consumeWord, slice_to, slice_from.
  rewrite (IndexAny_word _ _ _ _ Hw Hd). unfold len.
  destruct (Z.ltb_spec (Z.of_nat (length w)) 0); [lia|].
  rewrite Nat2Z.id, take_app_length, drop_app_length. reflexivity.
Qed.

Lemma consumeWord_whole (w : gostring) :
  free_of word_delims w = true -> consumeWord w = (w, []).
Proof.
  intros Hw. unfold consumeWord. rewrite (IndexAny_free _ _ Hw). reflexivity.
Qed.

(** Whatever the text, the word taken has no delimiter in it, and word and
    rest make up the text. *)
Lemma IndexAny_take_free (s chars : gostring) :
  free_of chars (take (Z.to_nat (IndexAny s chars)) s) = true.
Proof.
  induction s as [|c s IH]; simpl IndexAny; [reflexivity|].
  destruct (mem c chars) eqn:Hc; [reflexivity|].
  pose proof (IndexAny_bounds s chars) as Hb.
  destruct (Z.ltb_spec (IndexAny s chars) 0) as [Hneg|Hpos]; [reflexivity|].
  rewrite Z2Nat.inj_add by lia. rewrite Nat.add_comm. simpl.
  apply free_of_cons. split; assumption.
Qed.

Lemma IndexAny_none_free (s chars : gostring) :
  IndexAny s chars < 0 -> free_of chars s = true.
Proof.
  induction s as [|c s IH]; simpl IndexAny; intros H; [reflexivity|].
  destruct (mem c chars) eqn:Hc; [lia|].
  destruct (Z.ltb_spec (IndexAny s chars) 0) as [Hneg|Hpos]; [|lia].
  apply free_of_cons. split; [exact Hc | exact (IH Hneg)].
Qed.

Lemma consumeWord_fst_free (s : gostring) :
  free_of word_delims (fst (consumeWord s)) = true.
Proof.
  unfold consumeWord, slice_to.
  destruct (Z.ltb_spec (IndexAny s word_delims) 0) as [Hneg|Hpos]; simpl.
  - apply IndexAny_none_free, Hneg.
  - apply IndexAny_take_free.
Qed.

Lemma consumeWord_split (s : gostring) :
  fst (consumeWord s) ++ snd (consumeWord s) = s.
Proof.
  unfold consumeWord, slice_to, slice_from.
  destruct (IndexAny s word_delims <? 0); simpl.
  - apply app_nil_r.
  - apply take_drop.
Qed.

Lemma TrimLeft_run (sep cutset t : gostring) :
  all_in cutset sep = true ->
  match t with [] => True | c :: _ => mem c cutset = false end ->
  TrimLeft (sep ++ t) cutset = t.
Proof.
  intros Hsep Ht. induction sep as [|c sep IH]; simpl.
  - destruct t as [|c t]; [reflexivity|]. simpl. rewrite Ht. reflexivity.
  - simpl in Hsep. apply andb_true_iff in Hsep as [-> Hsep]. exact (IH Hsep).
Qed.

(** Every byte [trimDelimiters] strips is one [consumeWord] stops at. *)
Lemma trim_delims_are_word_delims (c : ascii) :
  mem c trim_delims = true -> mem c word_delims = true.
Proof.
  unfold mem, trim_delims, word_delims. simpl.
  destruct (Ascii.eqb c " "), (Ascii.eqb c ","), (Ascii.eqb c tab),
    (Ascii.eqb c "="), (Ascii.eqb c cr), (Ascii.eqb c lf); simpl; congruence.
Qed.

Lemma word_head_not_trimmed (tok : gostring) :
  free_of word_delims tok = true ->
  match tok with [] => True | c :: _ => mem c trim_delims = false end.
Proof.
  destruct tok as [|c tok]; [trivial|]. intros H.
  apply free_of_cons in H as [Hc _].
  destruct (mem c trim_delims) eqn:Ht; [|reflexivity].
  apply trim_delims_are_word_delims in Ht. congruence.
Qed.

(** The first two tokens of a directive line: the keyword [kw], blanks,
    then [tok] followed by [rest]. *)
Lemma directive_tokens (kw sep tok rest : gostring) :
  free_of word_delims kw = true ->
  all_in trim_delims sep = true -> sep <> [] ->
  free_of word_delims tok = true -> tok <> [] ->
  match rest with [] => True | d :: _ => mem d word_delims = true end ->
  consumeWord (kw ++ sep ++ tok ++ rest) = (kw, sep ++ tok ++ rest)
  /\ trimDelimiters (sep ++ tok ++ rest) = tok ++ rest
  /\ consumeWord (tok ++ rest) = (tok, rest).
Proof.
  intros Hkw Hsep Hne Htok Htne Hrest. split; [|split].
  - destruct sep as [|d sep]; [congruence|]. simpl in Hsep.
    apply andb_true_iff in Hsep as [Hd _].
    apply (consumeWord_word kw d); [exact Hkw|].
    apply trim_delims_are_word_delims, Hd.
  - unfold trimDelimiters. apply TrimLeft_run; [exact Hsep|].
    destruct tok as [|c tok]; [congruence|]. simpl.
    exact (word_head_not_trimmed (c :: tok) Htok).
  - destruct rest as [|d rest].
    + rewrite app_nil_r. apply consumeWord_whole, Htok.
    + apply consumeWord_word; assumption.
Qed.

(** ** The scanner of main.go *)

Lemma Main_scan_app (fuel : nat) (st : scan_state) (l1 l2 : list gostring) :
  Main.scan fuel st (l1 ++ l2)
  = bind (Main.scan fuel st l1) (fun st' => Main.scan fuel st' l2).
Proof.
  revert st. induction l1 as [|l l1 IH]; intros st; simpl; [reflexivity|].
  destruct (Main.scan_line fuel st l); simpl; auto.
Qed.

(** What the switch does with a line of each kind. *)
Lemma Main_scan_line_header (fuel : nat) (st : scan_state) (line : gostring) :
  is_header line = true ->
  exists e,
    Main.scan_line fuel st line
    = Ok (mkState (defaultLanguage st) (errorCodeOffset st) (int_add (rCount st) 1)
                  (languages st) (errs st ++ [e]))
    /\ name e = fst (consumeWord line)
    /\ code e = int_add (errorCodeOffset st) (rCount st)
    /\ messages e = []
    /\ obsolete e = HasPrefix (fst (consumeWord line)) (str "OBSOLETE_").
Proof.
  unfold is_header, classify, Main.scan_line. intros H.
  destruct (HasPrefix line (str "language")); [discriminate|].
  destruct (HasPrefix line (str "start-error-number")); [discriminate|].
  destruct (HasPrefix line (str "default-language")); [discriminate|].
  destruct (continuation_prefix line); [discriminate|].
  destruct (header_prefix line); [|destruct (_ || _); [discriminate|];
    destruct (HasPrefix line _); discriminate].
  destruct (consumeWord line) as [errorName l1]. simpl fst.
  destruct (consumeWord (trimDelimiters l1)) as [sqlSt l2].
  destruct (consumeWord (trimDelimiters l2)) as [odbcSt l3].
  eexists. split; [reflexivity|]. simpl. auto.
Qed.

Lemma Main_scan_line_offset (fuel : nat) (st : scan_state) (line : gostring) :
  is_offset_decl line = true ->
  Main.scan_line fuel st line
  = let rest1 := trimDelimiters (snd (consumeWord line)) in
    if negb (is_empty (snd (consumeWord rest1))) then Err (Main.InvalidFormat line)
    else Ok (mkState (defaultLanguage st) (fst (Atoi (fst (consumeWord rest1)))) 0
                     (languages st) (errs st)).
Proof.
  unfold is_offset_decl, classify, Main.scan_line. intros H.
  destruct (HasPrefix line (str "language")); [discriminate|].
  destruct (HasPrefix line (str "start-error-number")).
  - destruct (consumeWord line) as [kw l1]. simpl snd.
    destruct (consumeWord (trimDelimiters l1)) as [offsetStr rest]. reflexivity.
  - destruct (HasPrefix line _); [discriminate|].
    destruct (continuation_prefix line); [discriminate|].
    destruct (header_prefix line); [discriminate|].
    destruct (_ || _); [discriminate|].
    destruct (HasPrefix line _); discriminate.
Qed.

Lemma append_message_keeps (errs errs' : list mysqlError) (m : message) :
  append_message errs m = Some errs' ->
  map name errs' = map name errs /\ map code errs' = map code errs.
Proof.
  unfold append_message. intros H.
  destruct (rev errs) as [|e before] eqn:Hrev; [discriminate|].
  injection H as <-.
  assert (errs = rev before ++ [e]) as ->.
  { rewrite <- (rev_involutive errs), Hrev. reflexivity. }
  rewrite !map_app. simpl. auto.
Qed.

(** A line that is not an offset declaration leaves the offset alone; a
    header takes the next code and a place at the end of the catalog; any
    other line leaves the names, the codes and the count as they are. *)
Lemma Main_scan_line_numbering (fuel : nat) (st st' : scan_state) (line : gostring) :
  is_offset_decl line = false ->
  Main.scan_line fuel st line = Ok st' ->
  errorCodeOffset st' = errorCodeOffset st
  /\ if is_header line
     then rCount st' = int_add (rCount st) 1
          /\ map name (errs st') = map name (errs st) ++ [fst (consumeWord line)]
          /\ map code (errs st')
             = map code (errs st) ++ [int_add (errorCodeOffset st) (rCount st)]
     else rCount st' = rCount st
          /\ map name (errs st') = map name (errs st)
          /\ map code (errs st') = map code (errs st).
Proof.
  intros Hdecl Hscan.
  destruct (is_header line) eqn:Hh.
  - destruct (Main_scan_line_header fuel st line Hh) as (e & He & Hn & Hc & _).
    rewrite He in Hscan. injection Hscan as <-. simpl.
    rewrite !map_app. simpl. rewrite Hn, Hc. auto.
  - revert Hdecl Hh Hscan. unfold is_offset_decl, is_header, classify, Main.scan_line.
    destruct (HasPrefix line (str "language")).
    { intros _ _. destruct (parseLanguage fuel line); [|discriminate].
      intros [= <-]. simpl. auto. }
    destruct (HasPrefix line (str "start-error-number")); [discriminate|].
    destruct (HasPrefix line (str "default-language")).
    { intros _ _. destruct (consumeWord line) as [kw l1].
      destruct (consumeWord (trimDelimiters l1)) as [shortName rest].
      destruct (negb (is_empty rest)); [discriminate|].
      intros [= <-]. simpl. auto. }
    destruct (continuation_prefix line).
    { intros _ _. destruct (split_continuation line) as [lang lit].
      destruct (negb (HasPrefix lit [dquote])); [discriminate|].
      destruct (Main.parseQuoted (slice_from lit 1)); try discriminate.
      destruct (append_message (errs st) _) as [errs'|] eqn:Happ; [|discriminate].
      intros [= <-]. simpl. apply append_message_keeps in Happ. tauto. }
    destruct (header_prefix line); [discriminate|].
    destruct (_ || _); [intros _ _ [= <-]; auto|].
    destruct (HasPrefix line _); [intros _ _ [= <-]; auto|discriminate].
Qed.

(** The codes of a stretch of input with no offset declaration in it,
    scanned from a state whose count is [c] in machine arithmetic. *)
Lemma Main_scan_numbering (fuel : nat) (lines : list gostring) :
  forall (st st' : scan_state) (c : Z),
    rCount st = wrap_int c ->
    Forall (fun l => is_offset_decl l = false) lines ->
    Main.scan fuel st lines = Ok st' ->
    let hs := List.filter is_header lines in
    errorCodeOffset st' = errorCodeOffset st
    /\ rCount st' = wrap_int (c + Z.of_nat (length hs))
    /\ map name (errs st') = map name (errs st) ++ map (fun h => fst (consumeWord h)) hs
    /\ map code (errs st')
       = map code (errs st)
         ++ map (fun k => wrap_int (errorCodeOffset st + (c + Z.of_nat k)))
                (seq 0 (length hs)).
Proof.
  induction lines as [|l lines IH]; intros st st' c Hc Hno Hscan; simpl in *.
  - injection Hscan as <-. rewrite Z.add_0_r, !app_nil_r. auto.
  - inversion Hno as [|? ? Hl Hrest]; subst.
    destruct (Main.scan_line fuel st l) as [st1| | |] eqn:Hline; try discriminate.
    simpl in Hscan.
    destruct (Main_scan_line_numbering fuel st st1 l Hl Hline) as [Hoff Hstep].
    destruct (is_header l) eqn:Hh.
    + destruct Hstep as (Hr & Hn & Hcd).
      assert (rCount st1 = wrap_int (c + 1)) as Hc1.
      { rewrite Hr, Hc. unfold int_add. apply wrap_int_add_l. }
      destruct (IH st1 st' (c + 1) Hc1 Hrest Hscan) as (Ho & Hr' & Hn' & Hc').
      simpl. split; [congruence|]. split; [rewrite Hr'; f_equal; lia|].
      split.
      * rewrite Hn', Hn, <- app_assoc. reflexivity.
      * rewrite Hc', Hcd, <- app_assoc. simpl. f_equal. f_equal.
        -- unfold int_add. rewrite Hc, wrap_int_add_r. f_equal. lia.
        -- rewrite <- seq_shift, map_map. apply map_ext. intros k.
           rewrite Hoff. f_equal. lia.
    + destruct Hstep as (Hr & Hn & Hcd).
      assert (rCount st1 = wrap_int c) as Hc1 by congruence.
      destruct (IH st1 st' c Hc1 Hrest Hscan) as (Ho & Hr' & Hn' & Hc').
      split; [congruence|]. split; [exact Hr'|].
      rewrite Hn', Hc', Hn, Hcd, Hoff. auto.
Qed.

(** ** Integer tokens *)

Lemma digit_is_no_delimiter (c : ascii) :
  is_digit c = true ->
  mem c word_delims = false /\ Ascii.eqb c lf = false /\ Ascii.eqb c " " = false.
Proof.
  destruct c as [[] [] [] [] [] [] [] []]; vm_compute; intros H;
    first [discriminate H | auto].
Qed.

Lemma digits_are_a_word (ds : gostring) :
  forallb is_digit ds = true -> free_of word_delims ds = true.
Proof.
  induction ds as [|c ds IH]; intros H; [reflexivity|].
  simpl in H. apply andb_true_iff in H as [Hc Hds].
  apply free_of_cons. split; [apply digit_is_no_delimiter, Hc | apply IH, Hds].
Qed.

(** *** What [ParseUint] and [Atoi] return *)

Lemma digit_val_range (c : ascii) : is_digit c = true -> 0 <= digit_val c <= 9.
Proof.
  unfold is_digit, digit_val. intros H. apply andb_true_iff in H as [H1 H2].
  apply Z.leb_le in H1, H2. lia.
Qed.

Lemma digits_val_grows (ds : gostring) :
  forall a, forallb is_digit ds = true -> 0 <= a -> a <= digits_val a ds.
Proof.
  induction ds as [|c ds IH]; intros a H Ha; simpl; [lia|].
  simpl in H. apply andb_true_iff in H as [Hc Hds].
  pose proof (digit_val_range c Hc).
  pose proof (IH (a * 10 + digit_val c) Hds). lia.
Qed.

(** The loop over a run of digits: it goes on with their value while the
    value fits 64 bits, and stops with the range error where it does not,
    whatever follows. *)
Lemma ParseUint_loop_app (p : gostring) :
  forall (n : Z) (rest : gostring),
    forallb is_digit p = true -> 0 <= n <= max_uint64 ->
    (digits_val n p <= max_uint64 ->
     ParseUint_loop n (p ++ rest) = ParseUint_loop (digits_val n p) rest)
    /\ (max_uint64 < digits_val n p -> ParseUint_loop n (p ++ rest) = UintRange).
Proof.
  induction p as [|c p IH]; intros n rest Hp Hn.
  - simpl. split; [reflexivity | lia].
  - simpl in Hp. apply andb_true_iff in Hp as [Hc Hp].
    pose proof (digit_val_range c Hc) as Hd.
    pose proof (digits_val_grows p (n * 10 + digit_val c) Hp) as Hgrow.
    cbn [app ParseUint_loop digits_val]. rewrite Hc. cbn [negb].
    unfold max_uint64 in *.
    change (2 ^ 64) with 18446744073709551616 in *.
    change ((18446744073709551616 - 1) / 10 + 1) with 1844674407370955162.
    destruct (Z.leb_spec 1844674407370955162 n) as [Hcut|Hcut].
    + split; [lia | reflexivity].
    + cbv zeta.
      destruct (Z_le_gt_dec (n * 10 + digit_val c) (18446744073709551616 - 1))
        as [Hfit|Hover].
      * rewrite Z.mod_small by lia.
        destruct (Z.ltb_spec (n * 10 + digit_val c) (n * 10)); [lia|].
        destruct (Z.ltb_spec (18446744073709551616 - 1) (n * 10 + digit_val c)); [lia|].
        cbn [orb]. apply IH; [exact Hp | lia].
      * assert ((n * 10 + digit_val c) mod 18446744073709551616
                = n * 10 + digit_val c - 18446744073709551616) as ->.
        { replace (n * 10 + digit_val c)
            with (n * 10 + digit_val c - 18446744073709551616
                  + 1 * 18446744073709551616) at 1 by lia.
          rewrite Z.mod_add by lia. apply Z.mod_small. lia. }
        destruct (Z.ltb_spec (n * 10 + digit_val c - 18446744073709551616) (n * 10));
          [|lia].
        cbn [orb]. split; [lia | reflexivity].
Qed.

Lemma ParseUint_loop_ok (s : gostring) :
  forall n m, ParseUint_loop n s = UintOk m -> forallb is_digit s = true.
Proof.
  induction s as [|c s IH]; intros n m H; [reflexivity|].
  cbn [ParseUint_loop] in H. cbn [forallb].
  destruct (is_digit c); [|discriminate]. cbn [negb] in H.
  destruct (_ <=? n); [discriminate|]. cbv zeta in H.
  destruct (_ || _); [discriminate|]. exact (IH _ _ H).
Qed.

(** [ParseUint] accepts a string exactly when it is a non-empty run of
    digits whose value fits 64 bits, and then returns the value. *)
Lemma ParseUint_ok (s : gostring) (m : Z) :
  ParseUint s = UintOk m ->
  s <> [] /\ forallb is_digit s = true /\ m = digits_val 0 s /\ 0 <= m <= max_uint64.
Proof.
  destruct s as [|c s]; [discriminate|]. unfold ParseUint. intros H.
  pose proof (ParseUint_loop_ok _ _ _ H) as Hall.
  assert (0 <= 0 <= max_uint64) as H0 by (unfold max_uint64; lia).
  destruct (ParseUint_loop_app (c :: s) 0 [] Hall H0) as [Hfit Hover].
  rewrite app_nil_r in Hfit, Hover.
  pose proof (digits_val_grows (c :: s) 0 Hall) as Hgrow.
  remember (digits_val 0 (c :: s)) as v eqn:Hv.
  destruct (Z_le_gt_dec v max_uint64) as [Hle|Hgt].
  - rewrite (Hfit Hle) in H. cbn [ParseUint_loop] in H. injection H as <-.
    split; [discriminate|]. split; [exact Hall|]. split; [reflexivity|]. lia.
  - rewrite Hover in H by lia. discriminate.
Qed.

Lemma ParseUint_digits (s : gostring) :
  s <> [] -> forallb is_digit s = true ->
  ParseUint s = if digits_val 0 s <=? max_uint64 then UintOk (digits_val 0 s)
                else UintRange.
Proof.
  intros Hne Hall. destruct s as [|c s]; [congruence|]. unfold ParseUint.
  assert (0 <= 0 <= max_uint64) as H0 by (unfold max_uint64; lia).
  destruct (ParseUint_loop_app (c :: s) 0 [] Hall H0) as [Hfit Hover].
  rewrite app_nil_r in Hfit, Hover.
  destruct (Z.leb_spec (digits_val 0 (c :: s)) max_uint64) as [Hle|Hgt].
  - rewrite (Hfit Hle). reflexivity.
  - apply Hover. lia.
Qed.

Lemma int_of_uint_range (neg : bool) (r : uint_result) :
  (forall m, r = UintOk m -> 0 <= m) ->
  min_int <= fst (int_of_uint neg r) <= max_int.
Proof.
  intros Hr.
  destruct r as [m| |]; cbn [int_of_uint].
  - specialize (Hr m eq_refl).
    destruct neg; cbn [negb andb].
    + destruct (Z.ltb_spec (2 ^ 63) m); cbn [fst]; unfold min_int, max_int; lia.
    + destruct (Z.leb_spec (2 ^ 63) m); cbn [fst]; unfold min_int, max_int; lia.
  - cbn [fst]. unfold min_int, max_int. lia.
  - destruct neg; cbn [fst]; unfold min_int, max_int; lia.
Qed.

Lemma int_of_uint_ok (neg : bool) (r : uint_result) (z : Z) :
  int_of_uint neg r = (z, true) -> exists m, r = UintOk m.
Proof.
  destruct r as [m| |]; cbn [int_of_uint]; [eauto|discriminate|].
  destruct neg; discriminate.
Qed.

Lemma int_of_uint_error (neg : bool) (r : uint_result) :
  snd (int_of_uint neg r) = false ->
  fst (int_of_uint neg r) = 0 \/ fst (int_of_uint neg r) = max_int
  \/ fst (int_of_uint neg r) = min_int.
Proof.
  destruct r as [m| |]; cbn [int_of_uint].
  - destruct (negb neg && _); [right; left; reflexivity|].
    destruct (neg && _); [right; right; reflexivity|]. discriminate.
  - left. reflexivity.
  - destruct neg; [right; right | right; left]; reflexivity.
Qed.

Lemma Atoi_range (s : gostring) : min_int <= fst (Atoi s) <= max_int.
Proof.
  assert (forall neg t, min_int <= fst (int_of_uint neg (ParseUint t)) <= max_int) as H.
  { intros neg t. apply int_of_uint_range. intros m Hm.
    apply ParseUint_ok in Hm. lia. }
  unfold Atoi, ParseInt. destruct s as [|c s]; [unfold min_int, max_int; simpl; lia|].
  destruct (Ascii.eqb c "+"); [apply H|]. destruct (Ascii.eqb c "-"); apply H.
Qed.

(** A token [Atoi] accepts is one word: a sign, if any, and digits. *)
Lemma Atoi_ok_word (tok : gostring) (z : Z) :
  Atoi tok = (z, true) -> free_of word_delims tok = true /\ tok <> [].
Proof.
  assert (forall neg t, int_of_uint neg (ParseUint t) = (z, true) ->
                        free_of word_delims t = true) as Hdigits.
  { intros neg t H. apply int_of_uint_ok in H as [m Hm].
    apply ParseUint_ok in Hm as (_ & Hall & _). apply digits_are_a_word, Hall. }
  unfold Atoi, ParseInt. destruct tok as [|c s]; [discriminate|].
  intros H. split; [|discriminate].
  destruct (Ascii.eqb c "+") eqn:Hplus.
  - apply Ascii.eqb_eq in Hplus as ->.
    apply free_of_cons. split; [reflexivity|]. exact (Hdigits _ _ H).
  - destruct (Ascii.eqb c "-") eqn:Hminus.
    + apply Ascii.eqb_eq in Hminus as ->.
      apply free_of_cons. split; [reflexivity|]. exact (Hdigits _ _ H).
    + exact (Hdigits _ _ H).
Qed.

Lemma ParseUint_nonempty (s : gostring) : s <> [] -> ParseUint s = ParseUint_loop 0 s.
Proof. destruct s; [congruence | reflexivity]. Qed.

Lemma Atoi_by_sign (s : gostring) :
  Atoi s = int_of_uint (is_negative s) (ParseUint (unsigned s)).
Proof.
  unfold Atoi, ParseInt, is_negative, unsigned. destruct s as [|c s]; [reflexivity|].
  cbn [HasPrefix str list_ascii_of_string]. rewrite andb_true_r.
  destruct (Ascii.eqb c "+") eqn:Hplus.
  - apply Ascii.eqb_eq in Hplus as ->. reflexivity.
  - destruct (Ascii.eqb c "-"); reflexivity.
Qed.

(** What [Atoi] returns, by the shape of what follows the sign: digits
    only, the integer written brought into the range of [int]; a byte that
    is no digit met while the digits before it fit 64 bits, or nothing at
    all, 0; digits that do not fit 64 bits, the bound of [int] on the side
    of the sign, whatever follows them. *)
Lemma Atoi_value (s : gostring) :
  (unsigned s <> [] -> forallb is_digit (unsigned s) = true ->
   Atoi s = (clamp_int (signed_value s),
             (min_int <=? signed_value s) && (signed_value s <=? max_int)))
  /\ (forall p d rest,
        unsigned s = p ++ d :: rest -> forallb is_digit p = true -> is_digit d = false ->
        digits_val 0 p <= max_uint64 -> Atoi s = (0, false))
  /\ (unsigned s = [] -> Atoi s = (0, false))
  /\ (forall p rest,
        unsigned s = p ++ rest -> forallb is_digit p = true ->
        max_uint64 < digits_val 0 p ->
        Atoi s = (if is_negative s then min_int else max_int, false)).
Proof.
  assert (0 <= 0 <= max_uint64) as H0 by (unfold max_uint64; lia).
  rewrite Atoi_by_sign. split; [|split; [|split]].
  - intros Hne Hall. rewrite (ParseUint_digits _ Hne Hall).
    pose proof (digits_val_grows _ 0 Hall) as Hgrow.
    unfold signed_value, clamp_int, max_uint64 in *.
    set (v := digits_val 0 (unsigned s)) in *.
    destruct (Z.leb_spec v (2 ^ 64 - 1)); cbn [int_of_uint];
      destruct (is_negative s); cbn [negb andb]; unfold min_int, max_int.
    + destruct (Z.ltb_spec (2 ^ 63) v).
      * f_equal; [lia|]. destruct (Z.leb_spec (- 2 ^ 63) (- v)); [lia|reflexivity].
      * f_equal; [lia|].
        destruct (Z.leb_spec (- 2 ^ 63) (- v)); [|lia].
        destruct (Z.leb_spec (- v) (2 ^ 63 - 1)); [reflexivity|lia].
    + destruct (Z.leb_spec (2 ^ 63) v).
      * f_equal; [lia|]. destruct (Z.leb_spec (- 2 ^ 63) v); [|lia].
        destruct (Z.leb_spec v (2 ^ 63 - 1)); [lia|reflexivity].
      * f_equal; [lia|]. destruct (Z.leb_spec (- 2 ^ 63) v); [|lia].
        destruct (Z.leb_spec v (2 ^ 63 - 1)); [reflexivity|lia].
    + f_equal; [lia|]. destruct (Z.leb_spec (- 2 ^ 63) (- v)); [lia|reflexivity].
    + f_equal; [lia|]. destruct (Z.leb_spec (- 2 ^ 63) v); [|lia].
      destruct (Z.leb_spec v (2 ^ 63 - 1)); [lia|reflexivity].
  - intros p d rest -> Hp Hd Hfit.
    destruct (ParseUint_loop_app p 0 (d :: rest) Hp H0) as [Hgo _].
    assert (ParseUint (p ++ d :: rest) = UintSyntax) as ->; [|reflexivity].
    rewrite ParseUint_nonempty by (destruct p; discriminate).
    rewrite (Hgo Hfit). cbn [ParseUint_loop]. rewrite Hd. reflexivity.
  - intros ->. reflexivity.
  - intros p rest -> Hp Hover.
    destruct (ParseUint_loop_app p 0 rest Hp H0) as [_ Hstop].
    assert (ParseUint (p ++ rest) = UintRange) as ->; [|reflexivity].
    rewrite ParseUint_nonempty; [exact (Hstop Hover)|].
    destruct p; [simpl in Hover; lia | discriminate].
Qed.

(** ** Offset declarations and the numbering (C2) *)

Lemma offset_line_is_offset_decl (rest : gostring) :
  is_offset_decl (str "start-error-number" ++ rest) = true.
Proof.
  unfold is_offset_decl, classify.
  replace (HasPrefix (str "start-error-number" ++ rest) (str "language"))
    with false by reflexivity.
  rewrite HasPrefix_app. reflexivity.
Qed.

(** A declaration with one integer token and nothing after it. *)
Lemma Main_offset_declaration (fuel : nat) (st : scan_state) (sep tok : gostring) (z : Z) :
  all_in trim_delims sep = true -> sep <> [] -> Atoi tok = (z, true) ->
  Main.scan_line fuel st (str "start-error-number" ++ sep ++ tok)
  = Ok (mkState (defaultLanguage st) z 0 (languages st) (errs st)).
Proof.
  intros Hsep Hne Htok.
  destruct (Atoi_ok_word tok z Htok) as [Hfree Htne].
  rewrite Main_scan_line_offset by apply offset_line_is_offset_decl.
  destruct (directive_tokens (str "start-error-number") sep tok []) as (H1 & H2 & H3);
    try assumption; try reflexivity; try exact I.
  rewrite app_nil_r in *. cbv zeta. rewrite H1. simpl snd.
  rewrite H2, H3. simpl. rewrite Htok. reflexivity.
Qed.

Lemma nth_error_behind_map {A B : Type} (f : A -> B) (l : list A)
      (before tail : list B) (n : nat) (b : B) :
  map f l = before ++ tail -> nth_error tail n = Some b ->
  option_map f (nth_error l (length before + n)) = Some b.
Proof.
  intros Hmap Hn. rewrite <- nth_error_map, Hmap.
  rewrite nth_error_app2 by lia.
  replace (length before + n - length before)%nat with n by lia. exact Hn.
Qed.

(** The record a header makes, [n] headers after a state whose count is 0
    (the start of the input, or an offset declaration), when no offset is
    declared in between. *)
Lemma Main_nth_header (fuel : nat) (st st' : scan_state) (lines : list gostring)
      (n : nat) (h : gostring) :
  rCount st = 0 ->
  Forall (fun l => is_offset_decl l = false) lines ->
  Main.scan fuel st lines = Ok st' ->
  nth_error (List.filter is_header lines) n = Some h ->
  min_int <= errorCodeOffset st + Z.of_nat n <= max_int ->
  exists e, nth_error (errs st') (length (errs st) + n) = Some e
            /\ name e = fst (consumeWord h)
            /\ code e = errorCodeOffset st + Z.of_nat n.
Proof.
  intros Hr Hno Hscan Hn Hrange.
  assert (rCount st = wrap_int 0) as Hc by (rewrite Hr; reflexivity).
  destruct (Main_scan_numbering fuel lines st st' 0 Hc Hno Hscan)
    as (_ & _ & Hnames & Hcodes).
  set (hs := List.filter is_header lines) in *.
  assert (n < length hs)%nat as Hlt by (apply nth_error_Some; congruence).
  pose proof (nth_error_behind_map name (errs st') (map name (errs st)) _ n
                (fst (consumeWord h)) Hnames) as Hname.
  rewrite length_map in Hname.
  destruct (nth_error (errs st') (length (errs st) + n)) as [e|] eqn:He.
  2:{ exfalso. assert (option_map name None = Some (fst (consumeWord h))) as X
        by (apply Hname; rewrite nth_error_map, Hn; reflexivity).
      discriminate X. }
  exists e. split; [reflexivity|]. split.
  - assert (option_map name (Some e) = Some (fst (consumeWord h))) as X
      by (apply Hname; rewrite nth_error_map, Hn; reflexivity).
    injection X as X. exact X.
  - pose proof (nth_error_behind_map code (errs st') (map code (errs st)) _ n
                  (wrap_int (errorCodeOffset st + (0 + Z.of_nat n))) Hcodes) as Hcode.
    rewrite length_map, He in Hcode.
    assert (option_map code (Some e)
            = Some (wrap_int (errorCodeOffset st + (0 + Z.of_nat n)))) as X.
    { apply Hcode. rewrite nth_error_map.
      rewrite (nth_error_nth' _ 0%nat) by (rewrite length_seq; exact Hlt).
      rewrite seq_nth by exact Hlt. reflexivity. }
    injection X as X. rewrite X, Z.add_0_l. apply wrap_int_in_range, Hrange.
Qed.

(** C2. The numbering of main.go.  (1) The scan starts with offset 1000 and
    count 0.  (2) A header line makes a record whose code is the offset plus
    the count, in machine arithmetic, and adds one to the count.  (3) An
    offset declaration with one integer token sets the offset to that
    integer and the count to 0.  (4) In an input with no offset declaration,
    the header of index [n] (the [n+1]-th header) gets 1000 + n; (5) after
    an offset declaration of [z], with no later declaration, the header of
    index [n] after it gets [z + n]; (6) hence the header right after a
    declaration of [z] gets exactly [z].  In (4) and (5) the code is one an
    [int] holds. *)
Theorem header_codes_follow_offset_and_count :
  (errorCodeOffset initial_state = 1000 /\ rCount initial_state = 0)
  /\ (forall (fuel : nat) (st : scan_state) (line : gostring),
        is_header line = true ->
        exists e,
          Main.scan_line fuel st line
          = Ok (mkState (defaultLanguage st) (errorCodeOffset st)
                        (int_add (rCount st) 1) (languages st) (errs st ++ [e]))
          /\ name e = fst (consumeWord line)
          /\ code e = int_add (errorCodeOffset st) (rCount st))
  /\ (forall (fuel : nat) (st : scan_state) (sep tok : gostring) (z : Z),
        all_in trim_delims sep = true -> sep <> [] -> Atoi tok = (z, true) ->
        Main.scan_line fuel st (str "start-error-number" ++ sep ++ tok)
        = Ok (mkState (defaultLanguage st) z 0 (languages st) (errs st)))
  /\ (forall (fuel : nat) (lines : list gostring) (st' : scan_state)
             (n : nat) (h : gostring),
        Forall (fun l => is_offset_decl l = false) lines ->
        Main.scan fuel initial_state lines = Ok st' ->
        nth_error (List.filter is_header lines) n = Some h ->
        1000 + Z.of_nat n <= max_int ->
        exists e, nth_error (errs st') n = Some e
                  /\ name e = fst (consumeWord h)
                  /\ code e = 1000 + Z.of_nat n)
  /\ (forall (fuel : nat) (before : list gostring) (sep tok : gostring) (z : Z)
             (after : list gostring) (st' : scan_state) (n : nat) (h : gostring),
        all_in trim_delims sep = true -> sep <> [] -> Atoi tok = (z, true) ->
        Forall (fun l => is_offset_decl l = false) after ->
        Main.scan fuel initial_state
                  (before ++ (str "start-error-number" ++ sep ++ tok) :: after) = Ok st' ->
        nth_error (List.filter is_header after) n = Some h ->
        z + Z.of_nat n <= max_int ->
        exists st1 e,
          Main.scan fuel initial_state before = Ok st1
          /\ nth_error (errs st') (length (errs st1) + n) = Some e
          /\ name e = fst (consumeWord h)
          /\ code e = z + Z.of_nat n)
  /\ (forall (fuel : nat) (st st' : scan_state) (sep tok : gostring) (z : Z)
             (h : gostring),
        all_in trim_delims sep = true -> sep <> [] -> Atoi tok = (z, true) ->
        is_header h = true ->
        Main.scan fuel st [str "start-error-number" ++ sep ++ tok; h] = Ok st' ->
        exists e, errs st' = errs st ++ [e]
                  /\ name e = fst (consumeWord h) /\ code e = z).
Proof.
  split; [split; reflexivity|].
  split.
  { intros fuel st line Hh.
    destruct (Main_scan_line_header fuel st line Hh) as (e & He & Hn & Hc & _).
    exists e. auto. }
  split; [exact Main_offset_declaration|].
  split.
  { intros fuel lines st' n h Hno Hscan Hn Hrange.
    apply (Main_nth_header fuel initial_state st' lines n h); try assumption.
    - reflexivity.
    - simpl. unfold min_int. lia. }
  split.
  { intros fuel before sep tok z after st' n h Hsep Hne Htok Hno Hscan Hn Hrange.
    rewrite Main_scan_app in Hscan.
    destruct (Main.scan fuel initial_state before) as [st1| | |]; try discriminate.
    cbn [bind Main.scan] in Hscan.
    rewrite (Main_offset_declaration fuel st1 sep tok z Hsep Hne Htok) in Hscan.
    cbn [bind] in Hscan.
    exists st1.
    destruct (Main_nth_header fuel _ st' after n h
                (eq_refl : rCount (mkState (defaultLanguage st1) z 0 (languages st1)
                                           (errs st1)) = 0)
                Hno Hscan Hn) as (e & He).
    - simpl. pose proof (Atoi_range tok) as Hz. rewrite Htok in Hz. simpl in Hz. lia.
    - exists e. split; [reflexivity|]. exact He. }
  intros fuel st st' sep tok z h Hsep Hne Htok Hh Hscan.
  cbn [bind Main.scan] in Hscan.
  rewrite (Main_offset_declaration fuel st sep tok z Hsep Hne Htok) in Hscan.
  cbn [bind] in Hscan.
  destruct (Main_scan_line_header fuel (mkState (defaultLanguage st) z 0 (languages st) (errs st))
              h Hh) as (e & He & Hname & Hcode & _).
  rewrite He in Hscan. cbn [bind] in Hscan. injection Hscan as <-.
  exists e. split; [reflexivity|]. split; [exact Hname|].
  rewrite Hcode. simpl. unfold int_add. rewrite Z.add_0_r.
  apply wrap_int_in_range.
  pose proof (Atoi_range tok) as Hz. rewrite Htok in Hz. exact Hz.
Qed.

(** The numbering on a stream: an offset of 2000 is declared, and the second
    header after it gets 2001. *)
Lemma header_codes_follow_offset_and_count_witness :
  exists st',
    Main.scan 0 initial_state
              [str "ER_FIRST"; str "start-error-number 2000"; str "ER_A 42000";
               str "# comment"; str "WARN_B"] = Ok st'
    /\ exists st1 e,
         Main.scan 0 initial_state [str "ER_FIRST"] = Ok st1
         /\ nth_error (errs st') (length (errs st1) + 1) = Some e
         /\ name e = fst (consumeWord (str "WARN_B"))
         /\ code e = 2000 + Z.of_nat 1.
Proof.
  eexists. split; [vm_compute; reflexivity|].
  destruct header_codes_follow_offset_and_count as (_ & _ & _ & _ & H & _).
  apply (H 0%nat [str "ER_FIRST"] (str " ") (str "2000") 2000
           [str "ER_A 42000"; str "# comment"; str "WARN_B"]).
  - reflexivity.
  - discriminate.
  - reflexivity.
  - repeat constructor.
  - vm_compute. reflexivity.
  - reflexivity.
  - unfold max_int. lia.
Defined.

(** ** Trailing tokens after the offset (C7) *)

(** main.go: a declaration whose integer token is followed by anything at
    all is refused with the line in the error. *)
Lemma Main_offset_trailing_token (fuel : nat) (st : scan_state)
      (sep tok : gostring) (d : ascii) (trailing : gostring) :
  all_in trim_delims sep = true -> sep <> [] ->
  free_of word_delims tok = true -> tok <> [] ->
  mem d word_delims = true ->
  Main.scan_line fuel st (str "start-error-number" ++ sep ++ tok ++ d :: trailing)
  = Err (Main.InvalidFormat (str "start-error-number" ++ sep ++ tok ++ d :: trailing)).
Proof.
  intros Hsep Hne Htok Htne Hd.
  rewrite Main_scan_line_offset by apply offset_line_is_offset_decl.
  destruct (directive_tokens (str "start-error-number") sep tok (d :: trailing))
    as (H1 & H2 & H3); try assumption; try reflexivity.
  cbv zeta. rewrite H1. simpl snd. rewrite H2, H3. reflexivity.
Qed.

(** main.go: an input with such a line never reaches the generator, and
    when the lines before it scan, the error is the one of that line. *)
Lemma Main_trailing_token_aborts (fuel : nat) (pkg input : gostring)
      (prior : option gostring) (before after : list gostring)
      (sep tok : gostring) (d : ascii) (trailing : gostring) :
  all_in trim_delims sep = true -> sep <> [] ->
  free_of word_delims tok = true -> tok <> [] ->
  mem d word_delims = true ->
  let line := str "start-error-number" ++ sep ++ tok ++ d :: trailing in
  scan_lines input = before ++ line :: after ->
  (forall out, Main.run fuel pkg input prior <> Ok out)
  /\ (forall st, Main.scan fuel initial_state before = Ok st ->
                 Main.run fuel pkg input prior = Err (Main.InvalidFormat line)).
Proof.
  intros Hsep Hne Htok Htne Hd line Hin.
  unfold Main.run. rewrite Hin, Main_scan_app.
  pose proof (fun st => Main_offset_trailing_token fuel st sep tok d trailing
                          Hsep Hne Htok Htne Hd) as Hline.
  fold line in Hline. split.
  - intros out. destruct (Main.scan fuel initial_state before) as [st| | |];
      cbn [bind Main.scan]; try discriminate.
    rewrite Hline. discriminate.
  - intros st ->. cbn [bind Main.scan]. rewrite Hline. reflexivity.
Qed.

(** C7. In the second copy of the program the check is an empty [if] body
    (its only content is the comment [// error]): the line
    [start-error-number 1000 extra] is accepted, the offset becomes 1000, the
    scan goes on and [constants.go] is written.  main.go returns the error
    [invalid format] with the line on the same input. *)
Theorem legacy_offset_trailing_token_accepted :
  Legacy.run 0 (str "mysql") (unlines [str "start-error-number 1000 extra"; str "ER_X"])
  = Ok (Legacy.generate (str "mysql") [mkMysqlError (str "ER_X") 1000 [] [] [] false])
  /\ Main.run 0 (str "mysql")
              (unlines [str "start-error-number 1000 extra"; str "ER_X"]) None
     = Err (Main.InvalidFormat (str "start-error-number 1000 extra")).
Proof. split; vm_compute; reflexivity. Qed.

(** ** The obsolete flag (C9) *)

Lemma HasPrefix_trans (s p q : gostring) :
  HasPrefix s p = true -> HasPrefix p q = true -> HasPrefix s q = true.
Proof.
  intros Hs Hp. apply HasPrefix_split in Hs as [t ->].
  apply HasPrefix_split in Hp as [u ->]. rewrite <- app_assoc. apply HasPrefix_app.
Qed.

(** The first delimiter of a text does not lie inside a delimiter-free
    prefix of it. *)
Lemma IndexAny_past_word (p t chars : gostring) :
  free_of chars p = true ->
  IndexAny (p ++ t) chars < 0 \/ len p <= IndexAny (p ++ t) chars.
Proof.
  unfold len. induction p as [|c p IH]; intros Hp.
  - pose proof (IndexAny_bounds t chars). simpl. lia.
  - apply free_of_cons in Hp as [Hc Hp]. specialize (IH Hp).
    rewrite <- app_comm_cons. cbn [IndexAny]. rewrite Hc, length_cons.
    destruct (Z.ltb_spec (IndexAny (p ++ t) chars) 0); lia.
Qed.

(** The word taken from a text that starts with a delimiter-free [p] starts
    with [p] too. *)
Lemma consumeWord_keeps_prefix (s p : gostring) :
  free_of word_delims p = true -> HasPrefix s p = true ->
  HasPrefix (fst (consumeWord s)) p = true.
Proof.
  intros Hp Hs. apply HasPrefix_split in Hs as [t ->].
  unfold consumeWord, slice_to.
  destruct (IndexAny_past_word p t word_delims Hp) as [Hneg|Hge].
  - destruct (Z.ltb_spec (IndexAny (p ++ t) word_delims) 0); [|lia].
    apply HasPrefix_app.
  - unfold len in Hge.
    destruct (Z.ltb_spec (IndexAny (p ++ t) word_delims) 0); [lia|].
    simpl fst. rewrite take_app_ge by lia. apply HasPrefix_app.
Qed.

Lemma is_header_prefix (line : gostring) :
  is_header line = true -> header_prefix line = true.
Proof.
  unfold is_header, classify.
  destruct (HasPrefix line (str "language")); [discriminate|].
  destruct (HasPrefix line (str "start-error-number")); [discriminate|].
  destruct (HasPrefix line (str "default-language")); [discriminate|].
  destruct (continuation_prefix line); [discriminate|].
  destruct (header_prefix line); [reflexivity|].
  destruct (_ || _); [discriminate|].
  destruct (HasPrefix line _); discriminate.
Qed.

(** main.go: the flag of the record a header makes is set exactly when the
    name begins with [OBSOLETE_], which is when the line came in by one of
    the two obsolete prefixes. *)
Lemma Main_obsolete_flag (fuel : nat) (st : scan_state) (line : gostring) :
  is_header line = true ->
  exists e,
    Main.scan_line fuel st line
    = Ok (mkState (defaultLanguage st) (errorCodeOffset st) (int_add (rCount st) 1)
                  (languages st) (errs st ++ [e]))
    /\ obsolete e = HasPrefix (name e) (str "OBSOLETE_")
    /\ obsolete e = (HasPrefix line (str "OBSOLETE_ER_")
                     || HasPrefix line (str "OBSOLETE_WARN_")).
Proof.
  intros Hh.
  destruct (Main_scan_line_header fuel st line Hh) as (e & He & Hn & _ & _ & Ho).
  exists e. split; [exact He|]. rewrite Hn. split; [exact Ho|]. rewrite Ho.
  apply is_header_prefix in Hh. unfold header_prefix in Hh.
  destruct (HasPrefix line (str "OBSOLETE_ER_")) eqn:Hoe.
  { cbn [orb]. apply consumeWord_keeps_prefix; [reflexivity|].
    apply (HasPrefix_trans _ _ _ Hoe). reflexivity. }
  destruct (HasPrefix line (str "OBSOLETE_WARN_")) eqn:How.
  { cbn [orb]. apply consumeWord_keeps_prefix; [reflexivity|].
    apply (HasPrefix_trans _ _ _ How). reflexivity. }
  cbn [orb]. rewrite !orb_false_r in Hh.
  apply orb_true_iff in Hh as [Her|Hwarn].
  - pose proof (consumeWord_keeps_prefix line (str "ER_") eq_refl Her) as Hp.
    apply HasPrefix_split in Hp as [t ->]. reflexivity.
  - pose proof (consumeWord_keeps_prefix line (str "WARN_") eq_refl Hwarn) as Hp.
    apply HasPrefix_split in Hp as [t ->]. reflexivity.
Qed.

(** C9. The second copy of the program tests the name against
    [OBSOLETE_ER_] only: the record of the header [OBSOLETE_WARN_X] is not
    flagged obsolete.  main.go, which tests against [OBSOLETE_], flags it. *)
Theorem legacy_obsolete_warning_not_flagged (fuel : nat) (st : scan_state) :
  Legacy.scan_line fuel st (str "OBSOLETE_WARN_X 42000 S1000")
  = Ok (mkState (defaultLanguage st) (errorCodeOffset st) (int_add (rCount st) 1)
                (languages st)
                (errs st ++
                 [mkMysqlError (str "OBSOLETE_WARN_X")
                               (int_add (errorCodeOffset st) (rCount st))
                               (str "42000") (str "S1000") [] false]))
  /\ Main.scan_line fuel st (str "OBSOLETE_WARN_X 42000 S1000")
     = Ok (mkState (defaultLanguage st) (errorCodeOffset st) (int_add (rCount st) 1)
                   (languages st)
                   (errs st ++
                    [mkMysqlError (str "OBSOLETE_WARN_X")
                                  (int_add (errorCodeOffset st) (rCount st))
                                  (str "42000") (str "S1000") [] true])).
Proof. split; reflexivity. Qed.

(** ** A continuation line with no record before it (C6) *)

Lemma Main_scan_line_keeps_count (fuel : nat) (st st' : scan_state) (line : gostring) :
  is_header line = false -> Main.scan_line fuel st line = Ok st' ->
  length (errs st') = length (errs st).
Proof.
  intros Hh Hscan. destruct (is_offset_decl line) eqn:Hd.
  - rewrite (Main_scan_line_offset fuel st line Hd) in Hscan. cbv zeta in Hscan.
    destruct (negb _); [discriminate|]. injection Hscan as <-. reflexivity.
  - destruct (Main_scan_line_numbering fuel st st' line Hd Hscan) as [_ H].
    rewrite Hh in H. destruct H as (_ & Hn & _).
    rewrite <- (length_map name), Hn. apply length_map.
Qed.

Lemma Main_no_header_no_record (fuel : nat) (lines : list gostring) :
  forall st st', Forall (fun l => is_header l = false) lines ->
                 Main.scan fuel st lines = Ok st' -> errs st = [] -> errs st' = [].
Proof.
  induction lines as [|l lines IH]; intros st st' Hall Hscan Hnil; simpl in Hscan.
  - injection Hscan as <-. exact Hnil.
  - inversion Hall as [|? ? Hl Hrest]; subst.
    destruct (Main.scan_line fuel st l) as [st1| | |] eqn:Hline; try discriminate.
    apply (IH st1 st' Hrest Hscan).
    apply Main_scan_line_keeps_count in Hline; [|exact Hl].
    rewrite Hnil in Hline. destruct (errs st1); [reflexivity|discriminate].
Qed.

(** With no record in the catalog a continuation line never scans: when its
    literal is missing or not closed the error of that check is returned,
    and when the literal is well formed the program indexes [errs[-1]]. *)
Lemma Main_continuation_without_record (fuel : nat) (st : scan_state) (line : gostring) :
  classify line = KContinuation -> errs st = [] ->
  let lit := snd (split_continuation line) in
  Main.scan_line fuel st line
  = if negb (HasPrefix lit [dquote]) then Err (Main.UnexpectedEOLAt line)
    else match Main.parseQuoted (slice_from lit 1) with
         | Ok _ => Panic (IndexOutOfRange (-1) 0)
         | Err e => Err (Main.ParseQuote line e)
         | Panic p => Panic p
         | Diverges => Diverges
         end.
Proof.
  unfold classify, Main.scan_line. intros Hk Hnil.
  destruct (HasPrefix line (str "language")); [discriminate|].
  destruct (HasPrefix line (str "start-error-number")); [discriminate|].
  destruct (HasPrefix line (str "default-language")); [discriminate|].
  destruct (continuation_prefix line).
  - destruct (split_continuation line) as [lang lit]. cbn [snd]. cbv zeta.
    destruct (negb (HasPrefix lit [dquote])); [reflexivity|].
    destruct (Main.parseQuoted (slice_from lit 1)); try reflexivity.
    rewrite Hnil. reflexivity.
  - destruct (header_prefix line); [discriminate|].
    destruct (_ || _); [discriminate|].
    destruct (HasPrefix line _); discriminate.
Qed.

(** A well-formed continuation line reached before any header line: the
    scan ends in that panic, whatever comes after the line. *)
Lemma Main_continuation_before_any_header (fuel : nat) (before after : list gostring)
      (line text : gostring) (st : scan_state) :
  Forall (fun l => is_header l = false) before ->
  Main.scan fuel initial_state before = Ok st ->
  classify line = KContinuation ->
  HasPrefix (snd (split_continuation line)) [dquote] = true ->
  Main.parseQuoted (slice_from (snd (split_continuation line)) 1) = Ok text ->
  Main.scan fuel initial_state (before ++ line :: after) = Panic (IndexOutOfRange (-1) 0).
Proof.
  intros Hbefore Hscan Hk Hq Hp.
  pose proof (Main_no_header_no_record fuel before initial_state st Hbefore Hscan eq_refl)
    as Hnil.
  rewrite Main_scan_app, Hscan. cbn [bind Main.scan].
  rewrite (Main_continuation_without_record fuel st line Hk Hnil). cbv zeta.
  rewrite Hq, Hp. reflexivity.
Qed.

(** C6. A well-formed continuation line that comes before any header makes
    main.go panic with an index out of range: no error is returned and the
    line is not reported.  The same holds after comments, blank lines and
    directives. *)
Theorem continuation_before_header_panics (fuel : nat) :
  Main.scan fuel initial_state [tab :: str "eng " ++ dquote :: str "hello" ++ [dquote]]
  = Panic (IndexOutOfRange (-1) 0)
  /\ Main.run fuel (str "mysql")
       (unlines [str "# header comment"; str ""; str "start-error-number 1000";
                 tab :: str "eng " ++ dquote :: str "hello" ++ [dquote];
                 str "ER_LATE"]) None
     = Panic (IndexOutOfRange (-1) 0).
Proof. split; vm_compute; reflexivity. Qed.

(** ** The loop of parseLanguage (C10) *)

(** A carriage return or a newline stops [consumeWord] and is not stripped
    by [trimDelimiters]: on a text that starts with one, a pass of the loop
    reads three empty tokens and leaves the text as it was. *)
Lemma parseLanguage_body_stuck (c : ascii) (s : gostring) :
  c = cr \/ c = lf ->
  parseLanguage_body (c :: s) = (mkLanguage [] [] [], c :: s).
Proof.
  intros Hc.
  assert (consumeWord (c :: s) = ([], c :: s)) as Hw.
  { apply (consumeWord_word [] c s); [reflexivity|]. destruct Hc as [-> | ->]; reflexivity. }
  assert (trimDelimiters (c :: s) = c :: s) as Ht.
  { unfold trimDelimiters. simpl. destruct Hc as [-> | ->]; reflexivity. }
  unfold parseLanguage_body. rewrite Hw, Ht, Hw, Ht, Hw, Ht. reflexivity.
Qed.

Lemma parseLanguage_loop_stuck (fuel : nat) (c : ascii) (s : gostring)
      (languages : list language) :
  c = cr \/ c = lf -> parseLanguage_loop fuel (c :: s) languages = None.
Proof.
  intros Hc. revert languages.
  induction fuel as [|fuel IH]; intros languages; [reflexivity|].
  cbn [parseLanguage_loop].
  replace (HasPrefix (c :: s) (str ";") || is_empty (c :: s)) with false
    by (destruct Hc as [-> | ->]; reflexivity).
  rewrite (parseLanguage_body_stuck c s Hc). apply IH.
Qed.

(** C10. On a language line with a carriage return where a token should
    start, the loop of [parseLanguage] never reaches its exit test: whatever
    the number of passes allowed, it has not returned.  The line below has
    the carriage return after the comma that ends the first language; the
    scan of either copy of the program does not get past it. *)
Theorem parseLanguage_loops_on_carriage_return (fuel : nat) :
  let line := str "languages czech=cze latin2," ++ cr :: str " danish=dan latin1;" in
  parseLanguage fuel line = None
  /\ Main.scan fuel initial_state [line] = Diverges
  /\ Legacy.scan fuel initial_state [line] = Diverges.
Proof.
  cbv zeta.
  assert (parseLanguage fuel
            (str "languages czech=cze latin2," ++ cr :: str " danish=dan latin1;") = None)
    as Hloop.
  { unfold parseLanguage.
    replace (consumeWord (str "languages czech=cze latin2," ++ cr :: str " danish=dan latin1;"))
      with (str "languages", str " czech=cze latin2," ++ cr :: str " danish=dan latin1;")
      by reflexivity.
    replace (trimDelimiters (str " czech=cze latin2," ++ cr :: str " danish=dan latin1;"))
      with (str "czech=cze latin2," ++ cr :: str " danish=dan latin1;") by reflexivity.
    destruct fuel as [|fuel]; [reflexivity|].
    cbn [parseLanguage_loop].
    replace (HasPrefix (str "czech=cze latin2," ++ cr :: str " danish=dan latin1;") (str ";")
             || is_empty (str "czech=cze latin2," ++ cr :: str " danish=dan latin1;"))
      with false by reflexivity.
    replace (parseLanguage_body (str "czech=cze latin2," ++ cr :: str " danish=dan latin1;"))
      with (mkLanguage (str "czech") (str "cze") (str "latin2"),
            cr :: str " danish=dan latin1;") by reflexivity.
    apply parseLanguage_loop_stuck. left. reflexivity. }
  split; [exact Hloop|].
  split.
  - cbn [Main.scan]. unfold Main.scan_line.
    replace (HasPrefix _ (str "language")) with true by reflexivity.
    rewrite Hloop. reflexivity.
  - cbn [Legacy.scan]. unfold Legacy.scan_line.
    replace (HasPrefix _ (str "language")) with true by reflexivity.
    rewrite Hloop. reflexivity.
Qed.

(** Carriage returns and newlines are the only way into that loop: on a
    line without them every pass takes at least one byte off the text, and
    [parseLanguage] returns within as many passes as the line has bytes. *)
Lemma TrimLeft_shorter (s cutset : gostring) :
  (length (TrimLeft s cutset) <= length s)%nat.
Proof.
  induction s as [|c s IH]; simpl; [lia|]. destruct (mem c cutset); simpl; lia.
Qed.

Lemma TrimLeft_trimmed (s cutset : gostring) :
  match TrimLeft s cutset with [] => True | c :: _ => mem c cutset = false end.
Proof.
  induction s as [|c s IH]; simpl; [exact I|].
  destruct (mem c cutset) eqn:Hc; [exact IH | exact Hc].
Qed.

Lemma TrimLeft_free (chars s cutset : gostring) :
  free_of chars s = true -> free_of chars (TrimLeft s cutset) = true.
Proof.
  induction s as [|c s IH]; intros H; simpl; [reflexivity|].
  destruct (mem c cutset); [|exact H].
  apply free_of_cons in H as [_ H]. exact (IH H).
Qed.

Lemma consumeWord_snd_shorter (s : gostring) :
  (length (snd (consumeWord s)) <= length s)%nat.
Proof.
  rewrite <- (consumeWord_split s) at 2. rewrite length_app. lia.
Qed.

Lemma consumeWord_snd_free (chars s : gostring) :
  free_of chars s = true -> free_of chars (snd (consumeWord s)) = true.
Proof.
  intros H. rewrite <- (consumeWord_split s), free_of_app in H.
  apply andb_true_iff in H as [_ H]. exact H.
Qed.

Lemma consumeWord_progress (c : ascii) (s : gostring) :
  mem c word_delims = false ->
  (length (snd (consumeWord (c :: s))) < length (c :: s))%nat.
Proof.
  intros Hc. unfold consumeWord, slice_from. cbn [IndexAny]. rewrite Hc.
  pose proof (IndexAny_bounds s word_delims) as Hb.
  destruct (Z.ltb_spec (IndexAny s word_delims) 0) as [Hneg|Hpos].
  - simpl. lia.
  - destruct (Z.ltb_spec (IndexAny s word_delims + 1) 0); [lia|].
    cbn [snd]. rewrite length_drop. simpl length. lia.
Qed.

Lemma word_delims_split (c : ascii) :
  mem c trim_delims = false -> mem c [cr; lf] = false -> mem c word_delims = false.
Proof.
  unfold mem, trim_delims, word_delims. simpl.
  destruct (Ascii.eqb c " "), (Ascii.eqb c ","), (Ascii.eqb c tab),
    (Ascii.eqb c "="), (Ascii.eqb c cr), (Ascii.eqb c lf); simpl; congruence.
Qed.

Lemma parseLanguage_loop_returns (fuel : nat) :
  forall (s : gostring) (languages : list language),
    (length s < fuel)%nat ->
    free_of [cr; lf] s = true ->
    match s with [] => True | c :: _ => mem c trim_delims = false end ->
    exists ls, parseLanguage_loop fuel s languages = Some ls.
Proof.
  induction fuel as [|fuel IH]; intros s languages Hlen Hfree Htrim; [lia|].
  cbn [parseLanguage_loop].
  destruct (HasPrefix s (str ";") || is_empty s) eqn:Hexit; [eauto|].
  destruct s as [|c s]; [vm_compute in Hexit; discriminate|].
  pose proof Hfree as Hfree'. apply free_of_cons in Hfree' as [Hc _].
  pose proof (consumeWord_progress c s (word_delims_split c Htrim Hc)) as Hprog.
  pose proof (consumeWord_snd_free [cr; lf] (c :: s) Hfree) as F1.
  unfold parseLanguage_body.
  destruct (consumeWord (c :: s)) as [longName x1]. cbn [snd] in Hprog, F1.
  pose proof (TrimLeft_shorter x1 trim_delims) as S2.
  pose proof (TrimLeft_free [cr; lf] x1 trim_delims F1) as F2.
  fold (trimDelimiters x1) in S2, F2.
  pose proof (consumeWord_snd_shorter (trimDelimiters x1)) as S3.
  pose proof (consumeWord_snd_free [cr; lf] _ F2) as F3.
  destruct (consumeWord (trimDelimiters x1)) as [shortName x2]. cbn [snd] in S3, F3.
  pose proof (TrimLeft_shorter x2 trim_delims) as S4.
  pose proof (TrimLeft_free [cr; lf] x2 trim_delims F3) as F4.
  fold (trimDelimiters x2) in S4, F4.
  pose proof (consumeWord_snd_shorter (trimDelimiters x2)) as S5.
  pose proof (consumeWord_snd_free [cr; lf] _ F4) as F5.
  destruct (consumeWord (trimDelimiters x2)) as [charset x3]. cbn [snd] in S5, F5.
  pose proof (TrimLeft_shorter x3 trim_delims) as S6.
  pose proof (TrimLeft_free [cr; lf] x3 trim_delims F5) as F6.
  apply IH.
  - unfold trimDelimiters in *. simpl length in *. lia.
  - exact F6.
  - apply TrimLeft_trimmed.
Qed.

Lemma parseLanguage_returns (line : gostring) :
  free_of [cr; lf] line = true ->
  exists ls, parseLanguage (S (length line)) line = Some ls.
Proof.
  intros Hfree. unfold parseLanguage.
  pose proof (consumeWord_snd_shorter line) as S1.
  pose proof (consumeWord_snd_free [cr; lf] line Hfree) as F1.
  destruct (consumeWord line) as [kw x]. cbn [snd] in S1, F1.
  apply parseLanguage_loop_returns.
  - pose proof (TrimLeft_shorter x trim_delims). unfold trimDelimiters. lia.
  - apply TrimLeft_free, F1.
  - apply TrimLeft_trimmed.
Qed.

(** ** The constants of the previous file and the deprecated aliases (C3) *)

(** [add] appends to the names of its code and touches no other code: the
    names of a code stand in the order in which the previous file gave
    them. *)
Lemma names_of_add_same (c : Main.constants) (n : gostring) (v : Z) :
  Main.names_of (Main.add c n v) v = Main.names_of c v ++ [n].
Proof.
  unfold Main.names_of, Main.add. simpl. rewrite lookup_insert_eq. simpl.
  destruct (Main.byCode c); [reflexivity|]. rewrite lookup_empty. reflexivity.
Qed.

Lemma names_of_add_other (c : Main.constants) (n : gostring) (v v' : Z) :
  v' <> v -> Main.names_of (Main.add c n v) v' = Main.names_of c v'.
Proof.
  intros Hne. unfold Main.names_of, Main.add. simpl.
  rewrite lookup_insert_ne by congruence.
  destruct (Main.byCode c); [reflexivity|]. rewrite lookup_empty. reflexivity.
Qed.

Lemma deprecates_loop_filter (names : list gostring) (name : gostring) (code : Z)
      (ds : list mysqlError) :
  Main.deprecates_loop names name code ds
  = ds ++ map (fun n => mkMysqlError n code [] [] [] false)
              (List.filter (fun n => negb (bool_decide (n = name))) names).
Proof.
  revert ds. induction names as [|n names IH]; intros ds; simpl.
  - rewrite app_nil_r. reflexivity.
  - destruct (bool_decide (n = name)); simpl; rewrite IH; [reflexivity|].
    rewrite <- app_assoc. reflexivity.
Qed.

Lemma emit_error_aliases (cs : Main.constants) (e : mysqlError) :
  Main.emit_error cs e
  = concat (map (fun n => deprecated_alias n (code e))
                (List.filter (fun n => negb (bool_decide (n = name e)))
                             (Main.names_of cs (code e))))
    ++ Main.const_decl (name e) (code e).
Proof.
  unfold Main.emit_error, Main.deprecates. rewrite deprecates_loop_filter.
  simpl. rewrite map_map. reflexivity.
Qed.

Lemma generate_holds_record (pkg : gostring) (cs : Main.constants)
      (errs : list mysqlError) (e : mysqlError) :
  In e errs ->
  exists before after,
    Main.generate pkg cs errs = before ++ Main.emit_error cs e ++ after.
Proof.
  intros Hin. apply in_split in Hin as (l1 & l2 & ->).
  exists (Main.preamble pkg ++ concat (map (Main.emit_error cs) l1)),
         (concat (map (Main.emit_error cs) l2)).
  unfold Main.generate. rewrite map_app, concat_app. simpl.
  rewrite <- !app_assoc. reflexivity.
Qed.

(** C3. (1) For a record and the constants of the previous file, the
    generator writes one deprecated declaration, with the record's code,
    for each name the previous file gave that code, the record's own name
    left out, in the order of the previous file, and then the record's
    declaration; (2) that block stands in the output as it is; (3, 4) the
    names of a code are kept in the order the previous file declared them;
    (5) a previous file that has [const ER_OLD = 1051] and an input whose
    header [ER_NEW] gets 1051 give the deprecated [ER_OLD] right before
    [const ER_NEW = 1051], (6) which are these three lines. *)
Theorem deprecated_aliases_precede_declaration :
  (forall (cs : Main.constants) (e : mysqlError),
      Main.emit_error cs e
      = concat (map (fun n => deprecated_alias n (code e))
                    (List.filter (fun n => negb (bool_decide (n = name e)))
                                 (Main.names_of cs (code e))))
        ++ Main.const_decl (name e) (code e))
  /\ (forall (pkg : gostring) (cs : Main.constants) (errs : list mysqlError)
             (e : mysqlError),
        In e errs ->
        exists before after,
          Main.generate pkg cs errs = before ++ Main.emit_error cs e ++ after)
  /\ (forall (c : Main.constants) (n : gostring) (v : Z),
        Main.names_of (Main.add c n v) v = Main.names_of c v ++ [n])
  /\ (forall (c : Main.constants) (n : gostring) (v v' : Z),
        v' <> v -> Main.names_of (Main.add c n v) v' = Main.names_of c v')
  /\ Main.run 0 (str "mysql")
              (unlines [str "start-error-number 1051"; str "ER_NEW 42S02 S0002"])
              (Some (Main.generate (str "mysql") Main.no_constants
                                   [mkMysqlError (str "ER_OLD") 1051 [] [] [] false]))
     = Ok (Main.preamble (str "mysql")
           ++ deprecated_alias (str "ER_OLD") 1051
           ++ Main.const_decl (str "ER_NEW") 1051)
  /\ deprecated_alias (str "ER_OLD") 1051 ++ Main.const_decl (str "ER_NEW") 1051
     = unlines [str "// Deprecated: should not be used";
                str "const ER_OLD = 1051"; str "const ER_NEW = 1051"].
Proof.
  split; [exact emit_error_aliases|].
  split; [exact generate_holds_record|].
  split; [exact names_of_add_same|].
  split; [exact names_of_add_other|].
  split; vm_compute; reflexivity.
Qed.

(** Two names of the previous file share the code of a record that has a
    third name: both come out deprecated, in their order, before it. *)
Lemma deprecated_aliases_precede_declaration_witness :
  let cs := Main.add (Main.add (Main.add Main.no_constants (str "ER_A") 7)
                               (str "ER_B") 8) (str "ER_C") 7 in
  let e := mkMysqlError (str "ER_NOW") 7 [] [] [] false in
  (exists before after,
      Main.generate (str "p") cs [mkMysqlError (str "ER_Z") 6 [] [] [] false; e]
      = before ++ Main.emit_error cs e ++ after)
  /\ Main.emit_error cs e
     = unlines [str "// Deprecated: should not be used"; str "const ER_A = 7";
                str "// Deprecated: should not be used"; str "const ER_C = 7";
                str "const ER_NOW = 7"].
Proof.
  cbv zeta.
  destruct deprecated_aliases_precede_declaration as (H1 & H2 & _).
  split.
  - apply H2. right. left. reflexivity.
  - rewrite H1. vm_compute. reflexivity.
Defined.

(** ** The reader of the previous file (C5) *)

Lemma read_lines_skips (c : Main.constants) (lines : list gostring) :
  Forall (fun l => HasPrefix l (str "const ") = false) lines ->
  Main.read_lines c lines = Ok c.
Proof.
  induction 1 as [|l lines Hl _ IH]; simpl; [reflexivity|].
  unfold Main.read_line. rewrite Hl. simpl. exact IH.
Qed.

(** C5, as the code has it.  A line that does not begin with [const] and a
    space is skipped: no error, the maps as they were; a file of such lines
    gives the empty maps.  A line that does begin so is not skipped: with
    at least four fields between single spaces, the second field is added
    under what [Atoi] returns for the fourth field, the error dropped: the
    integer written, brought into the range of [int], for a sign, if any,
    and digits; 0 when a byte that is no digit is met while the digits
    before it fit 64 bits, and when there is no digit at all; the bound of
    [int] on the side of the sign when the digits do not fit 64 bits,
    whatever follows them. *)
Theorem reader_skips_only_other_lines (c : Main.constants) (line : gostring) :
  (HasPrefix line (str "const ") = false -> Main.read_line c line = Ok c)
  /\ (forall data : gostring,
        Forall (fun l => HasPrefix l (str "const ") = false) (scan_lines data) ->
        Main.parseConstantsGo data = Ok Main.no_constants)
  /\ (forall (f0 f1 f2 f3 : gostring) (more : list gostring),
        HasPrefix line (str "const ") = true ->
        Split line (str " ") = f0 :: f1 :: f2 :: f3 :: more ->
        Main.read_line c line = Ok (Main.add c f1 (fst (Atoi f3)))
        /\ Main.names_of (Main.add c f1 (fst (Atoi f3))) (fst (Atoi f3))
           = Main.names_of c (fst (Atoi f3)) ++ [f1]
        /\ (unsigned f3 <> [] -> forallb is_digit (unsigned f3) = true ->
            fst (Atoi f3) = clamp_int (signed_value f3))
        /\ (forall p d rest,
              unsigned f3 = p ++ d :: rest -> forallb is_digit p = true ->
              is_digit d = false -> digits_val 0 p <= max_uint64 ->
              fst (Atoi f3) = 0)
        /\ (unsigned f3 = [] -> fst (Atoi f3) = 0)
        /\ (forall p rest,
              unsigned f3 = p ++ rest -> forallb is_digit p = true ->
              max_uint64 < digits_val 0 p ->
              fst (Atoi f3) = if is_negative f3 then min_int else max_int)).
Proof.
  split; [|split].
  - intros H. unfold Main.read_line. rewrite H. reflexivity.
  - intros data H. apply read_lines_skips, H.
  - intros f0 f1 f2 f3 more Hp Hs. unfold Main.read_line. rewrite Hp, Hs. simpl.
    destruct (Atoi_value f3) as (V1 & V2 & V3 & V4).
    split; [reflexivity|]. split; [apply names_of_add_same|].
    split; [intros Hne Hall; rewrite (V1 Hne Hall); reflexivity|].
    split; [intros p d rest Hu Hall Hd Hfit; rewrite (V2 p d rest Hu Hall Hd Hfit);
            reflexivity|].
    split; [intros Hu; rewrite (V3 Hu); reflexivity|].
    intros p rest Hu Hall Hover. rewrite (V4 p rest Hu Hall Hover). reflexivity.
Qed.

Lemma reader_skips_only_other_lines_witness :
  Main.read_line (Main.add Main.no_constants (str "ER_A") 7) (str "// const ER_B = 8")
  = Ok (Main.add Main.no_constants (str "ER_A") 7)
  /\ Main.read_line (Main.add Main.no_constants (str "ER_A") 7) (str "const ER_B = 7")
     = Ok (Main.add (Main.add Main.no_constants (str "ER_A") 7) (str "ER_B") 7)
  /\ Main.names_of (Main.add (Main.add Main.no_constants (str "ER_A") 7) (str "ER_B") 7) 7
     = [str "ER_A"; str "ER_B"]
  /\ fst (Atoi (str "99999999999999999999x")) = max_int
  /\ fst (Atoi (str "12x")) = 0
  /\ fst (Atoi (str "-9223372036854775809")) = min_int.
Proof.
  split.
  - apply (reader_skips_only_other_lines
             (Main.add Main.no_constants (str "ER_A") 7) (str "// const ER_B = 8")).
    reflexivity.
  - destruct (reader_skips_only_other_lines
                (Main.add Main.no_constants (str "ER_A") 7) (str "const ER_B = 7"))
      as (_ & _ & H).
    destruct (H (str "const") (str "ER_B") (str "=") (str "7") [] eq_refl eq_refl)
      as [H1 _].
    split; [exact H1|]. split; [vm_compute; reflexivity|].
    destruct (reader_skips_only_other_lines Main.no_constants
                (str "const X = 99999999999999999999x")) as (_ & _ & Hx).
    destruct (Hx (str "const") (str "X") (str "=") (str "99999999999999999999x") []
                 eq_refl eq_refl) as (_ & _ & _ & _ & _ & Hover).
    split; [apply (Hover (str "99999999999999999999") (str "x")); reflexivity|].
    destruct (reader_skips_only_other_lines Main.no_constants (str "const X = 12x"))
      as (_ & _ & Hy).
    destruct (Hy (str "const") (str "X") (str "=") (str "12x") [] eq_refl eq_refl)
      as (_ & _ & _ & Hbad & _).
    split; [apply (Hbad (str "12") "x"%char []); [reflexivity|reflexivity|reflexivity|];
            vm_compute; discriminate|].
    destruct (reader_skips_only_other_lines Main.no_constants
                (str "const X = -9223372036854775809")) as (_ & _ & Hz).
    destruct (Hz (str "const") (str "X") (str "=") (str "-9223372036854775809") []
                 eq_refl eq_refl) as (_ & _ & Hdigits & _).
    apply Hdigits; [discriminate|reflexivity].
Defined.

Lemma reader_records_malformed_declaration :
  (exists cs bn,
      Main.parseConstantsGo (str "const X = abc") = Ok cs
      /\ Main.names_of cs 0 = [str "X"]
      /\ Main.byName cs = Some bn /\ bn !! str "X" = Some 0)
  /\ Main.parseConstantsGo (str "const X") = Panic (IndexOutOfRange 3 2).
Proof.
  split; [|vm_compute; reflexivity].
  eexists. eexists. split; [vm_compute; reflexivity|].
  split; [vm_compute; reflexivity|].
  split; [reflexivity|]. vm_compute. reflexivity.
Qed.

(** ** Printing and reading back an integer *)

Lemma digit_is_no_sign (c : ascii) :
  is_digit c = true ->
  Ascii.eqb c "-" = false /\ Ascii.eqb c "+" = false /\ Ascii.eqb c cr = false.
Proof.
  destruct c as [[] [] [] [] [] [] [] []]; vm_compute; intros H;
    first [discriminate H | auto].
Qed.

Lemma digit_char_digit (d : Z) :
  0 <= d <= 9 -> is_digit (digit_char d) = true /\ digit_val (digit_char d) = d.
Proof.
  intros H.
  assert (d = 0 \/ d = 1 \/ d = 2 \/ d = 3 \/ d = 4 \/ d = 5 \/ d = 6 \/ d = 7
          \/ d = 8 \/ d = 9) as Hd by lia.
  repeat (destruct Hd as [-> | Hd]; [split; reflexivity|]).
  subst d. split; reflexivity.
Qed.

Lemma digits_val_app (a : Z) (l1 l2 : gostring) :
  digits_val a (l1 ++ l2) = digits_val (digits_val a l1) l2.
Proof. revert a. induction l1 as [|c l1 IH]; intros a; simpl; auto. Qed.

Lemma digits_of_digits (fuel : nat) :
  forall (n : Z) (acc : gostring),
    0 <= n < 10 ^ Z.of_nat (S fuel) ->
    exists ds,
      digits_of (S fuel) n acc = ds ++ acc
      /\ ds <> []
      /\ forallb is_digit ds = true
      /\ forall a, digits_val a ds = a * 10 ^ Z.of_nat (length ds) + n.
Proof.
  induction fuel as [|fuel IH]; intros n acc Hn.
  - change (10 ^ Z.of_nat 1) with 10 in Hn.
    destruct (digit_char_digit (n mod 10)) as [Hd Hv];
      [pose proof (Z.mod_pos_bound n 10); lia|].
    exists [digit_char (n mod 10)]. cbn [digits_of].
    destruct (Z.ltb_spec n 10); [|lia].
    split; [reflexivity|]. split; [discriminate|].
    split; [simpl; rewrite Hd; reflexivity|].
    intros a. simpl. rewrite Hv, Z.mod_small by lia. lia.
  - destruct (digit_char_digit (n mod 10)) as [Hd Hv];
      [pose proof (Z.mod_pos_bound n 10); lia|].
    change (digits_of (S (S fuel)) n acc)
      with (if n <? 10 then digit_char (n mod 10) :: acc
            else digits_of (S fuel) (n / 10) (digit_char (n mod 10) :: acc)).
    destruct (Z.ltb_spec n 10) as [Hlt|Hge].
    + exists [digit_char (n mod 10)].
      split; [reflexivity|]. split; [discriminate|].
      split; [simpl; rewrite Hd; reflexivity|].
      intros a. simpl. rewrite Hv, Z.mod_small by lia. lia.
    + assert (0 <= n / 10 < 10 ^ Z.of_nat (S fuel)) as Hq.
      { split; [apply Z.div_pos; lia|].
        apply Z.div_lt_upper_bound; [lia|].
        rewrite <- Z.pow_succ_r by lia. rewrite <- Nat2Z.inj_succ. lia. }
      destruct (IH (n / 10) (digit_char (n mod 10) :: acc) Hq)
        as (ds & Hds & Hne & Hall & Hval).
      exists (ds ++ [digit_char (n mod 10)]).
      split; [rewrite Hds, <- app_assoc; reflexivity|].
      split; [destruct ds; discriminate|].
      split; [rewrite forallb_app, Hall; simpl; rewrite Hd; reflexivity|].
      intros a. rewrite digits_val_app, Hval. simpl. rewrite Hv.
      rewrite length_app, Nat2Z.inj_add. simpl length.
      rewrite Z.pow_add_r by lia. change (10 ^ Z.of_nat 1) with 10.
      pose proof (Z.div_mod n 10). lia.
Qed.

(** What [Itoa] prints: digits, after a minus sign for a negative number,
    and [Atoi] reads the number back. *)
Lemma Itoa_digits (z : Z) :
  min_int <= z <= max_int ->
  exists ds,
    Itoa z = (if z <? 0 then ["-"%char] else []) ++ ds
    /\ ds <> [] /\ forallb is_digit ds = true
    /\ digits_val 0 ds = Z.abs z.
Proof.
  unfold min_int, max_int. intros Hz. unfold Itoa.
  destruct (Z.ltb_spec z 0) as [Hneg|Hpos].
  - destruct (digits_of_digits 19 (- z) []) as (ds & Hds & Hne & Hall & Hval).
    { change (10 ^ Z.of_nat 20) with 100000000000000000000. lia. }
    exists ds. rewrite Hds, app_nil_r. split; [reflexivity|].
    split; [exact Hne|]. split; [exact Hall|]. rewrite Hval. lia.
  - destruct (digits_of_digits 19 z []) as (ds & Hds & Hne & Hall & Hval).
    { change (10 ^ Z.of_nat 20) with 100000000000000000000. lia. }
    exists ds. rewrite Hds, app_nil_r. split; [reflexivity|].
    split; [exact Hne|]. split; [exact Hall|]. rewrite Hval. lia.
Qed.

Lemma Atoi_Itoa (z : Z) : min_int <= z <= max_int -> Atoi (Itoa z) = (z, true).
Proof.
  intros Hz. destruct (Itoa_digits z Hz) as (ds & -> & Hne & Hall & Hval).
  pose proof (ParseUint_digits ds Hne Hall) as Hparse. rewrite Hval in Hparse.
  unfold min_int, max_int in Hz. unfold max_uint64 in Hparse.
  destruct (Z.leb_spec (Z.abs z) (2 ^ 64 - 1)); [|lia].
  destruct ds as [|d ds]; [congruence|].
  unfold Atoi, ParseInt.
  destruct (Z.ltb_spec z 0) as [Hneg|Hpos]; cbn [app].
  - replace (Ascii.eqb "-" "+") with false by reflexivity.
    replace (Ascii.eqb "-" "-") with true by reflexivity.
    rewrite Hparse. cbn [int_of_uint negb andb].
    destruct (Z.ltb_spec (2 ^ 63) (Z.abs z)); [lia|].
    f_equal. lia.
  - pose proof Hall as Hall'. simpl in Hall'. apply andb_true_iff in Hall' as [Hd _].
    destruct (digit_is_no_sign d Hd) as (Hminus & Hplus & _).
    rewrite Hplus, Hminus, Hparse. cbn [int_of_uint negb andb].
    destruct (Z.leb_spec (2 ^ 63) (Z.abs z)); [lia|].
    f_equal. lia.
Qed.

(** ** The generated file, line by line *)

Lemma unlines_app (l1 l2 : list gostring) : unlines (l1 ++ l2) = unlines l1 ++ unlines l2.
Proof. unfold unlines. rewrite map_app, concat_app. reflexivity. Qed.

Lemma license_is_lines : Main.writeLicense = unlines Main.license_lines.
Proof. vm_compute. reflexivity. Qed.

Lemma unlines_cons (l : gostring) (ls : list gostring) :
  unlines (l :: ls) = l ++ lf :: unlines ls.
Proof. unfold unlines. simpl. rewrite <- app_assoc. reflexivity. Qed.

Lemma preamble_is_lines (pkg : gostring) :
  Main.preamble pkg = unlines (preamble_lines pkg).
Proof.
  unfold Main.preamble, preamble_lines.
  rewrite unlines_cons, unlines_app, license_is_lines.
  unfold Sprintln. cbn [join_sp].
  rewrite (unlines_cons _ []). change (unlines []) with (@nil ascii).
  rewrite <- !app_assoc. reflexivity.
Qed.

Lemma const_decl_is_line (e : mysqlError) :
  Main.const_decl (name e) (code e) = const_text e ++ [lf].
Proof. reflexivity. Qed.

Lemma emit_error_no_alias (cs : Main.constants) (e : mysqlError) :
  List.filter (fun n => negb (bool_decide (n = name e))) (Main.names_of cs (code e)) = [] ->
  Main.emit_error cs e = const_text e ++ [lf].
Proof. intros H. rewrite emit_error_aliases, H. reflexivity. Qed.

Lemma generate_first_is_lines (pkg : gostring) (errs : list mysqlError) :
  Main.generate pkg Main.no_constants errs
  = unlines (preamble_lines pkg ++ map const_text errs).
Proof.
  unfold Main.generate. rewrite unlines_app, preamble_is_lines. f_equal.
  unfold unlines. rewrite map_map. reflexivity.
Qed.

(** *** Fields between single spaces *)

Lemma Split_from_field (w cur rest : gostring) :
  free_of [" "%char] w = true ->
  Split_from (str " ") 0 cur (w ++ " "%char :: rest)
  = (rev cur ++ w) :: Split_from (str " ") 0 [] rest.
Proof.
  revert cur. induction w as [|c w IH]; intros cur Hw.
  - simpl. rewrite app_nil_r. reflexivity.
  - apply free_of_cons in Hw as [Hc Hw].
    unfold mem in Hc. simpl in Hc. rewrite orb_false_r in Hc.
    rewrite <- app_comm_cons. cbn [Split_from].
    replace (HasPrefix (c :: w ++ " "%char :: rest) (str " ")) with false
      by (simpl; rewrite Hc; reflexivity).
    rewrite (IH (c :: cur) Hw). simpl. rewrite <- app_assoc. reflexivity.
Qed.

Lemma Split_from_last (w cur : gostring) :
  free_of [" "%char] w = true ->
  Split_from (str " ") 0 cur w = [rev cur ++ w].
Proof.
  revert cur. induction w as [|c w IH]; intros cur Hw.
  - simpl. rewrite app_nil_r. reflexivity.
  - apply free_of_cons in Hw as [Hc Hw].
    unfold mem in Hc. simpl in Hc. rewrite orb_false_r in Hc.
    cbn [Split_from].
    replace (HasPrefix (c :: w) (str " ")) with false
      by (simpl; rewrite Hc; reflexivity).
    rewrite (IH (c :: cur) Hw). simpl. rewrite <- app_assoc. reflexivity.
Qed.

Lemma free_of_weaken (big small w : gostring) :
  (forall c, mem c small = true -> mem c big = true) ->
  free_of big w = true -> free_of small w = true.
Proof.
  intros Hsub. induction w as [|c w IH]; intros H; [reflexivity|].
  apply free_of_cons in H as [Hc Hw]. apply free_of_cons. split; [|exact (IH Hw)].
  destruct (mem c small) eqn:Hs; [|reflexivity]. rewrite (Hsub c Hs) in Hc. discriminate.
Qed.

Lemma Itoa_free (z : Z) :
  min_int <= z <= max_int ->
  free_of [" "%char] (Itoa z) = true /\ free_of [lf] (Itoa z) = true
  /\ exists x c, Itoa z = x ++ [c] /\ Ascii.eqb c cr = false.
Proof.
  intros Hz. destruct (Itoa_digits z Hz) as (ds & -> & Hne & Hall & _).
  assert (free_of [" "%char] ds = true /\ free_of [lf] ds = true) as [Hsp Hlf].
  { clear Hne. induction ds as [|c ds IH]; [split; reflexivity|].
    simpl in Hall. apply andb_true_iff in Hall as [Hc Hds].
    destruct (IH Hds) as [H1 H2].
    destruct (digit_is_no_delimiter c Hc) as (_ & Hl & Hs).
    split; apply free_of_cons; (split; [unfold mem; simpl|assumption]).
    - rewrite Hs. reflexivity.
    - rewrite Hl. reflexivity. }
  split; [|split].
  - rewrite free_of_app, Hsp. destruct (z <? 0); reflexivity.
  - rewrite free_of_app, Hlf. destruct (z <? 0); reflexivity.
  - destruct (exists_last Hne) as (x & c & ->).
    exists ((if z <? 0 then ["-"%char] else []) ++ x), c.
    split; [rewrite app_assoc; reflexivity|].
    rewrite forallb_app in Hall. apply andb_true_iff in Hall as [_ Hc].
    simpl in Hc. rewrite andb_true_r in Hc.
    apply digit_is_no_sign in Hc. tauto.
Qed.

(** The fields of a declaration the generator wrote. *)
Lemma Split_const_text (e : mysqlError) :
  scanned_record e ->
  Split (const_text e) (str " ") = [str "const"; name e; str "="; Itoa (code e)]
  /\ HasPrefix (const_text e) (str "const ") = true.
Proof.
  intros [Hname Hcode].
  assert (free_of [" "%char] (name e) = true) as Hn.
  { apply (free_of_weaken word_delims); [|exact Hname].
    intros c. unfold mem. simpl. destruct (Ascii.eqb c " "); [reflexivity|discriminate]. }
  destruct (Itoa_free (code e) Hcode) as (Hi & _ & _).
  split.
  - unfold Split, const_text, join_sp.
    rewrite (Split_from_field (str "const") [] _ eq_refl).
    rewrite (Split_from_field (name e) [] _ Hn).
    rewrite (Split_from_field (str "=") [] _ eq_refl).
    rewrite (Split_from_last (Itoa (code e)) [] Hi). reflexivity.
  - reflexivity.
Qed.

(** *** Reading the generated file back *)

Lemma dropCR_keeps (x : gostring) (c : ascii) :
  Ascii.eqb c cr = false -> dropCR (x ++ [c]) = x ++ [c].
Proof. intros Hc. unfold dropCR. rewrite rev_unit, Hc. reflexivity. Qed.

Lemma dropCR_is_prefix (l : gostring) : exists t, l = dropCR l ++ t.
Proof.
  unfold dropCR. destruct (rev l) as [|c rest] eqn:Hrev.
  - exists []. rewrite app_nil_r. reflexivity.
  - destruct (Ascii.eqb c cr).
    + exists [c]. rewrite <- (rev_involutive l), Hrev. reflexivity.
    + exists []. rewrite app_nil_r. reflexivity.
Qed.

Lemma HasPrefix_dropCR (l p : gostring) :
  HasPrefix l p = false -> HasPrefix (dropCR l) p = false.
Proof.
  intros H. destruct (HasPrefix (dropCR l) p) eqn:Hd; [|reflexivity].
  apply HasPrefix_split in Hd as [t Ht].
  destruct (dropCR_is_prefix l) as [u Hu].
  rewrite Hu, Ht, <- app_assoc, HasPrefix_app in H. discriminate.
Qed.

(** The scanner on a line that ends in a newline: it gives the line, or it
    stops for good because the line does not fit its buffer. *)
Lemma scan_from_line (l cur rest : gostring) :
  free_of [lf] l = true ->
  scan_from cur (l ++ lf :: rest) = []
  \/ scan_from cur (l ++ lf :: rest) = dropCR (rev cur ++ l) :: scan_from [] rest.
Proof.
  revert cur. induction l as [|c l IH]; intros cur Hl.
  - right. simpl. rewrite app_nil_r. reflexivity.
  - apply free_of_cons in Hl as [Hc Hl].
    unfold mem in Hc. simpl in Hc. rewrite orb_false_r in Hc.
    rewrite <- app_comm_cons. cbn [scan_from]. rewrite Hc.
    destruct (MaxScanTokenSize <=? len cur + 1); [left; reflexivity|].
    destruct (IH (c :: cur) Hl) as [H|H]; [left; exact H|right].
    rewrite H. simpl. rewrite <- app_assoc. reflexivity.
Qed.

(** So what is read back from a text written line by line is the lines
    written, up to some line. *)
Lemma scan_lines_unlines (lines : list gostring) :
  Forall (fun l => free_of [lf] l = true) lines ->
  exists k, scan_lines (unlines lines) = map dropCR (take k lines).
Proof.
  unfold scan_lines. induction 1 as [|l lines Hl _ IH].
  - exists 0%nat. reflexivity.
  - rewrite unlines_cons.
    destruct (scan_from_line l [] (unlines lines) Hl) as [H|H].
    + exists 0%nat. exact H.
    + destruct IH as [k Hk]. exists (S k). rewrite H, Hk. reflexivity.
Qed.

Lemma read_lines_app (c : Main.constants) (l1 l2 : list gostring) :
  Main.read_lines c (l1 ++ l2)
  = bind (Main.read_lines c l1) (fun c' => Main.read_lines c' l2).
Proof.
  revert c. induction l1 as [|l l1 IH]; intros c; simpl; [reflexivity|].
  destruct (Main.read_line c l); simpl; auto.
Qed.

(** A declaration the generator wrote reads back as the record's name and
    code. *)
Lemma read_line_const_text (c : Main.constants) (e : mysqlError) :
  scanned_record e ->
  Main.read_line c (dropCR (const_text e)) = Ok (Main.add c (name e) (code e)).
Proof.
  intros He. destruct (Split_const_text e He) as [Hsplit Hprefix].
  destruct He as [Hname Hcode].
  destruct (Itoa_free (code e) Hcode) as (_ & _ & x & d & Hx & Hd).
  assert (dropCR (const_text e) = const_text e) as ->.
  { unfold const_text, join_sp. rewrite Hx.
    replace (str "const" ++ " "%char :: name e ++ " "%char :: str "=" ++ " "%char :: x ++ [d])
      with ((str "const" ++ " "%char :: name e ++ " "%char :: str "=" ++ " "%char :: x) ++ [d]).
    - apply dropCR_keeps, Hd.
    - rewrite <- !app_assoc. cbn [app]. rewrite <- !app_assoc. reflexivity. }
  unfold Main.read_line. rewrite Hprefix, Hsplit. simpl.
  rewrite (Atoi_Itoa _ Hcode). reflexivity.
Qed.

Lemma read_lines_const_texts (es : list mysqlError) :
  forall c, Forall scanned_record es ->
            Main.read_lines c (map dropCR (map const_text es)) = Ok (record_all c es).
Proof.
  induction es as [|e es IH]; intros c Hall; simpl; [reflexivity|].
  inversion Hall as [|? ? He Hes]; subst.
  rewrite (read_line_const_text c e He). simpl. apply IH, Hes.
Qed.

(** The names the constants hold for a code after the declarations of
    [es]: those of the records of [es] with that code, in order. *)
Lemma names_of_record_all (es : list mysqlError) :
  forall (c : Main.constants) (v : Z),
    Main.names_of (record_all c es) v
    = Main.names_of c v ++ map name (List.filter (fun e => code e =? v) es).
Proof.
  induction es as [|e es IH]; intros c v; simpl.
  - rewrite app_nil_r. reflexivity.
  - unfold record_all in *. rewrite IH.
    destruct (Z.eqb_spec (code e) v) as [->|Hne].
    + rewrite names_of_add_same, <- app_assoc. reflexivity.
    + rewrite names_of_add_other by congruence. reflexivity.
Qed.

(** *** The records the scanner makes *)

Lemma scanned_by_maps (errs : list mysqlError) :
  Forall scanned_record errs
  <-> Forall (fun n => free_of word_delims n = true) (map name errs)
      /\ Forall (fun v => min_int <= v <= max_int) (map code errs).
Proof.
  induction errs as [|e errs IH]; simpl.
  - split; [intros _; split; constructor | intros _; constructor].
  - split.
    + intros H. inversion H as [|? ? [Hn Hc] Hrest]; subst.
      apply IH in Hrest as [H1 H2]. split; constructor; assumption.
    + intros [H1 H2]. inversion H1; inversion H2; subst.
      constructor; [split; assumption|]. apply IH. split; assumption.
Qed.

Lemma Main_scan_line_records (fuel : nat) (st st' : scan_state) (line : gostring) :
  Main.scan_line fuel st line = Ok st' ->
  Forall scanned_record (errs st) -> Forall scanned_record (errs st').
Proof.
  intros Hscan Hall. destruct (is_offset_decl line) eqn:Hd.
  - rewrite (Main_scan_line_offset fuel st line Hd) in Hscan. cbv zeta in Hscan.
    destruct (negb _); [discriminate|]. injection Hscan as <-. exact Hall.
  - destruct (Main_scan_line_numbering fuel st st' line Hd Hscan) as [_ H].
    apply scanned_by_maps in Hall as [Hn Hc]. apply scanned_by_maps.
    destruct (is_header line); destruct H as (_ & -> & ->).
    + split; apply Forall_app; split; try assumption;
        (constructor; [|constructor]).
      * apply consumeWord_fst_free.
      * apply wrap_int_range.
    + split; assumption.
Qed.

Lemma Main_scan_records (fuel : nat) (lines : list gostring) :
  forall st st', Main.scan fuel st lines = Ok st' ->
                 Forall scanned_record (errs st) -> Forall scanned_record (errs st').
Proof.
  induction lines as [|l lines IH]; intros st st' Hscan Hall; simpl in Hscan.
  - injection Hscan as <-. exact Hall.
  - destruct (Main.scan_line fuel st l) as [st1| | |] eqn:Hline; try discriminate.
    apply (IH st1 st' Hscan). apply (Main_scan_line_records fuel st st1 l Hline Hall).
Qed.

Lemma const_text_one_line (e : mysqlError) :
  scanned_record e -> free_of [lf] (const_text e) = true.
Proof.
  intros [Hname Hcode].
  assert (free_of [lf] (name e) = true) as Hn.
  { apply (free_of_weaken word_delims); [|exact Hname].
    intros c. unfold mem. simpl. destruct (Ascii.eqb c lf); [|discriminate].
    rewrite !orb_true_r. reflexivity. }
  destruct (Itoa_free (code e) Hcode) as (_ & Hi & _).
  unfold const_text, join_sp.
  rewrite free_of_app. apply andb_true_iff. split; [reflexivity|].
  apply free_of_cons. split; [reflexivity|].
  rewrite free_of_app, Hn. apply free_of_cons. split; [reflexivity|].
  rewrite free_of_app. apply andb_true_iff. split; [reflexivity|].
  apply free_of_cons. split; [reflexivity|]. exact Hi.
Qed.

(** The lines before the declarations are single lines when the package
    name is, and none of them begins like a declaration. *)
Lemma preamble_lines_plain (pkg : gostring) :
  free_of [lf] pkg = true ->
  Forall (fun l => free_of [lf] l = true /\ HasPrefix l (str "const ") = false)
         (preamble_lines pkg).
Proof.
  intros Hpkg. unfold preamble_lines.
  constructor; [split; reflexivity|].
  apply Forall_app. split.
  - assert (forallb (fun l => free_of [lf] l && negb (HasPrefix l (str "const ")))
                    Main.license_lines = true) as H by (vm_compute; reflexivity).
    apply List.Forall_forall. intros l Hl.
    rewrite forallb_forall in H. specialize (H l Hl).
    apply andb_true_iff in H as [H1 H2]. apply negb_true_iff in H2. auto.
  - constructor; [|constructor]. split; [|reflexivity].
    unfold join_sp. rewrite free_of_app. apply andb_true_iff. split; [reflexivity|].
    apply free_of_cons. split; [reflexivity | exact Hpkg].
Qed.

Lemma filter_none {A : Type} (f : A -> bool) (l : list A) :
  (forall x, In x l -> f x = false) -> List.filter f l = [].
Proof.
  induction l as [|x l IH]; intros H; simpl; [reflexivity|].
  rewrite (H x (or_introl eq_refl)). apply IH. intros y Hy. apply H. right. exact Hy.
Qed.

(** With the constants of any leading part of the catalog as the previous
    ones, no record of a catalog whose codes and names agree gets an
    alias. *)
Lemma no_alias_from_own_catalog (errs : list mysqlError) (k : nat) (e : mysqlError) :
  code_names_agree errs -> In e errs ->
  Main.deprecates (record_all Main.no_constants (take k errs)) (name e) (code e) = []
  /\ Main.emit_error (record_all Main.no_constants (take k errs)) e
     = Main.emit_error Main.no_constants e.
Proof.
  intros Hagree He.
  assert (List.filter (fun n => negb (bool_decide (n = name e)))
            (Main.names_of (record_all Main.no_constants (take k errs)) (code e)) = [])
    as Hnone.
  { apply filter_none. intros n Hn. rewrite names_of_record_all in Hn.
    change (Main.names_of Main.no_constants (code e)) with (@nil gostring) in Hn.
    simpl in Hn. apply in_map_iff in Hn as (e' & <- & He').
    apply filter_In in He' as [Hin Hcode]. apply Z.eqb_eq in Hcode.
    assert (In e' errs) as Hin' by (rewrite <- (take_drop k errs); apply in_or_app; auto).
    rewrite (Hagree e' e Hin' He Hcode).
    rewrite bool_decide_eq_true_2 by reflexivity. reflexivity. }
  split.
  - unfold Main.deprecates. rewrite deprecates_loop_filter, Hnone. reflexivity.
  - rewrite (emit_error_no_alias _ e Hnone). reflexivity.
Qed.

(** ** Generating again from the file just generated (C4) *)

(** The reader on the file generated with no previous constants: it never
    fails, and what it holds is the declarations of a leading part of the
    catalog (all of it, unless a line was too long for the scanner). *)
Lemma parseConstantsGo_own_output (pkg : gostring) (errs : list mysqlError) :
  free_of [lf] pkg = true -> Forall scanned_record errs ->
  exists k,
    Main.parseConstantsGo (Main.generate pkg Main.no_constants errs)
    = Ok (record_all Main.no_constants (take k errs)).
Proof.
  intros Hpkg Hrec. unfold Main.parseConstantsGo.
  rewrite generate_first_is_lines.
  pose proof (preamble_lines_plain pkg Hpkg) as Hpre.
  destruct (scan_lines_unlines (preamble_lines pkg ++ map const_text errs)) as [k Hk].
  { apply Forall_app. split.
    - eapply List.Forall_impl; [|exact Hpre]. intros l [H _]. exact H.
    - apply List.Forall_map. eapply List.Forall_impl; [|exact Hrec].
      intros e. apply const_text_one_line. }
  exists (k - length (preamble_lines pkg))%nat.
  rewrite Hk, firstn_app, map_app, read_lines_app, firstn_map.
  rewrite read_lines_skips.
  - cbn [bind]. apply read_lines_const_texts. apply Forall_take, Hrec.
  - apply List.Forall_map. apply Forall_take.
    eapply List.Forall_impl; [|exact Hpre]. intros l [_ H]. apply HasPrefix_dropCR, H.
Qed.

(** C4, as the code has it: when the input scans, no two records with
    different names share a code, and the package name holds no newline,
    the file generated with no previous constants is generated again, byte
    for byte, with itself as the previous file, and no record gets a
    deprecated alias. *)
Theorem regeneration_without_shared_codes (fuel : nat) (pkg input : gostring)
        (st : scan_state) :
  free_of [lf] pkg = true ->
  Main.scan fuel initial_state (scan_lines input) = Ok st ->
  code_names_agree (errs st) ->
  exists first cs,
    Main.run fuel pkg input None = Ok first
    /\ Main.run fuel pkg input (Some first) = Ok first
    /\ Main.parseConstantsGo first = Ok cs
    /\ forall e, In e (errs st) -> Main.deprecates cs (name e) (code e) = [].
Proof.
  intros Hpkg Hscan Hagree.
  assert (Forall scanned_record (errs st)) as Hrec
    by (apply (Main_scan_records fuel _ _ _ Hscan); constructor).
  destruct (parseConstantsGo_own_output pkg (errs st) Hpkg Hrec) as [k Hk].
  exists (Main.generate pkg Main.no_constants (errs st)),
         (record_all Main.no_constants (take k (errs st))).
  unfold Main.run. rewrite Hscan. cbn [bind]. rewrite Hk. cbn [bind].
  split; [reflexivity|]. split; [|split; [reflexivity|]].
  - f_equal. unfold Main.generate. f_equal. f_equal.
    apply map_ext_in. intros e He.
    apply (no_alias_from_own_catalog (errs st) k e Hagree He).
  - intros e He. apply (no_alias_from_own_catalog (errs st) k e Hagree He).
Qed.

Lemma regeneration_without_shared_codes_witness :
  exists first cs,
    Main.run 0 (str "mysql")
             (unlines [str "start-error-number 1000"; str "ER_A 42000"; str "WARN_B"]) None
    = Ok first
    /\ Main.run 0 (str "mysql")
                (unlines [str "start-error-number 1000"; str "ER_A 42000"; str "WARN_B"])
                (Some first)
       = Ok first
    /\ Main.parseConstantsGo first = Ok cs
    /\ forall e,
         In e [mkMysqlError (str "ER_A") 1000 (str "42000") [] [] false;
               mkMysqlError (str "WARN_B") 1001 [] [] [] false] ->
         Main.deprecates cs (name e) (code e) = [].
Proof.
  apply (regeneration_without_shared_codes 0 (str "mysql")
           (unlines [str "start-error-number 1000"; str "ER_A 42000"; str "WARN_B"])
           (mkState (str "eng") 1000 2 []
              [mkMysqlError (str "ER_A") 1000 (str "42000") [] [] false;
               mkMysqlError (str "WARN_B") 1001 [] [] [] false])).
  - reflexivity.
  - vm_compute. reflexivity.
  - intros e1 e2 H1 H2. simpl in H1, H2.
    destruct H1 as [<-|[<-|[]]]; destruct H2 as [<-|[<-|[]]]; simpl; intros H;
      first [reflexivity | discriminate H].
Defined.

(** As the specification states it, C4 fails on an input that declares the
    same offset twice: [ER_A] and [ER_B] both get 1000, the first file declares
    both, and the second generation, reading the first, marks each as a
    deprecated alias of the other. *)
Lemma regeneration_adds_aliases_for_shared_code :
  exists first second,
    Main.run 0 (str "mysql")
             (unlines [str "start-error-number 1000"; str "ER_A";
                       str "start-error-number 1000"; str "ER_B"]) None
    = Ok first
    /\ Main.run 0 (str "mysql")
                (unlines [str "start-error-number 1000"; str "ER_A";
                          str "start-error-number 1000"; str "ER_B"]) (Some first)
       = Ok second
    /\ first = Main.preamble (str "mysql")
               ++ unlines [str "const ER_A = 1000"; str "const ER_B = 1000"]
    /\ second = Main.preamble (str "mysql")
                ++ unlines [str "// Deprecated: should not be used";
                            str "const ER_B = 1000"; str "const ER_A = 1000";
                            str "// Deprecated: should not be used";
                            str "const ER_A = 1000"; str "const ER_B = 1000"]
    /\ first <> second.
Proof.
  eexists. eexists.
  split; [vm_compute; reflexivity|].
  split; [vm_compute; reflexivity|].
  split; [vm_compute; reflexivity|].
  split; [vm_compute; reflexivity|].
  intros H. apply (f_equal (@length ascii)) in H. vm_compute in H. discriminate H.
Qed.

(** ** The decoder against the specification's (C8) *)

Lemma no_octal_escape_tail (c : Z) (r : list Z) :
  Spec.no_octal_escape (c :: r) = true -> Spec.no_octal_escape r = true.
Proof.
  destruct r as [|e r]; [reflexivity|]. cbn [Spec.no_octal_escape].
  intros H. apply andb_true_iff in H as [_ H]. exact H.
Qed.

Lemma rune_at_middle (before : list Z) (c : Z) (after : list Z) :
  rune_at (before ++ c :: after) (Z.of_nat (length before)) = c.
Proof. unfold rune_at. rewrite Nat2Z.id. apply nth_middle. Qed.

(** Where no backslash stands before an octal digit, the loop of
    [parseQuoted], at index [len(before)] of [before ++ rest], does what the
    specification's decoder does on [rest]. *)
Lemma parseQuoted_loop_agrees (fuel : nat) :
  forall (before rest : list Z) (b : gostring),
    (length rest < fuel)%nat ->
    Spec.no_octal_escape rest = true ->
    parseQuoted_loop fuel (before ++ rest) (Z.of_nat (length before)) b
    = Spec.decode_runes fuel rest b.
Proof.
  induction fuel as [|fuel IH]; intros before rest b Hfuel Hno; [lia|].
  cbn [parseQuoted_loop Spec.decode_runes].
  unfold rlen. rewrite length_app, Nat2Z.inj_add.
  destruct rest as [|c rest].
  { simpl length. destruct (Z.ltb_spec (Z.of_nat (length before))
                                       (Z.of_nat (length before) + Z.of_nat 0)); [lia|].
    reflexivity. }
  destruct (Z.ltb_spec (Z.of_nat (length before))
                       (Z.of_nat (length before) + Z.of_nat (length (c :: rest))))
    as [_|Hge]; [|simpl length in Hge; lia].
  rewrite rune_at_middle.
  destruct (c =? 34); [reflexivity|].
  assert (forall x : Z,
             parseQuoted_loop fuel (before ++ c :: rest)
                              (Z.of_nat (length before) + 1) (b ++ encode_rune x)
             = Spec.decode_runes fuel rest (b ++ encode_rune x)) as Hnext.
  { intros x.
    replace (before ++ c :: rest) with ((before ++ [c]) ++ rest)
      by (rewrite <- app_assoc; reflexivity).
    replace (Z.of_nat (length before) + 1) with (Z.of_nat (length (before ++ [c])))
      by (rewrite length_app; simpl; lia).
    apply IH; [simpl in Hfuel; lia | exact (no_octal_escape_tail c rest Hno)]. }
  destruct (Z.eqb_spec c 92) as [->|Hc]; [|cbn [andb]; apply Hnext].
  destruct rest as [|e rest].
  { simpl length.
    destruct (Z.ltb_spec (Z.of_nat (length before) + 1)
                         (Z.of_nat (length before) + Z.of_nat 1)); [lia|].
    cbn [andb]. rewrite Hnext.
    destruct fuel as [|fuel]; [simpl in Hfuel; lia|]. reflexivity. }
  destruct (Z.ltb_spec (Z.of_nat (length before) + 1)
                       (Z.of_nat (length before) + Z.of_nat (length (92 :: e :: rest))))
    as [_|Hge]; [|simpl length in Hge; lia].
  cbn [andb].
  assert (rune_at (before ++ 92 :: e :: rest) (Z.of_nat (length before) + 1) = e) as ->.
  { replace (before ++ 92 :: e :: rest) with ((before ++ [92]) ++ e :: rest)
      by (rewrite <- app_assoc; reflexivity).
    replace (Z.of_nat (length before) + 1) with (Z.of_nat (length (before ++ [92])))
      by (rewrite length_app; simpl; lia).
    apply rune_at_middle. }
  assert (forall b' : gostring,
             parseQuoted_loop fuel (before ++ 92 :: e :: rest)
                              (Z.of_nat (length before) + 1 + 1) b'
             = Spec.decode_runes fuel rest b') as Hskip.
  { intros b'.
    replace (before ++ 92 :: e :: rest) with ((before ++ [92; e]) ++ rest)
      by (rewrite <- app_assoc; reflexivity).
    replace (Z.of_nat (length before) + 1 + 1)
      with (Z.of_nat (length (before ++ [92; e])))
      by (rewrite length_app; simpl; lia).
    apply IH; [simpl in Hfuel; lia|].
    apply (no_octal_escape_tail e), (no_octal_escape_tail 92), Hno. }
  destruct (e =? 110); [apply Hskip|].
  cbn [Spec.no_octal_escape] in Hno. apply andb_true_iff in Hno as [Hoct _].
  simpl in Hoct. apply negb_true_iff in Hoct. unfold Spec.is_octal in *.
  rewrite Hoct. apply Hskip.
Qed.

Lemma parseQuoted_agrees_without_octal (s : gostring) :
  Spec.no_octal_escape (to_runes s) = true -> parseQuoted_run s = Spec.decode s.
Proof.
  intros Hno. unfold parseQuoted_run, Spec.decode. cbv zeta.
  apply (parseQuoted_loop_agrees _ [] (to_runes s) []); [lia | exact Hno].
Qed.

(** A continuation line whose literal main.go's decoder finds unclosed is
    refused with the error [parse quote], which carries the line; this
    holds whether or not a record is there to take the message. *)
Lemma Main_unclosed_literal (fuel : nat) (st : scan_state) (line : gostring) :
  classify line = KContinuation ->
  HasPrefix (snd (split_continuation line)) [dquote] = true ->
  Main.parseQuoted (slice_from (snd (split_continuation line)) 1) = Err Main.UnexpectedEOL ->
  Main.scan_line fuel st line = Err (Main.ParseQuote line Main.UnexpectedEOL).
Proof.
  unfold classify, Main.scan_line. intros Hk Hq Hp.
  destruct (HasPrefix line (str "language")); [discriminate|].
  destruct (HasPrefix line (str "start-error-number")); [discriminate|].
  destruct (HasPrefix line (str "default-language")); [discriminate|].
  destruct (continuation_prefix line).
  - destruct (split_continuation line) as [lang lit]. cbn [snd] in Hq, Hp.
    rewrite Hq, Hp. reflexivity.
  - destruct (header_prefix line); [discriminate|].
    destruct (_ || _); [discriminate|].
    destruct (HasPrefix line _); discriminate.
Qed.

(** So for literals without octal escapes C8 holds: a literal the
    specification's decoder finds unclosed aborts the scan with the line. *)
Lemma Main_unclosed_literal_without_octal (fuel : nat) (st : scan_state)
      (line : gostring) :
  classify line = KContinuation ->
  HasPrefix (snd (split_continuation line)) [dquote] = true ->
  Spec.no_octal_escape (to_runes (slice_from (snd (split_continuation line)) 1)) = true ->
  Spec.decode (slice_from (snd (split_continuation line)) 1) = Some EndOfLine ->
  Main.scan_line fuel st line = Err (Main.ParseQuote line Main.UnexpectedEOL).
Proof.
  intros Hk Hq Hno Hspec. apply Main_unclosed_literal; try assumption.
  unfold Main.parseQuoted. rewrite (parseQuoted_agrees_without_octal _ Hno), Hspec.
  reflexivity.
Qed.

(** C8. The literal made of [\101], a backslash and a double quote has no
    unescaped closing quote: after the octal escape comes an escaped quote,
    and the line ends; the
    specification's decoder reports the end of the line.  In main.go the
    inner loop leaves [i] on the second backslash, the outer [i++] steps
    over it, and the quote is taken for the closing one: the line scans, and
    the message [A] is added to the record.  The unclosed literal of the
    specification's example is refused, with the line in the error. *)
Theorem escaped_quote_after_octal_closes_literal (fuel : nat) :
  let literal := str "\101\" ++ [dquote] in
  Spec.decode literal = Some EndOfLine
  /\ Main.parseQuoted literal = Ok ["A"%char]
  /\ Main.scan fuel initial_state [str "ER_X"; tab :: str "eng " ++ dquote :: literal]
     = Ok (mkState (str "eng") 1000 1 []
             [mkMysqlError (str "ER_X") 1000 [] []
                           [mkMessage (str "eng") ["A"%char]] false])
  /\ Main.scan fuel initial_state
               [str "ER_X"; tab :: str "eng " ++ dquote :: str "missing close quote"]
     = Err (Main.ParseQuote (tab :: str "eng " ++ dquote :: str "missing close quote")
                            Main.UnexpectedEOL).
Proof. cbv zeta. repeat split; vm_compute; reflexivity. Qed.

(** ** Further properties of main.go *)

Lemma Main_scan_line_continuation (fuel : nat) (st : scan_state) (line : gostring)
      (before : list mysqlError) (e : mysqlError) (text : gostring) :
  classify line = KContinuation ->
  HasPrefix (snd (split_continuation line)) [dquote] = true ->
  Main.parseQuoted (slice_from (snd (split_continuation line)) 1) = Ok text ->
  errs st = before ++ [e] ->
  Main.scan_line fuel st line
  = Ok (mkState (defaultLanguage st) (errorCodeOffset st) (rCount st) (languages st)
          (before ++
           [mkMysqlError (name e) (code e) (sqlState e) (odbcState e)
              (messages e ++ [mkMessage (fst (split_continuation line)) text])
              (obsolete e)])).
Proof.
  unfold classify, Main.scan_line. intros Hk Hq Hp Herrs.
  destruct (HasPrefix line (str "language")); [discriminate|].
  destruct (HasPrefix line (str "start-error-number")); [discriminate|].
  destruct (HasPrefix line (str "default-language")); [discriminate|].
  destruct (continuation_prefix line).
  - destruct (split_continuation line) as [lang lit]. cbn [fst snd] in *.
    rewrite Hq, Hp. cbn [negb]. unfold append_message.
    rewrite Herrs, rev_unit, rev_involutive. reflexivity.
  - destruct (header_prefix line); [discriminate|].
    destruct (_ || _); [discriminate|].
    destruct (HasPrefix line _); discriminate.
Qed.

(** A well-formed continuation line adds its message to the last record and
    leaves the records before it alone. *)
Lemma Main_continuation_appends (fuel : nat) (st : scan_state) (line : gostring)
      (before : list mysqlError) (e : mysqlError) (text : gostring) :
  classify line = KContinuation ->
  HasPrefix (snd (split_continuation line)) [dquote] = true ->
  Main.parseQuoted (slice_from (snd (split_continuation line)) 1) = Ok text ->
  errs st = before ++ [e] ->
  Main.scan_line fuel st line
  = Ok (mkState (defaultLanguage st) (errorCodeOffset st) (rCount st) (languages st)
          (before ++
           [mkMysqlError (name e) (code e) (sqlState e) (odbcState e)
              (messages e ++ [mkMessage (fst (split_continuation line)) text])
              (obsolete e)])).
Proof.
  intros Hk Hq Hp Herrs.
  exact (Main_scan_line_continuation fuel st line before e text Hk Hq Hp Herrs).
Qed.

Lemma Main_continuation_appends_witness :
  Main.scan_line 0
    (mkState (str "eng") 1000 2 []
       [mkMysqlError (str "ER_W") 1000 [] [] [] false;
        mkMysqlError (str "ER_X") 1001 [] [] [] false])
    (tab :: str "foo " ++ dquote :: str "hello" ++ [dquote])
  = Ok (mkState (str "eng") 1000 2 []
          [mkMysqlError (str "ER_W") 1000 [] [] [] false;
           mkMysqlError (str "ER_X") 1001 [] []
                        [mkMessage (str "foo") (str "hello")] false]).
Proof.
  exact (Main_continuation_appends 0
           (mkState (str "eng") 1000 2 []
              [mkMysqlError (str "ER_W") 1000 [] [] [] false;
               mkMysqlError (str "ER_X") 1001 [] [] [] false])
           (tab :: str "foo " ++ dquote :: str "hello" ++ [dquote])
           [mkMysqlError (str "ER_W") 1000 [] [] [] false]
           (mkMysqlError (str "ER_X") 1001 [] [] [] false) (str "hello")
           eq_refl eq_refl eq_refl eq_refl).
Defined.

Lemma Main_trailing_token_aborts_witness :
  (forall out,
      Main.run 0 (str "mysql")
               (unlines [str "ER_A"; str "start-error-number 1000 extra"; str "ER_B"]) None
      <> Ok out)
  /\ (forall st,
        Main.scan 0 initial_state [str "ER_A"] = Ok st ->
        Main.run 0 (str "mysql")
                 (unlines [str "ER_A"; str "start-error-number 1000 extra"; str "ER_B"]) None
        = Err (Main.InvalidFormat (str "start-error-number 1000 extra"))).
Proof.
  apply (Main_trailing_token_aborts 0 (str "mysql")
           (unlines [str "ER_A"; str "start-error-number 1000 extra"; str "ER_B"]) None
           [str "ER_A"] [str "ER_B"] (str " ") (str "1000") " "%char (str "extra"));
    first [reflexivity | discriminate].
Defined.

Lemma Main_obsolete_flag_witness :
  exists e,
    Main.scan_line 0 initial_state (str "OBSOLETE_WARN_X 42000")
    = Ok (mkState (str "eng") 1000 (int_add 0 1) [] ([] ++ [e]))
    /\ obsolete e = HasPrefix (name e) (str "OBSOLETE_")
    /\ obsolete e = (HasPrefix (str "OBSOLETE_WARN_X 42000") (str "OBSOLETE_ER_")
                     || HasPrefix (str "OBSOLETE_WARN_X 42000") (str "OBSOLETE_WARN_")).
Proof.
  apply (Main_obsolete_flag 0 initial_state (str "OBSOLETE_WARN_X 42000")). reflexivity.
Defined.

Lemma parseLanguage_returns_witness :
  exists ls,
    parseLanguage (S (length (str "languages czech=cze latin2, danish=dan latin1;")))
                  (str "languages czech=cze latin2, danish=dan latin1;") = Some ls.
Proof.
  apply (parseLanguage_returns (str "languages czech=cze latin2, danish=dan latin1;")).
  reflexivity.
Defined.

Lemma Main_unclosed_literal_without_octal_witness :
  Main.scan_line 0 initial_state (tab :: str "eng " ++ dquote :: str "missing close quote")
  = Err (Main.ParseQuote (tab :: str "eng " ++ dquote :: str "missing close quote")
                         Main.UnexpectedEOL).
Proof.
  apply (Main_unclosed_literal_without_octal 0 initial_state
           (tab :: str "eng " ++ dquote :: str "missing close quote"));
    vm_compute; reflexivity.
Defined.

(** ** The tokenizer, by its results *)

Lemma IndexAny_hit (s chars : gostring) :
  0 <= IndexAny s chars ->
  match drop (Z.to_nat (IndexAny s chars)) s with
  | d :: _ => mem d chars = true
  | [] => False
  end.
Proof.
  induction s as [|c s IH]; cbn [IndexAny]; [lia|].
  destruct (mem c chars) eqn:Hc; [intros _; exact Hc|].
  pose proof (IndexAny_bounds s chars) as Hb.
  destruct (Z.ltb_spec (IndexAny s chars) 0) as [Hneg|Hpos]; [lia|].
  intros _. rewrite Z2Nat.inj_add by lia. rewrite Nat.add_comm. simpl.
  apply IH, Hpos.
Qed.

(** [consumeWord] cuts the text in two: the word has no delimiter in it,
    and the rest is empty or starts with a delimiter. *)
Theorem consumeWord_cuts_at_first_delimiter (s : gostring) :
  fst (consumeWord s) ++ snd (consumeWord s) = s
  /\ free_of word_delims (fst (consumeWord s)) = true
  /\ match snd (consumeWord s) with
     | [] => True
     | d :: _ => mem d word_delims = true
     end.
Proof.
  split; [apply consumeWord_split|]. split; [apply consumeWord_fst_free|].
  unfold consumeWord, slice_from.
  destruct (Z.ltb_spec (IndexAny s word_delims) 0) as [Hneg|Hpos]; [exact I|].
  cbn [snd]. pose proof (IndexAny_hit s word_delims Hpos) as H.
  destruct (drop _ s); [exact I | exact H].
Qed.

Lemma TrimLeft_cut (s cutset : gostring) :
  exists p, s = p ++ TrimLeft s cutset /\ all_in cutset p = true.
Proof.
  induction s as [|c s IH]; [exists []; split; reflexivity|].
  cbn [TrimLeft]. destruct (mem c cutset) eqn:Hc.
  - destruct IH as (p & Hp & Hall). exists (c :: p). split.
    + simpl. f_equal. exact Hp.
    + simpl. rewrite Hc. exact Hall.
  - exists []. split; reflexivity.
Qed.

Lemma TrimLeft_fixed (s cutset : gostring) :
  match s with [] => True | c :: _ => mem c cutset = false end ->
  TrimLeft s cutset = s.
Proof. destruct s as [|c s]; [reflexivity|]. simpl. intros ->. reflexivity. Qed.

(** [trimDelimiters] takes a run of blanks, commas and equals signs off the
    front and nothing else; what is left does not start with one of them,
    and trimming again changes nothing. *)
Theorem trimDelimiters_strips_leading_run (s : gostring) :
  (exists p, s = p ++ trimDelimiters s /\ all_in trim_delims p = true)
  /\ match trimDelimiters s with
     | [] => True
     | c :: _ => mem c trim_delims = false
     end
  /\ trimDelimiters (trimDelimiters s) = trimDelimiters s.
Proof.
  unfold trimDelimiters. split; [apply TrimLeft_cut|].
  split; [apply TrimLeft_trimmed|]. apply TrimLeft_fixed, TrimLeft_trimmed.
Qed.

(** ** Lines that leave the catalog alone *)

Lemma Main_scan_line_ignored (fuel : nat) (st : scan_state) (line : gostring) :
  is_ignored line = true -> Main.scan_line fuel st line = Ok st.
Proof.
  unfold is_ignored, classify, Main.scan_line.
  destruct (HasPrefix line (str "language")); [discriminate|].
  destruct (HasPrefix line (str "start-error-number")); [discriminate|].
  destruct (HasPrefix line (str "default-language")); [discriminate|].
  destruct (continuation_prefix line); [discriminate|].
  destruct (header_prefix line); [discriminate|].
  destruct (_ || _); [reflexivity|].
  destruct (HasPrefix line _); [reflexivity|discriminate].
Qed.

Lemma Legacy_scan_line_ignored (fuel : nat) (st : scan_state) (line : gostring) :
  is_ignored line = true -> Legacy.scan_line fuel st line = Ok st.
Proof.
  unfold is_ignored, classify, Legacy.scan_line.
  destruct (HasPrefix line (str "language")); [discriminate|].
  destruct (HasPrefix line (str "start-error-number")); [discriminate|].
  destruct (HasPrefix line (str "default-language")); [discriminate|].
  destruct (continuation_prefix line); [discriminate|].
  destruct (header_prefix line); [discriminate|].
  destruct (_ || _); [reflexivity|].
  destruct (HasPrefix line _); [reflexivity|discriminate].
Qed.

(** Comments, empty lines and the reserved section marker can be taken out
    of an input, or put into it, anywhere: the scan of either copy of the
    program ends the same way. *)
Theorem ignored_lines_are_transparent (fuel : nat) (st : scan_state)
        (lines : list gostring) :
  Main.scan fuel st (List.filter (fun l => negb (is_ignored l)) lines)
  = Main.scan fuel st lines
  /\ Legacy.scan fuel st (List.filter (fun l => negb (is_ignored l)) lines)
     = Legacy.scan fuel st lines.
Proof.
  split; revert st; induction lines as [|l lines IH]; intros st; try reflexivity;
    cbn [List.filter]; destruct (is_ignored l) eqn:Hl; cbn [negb].
  - cbn [Main.scan]. rewrite (Main_scan_line_ignored fuel st l Hl). apply IH.
  - cbn [Main.scan]. destruct (Main.scan_line fuel st l); cbn [bind]; auto.
  - cbn [Legacy.scan]. rewrite (Legacy_scan_line_ignored fuel st l Hl). apply IH.
  - cbn [Legacy.scan]. destruct (Legacy.scan_line fuel st l); cbn [bind]; auto.
Qed.

Lemma TrimLeft_all (s cutset : gostring) :
  all_in cutset s = true -> TrimLeft s cutset = [].
Proof.
  induction s as [|c s IH]; intros H; [reflexivity|].
  simpl in H. apply andb_true_iff in H as [Hc Hs]. simpl. rewrite Hc. exact (IH Hs).
Qed.

(** A line of blanks only is not an empty line: it goes to the
    continuation case, where no literal is found.  main.go returns the error
    [unexpected EOL] with the line; the second copy slices the empty rest at
    1 and panics. *)
Theorem blank_only_line_is_refused (fuel : nat) (st : scan_state) (line : gostring) :
  line <> [] -> all_in [" "%char; tab] line = true ->
  Main.scan_line fuel st line = Err (Main.UnexpectedEOLAt line)
  /\ Legacy.scan_line fuel st line = Panic (SliceOutOfRange 1 0).
Proof.
  intros Hne Hall.
  assert (split_continuation line = ([], [])) as Hsplit.
  { unfold split_continuation. rewrite (TrimLeft_all line _ Hall). reflexivity. }
  destruct line as [|c line]; [congruence|].
  assert (c = " "%char \/ c = tab) as Hc.
  { simpl in Hall. apply andb_true_iff in Hall as [Hc _].
    unfold mem in Hc. simpl in Hc. rewrite orb_false_r in Hc.
    apply orb_true_iff in Hc as [Hc|Hc]; apply Ascii.eqb_eq in Hc; auto. }
  unfold Main.scan_line, Legacy.scan_line.
  destruct Hc as [-> | ->];
    (replace (HasPrefix (_ :: line) (str "language")) with false by reflexivity;
     replace (HasPrefix (_ :: line) (str "start-error-number")) with false by reflexivity;
     replace (HasPrefix (_ :: line) (str "default-language")) with false by reflexivity;
     replace (continuation_prefix (_ :: line)) with true by reflexivity;
     rewrite Hsplit; split; reflexivity).
Qed.

Lemma blank_only_line_is_refused_witness :
  Main.scan_line 0 initial_state [" "%char; tab; " "%char]
  = Err (Main.UnexpectedEOLAt [" "%char; tab; " "%char])
  /\ Legacy.scan_line 0 initial_state [" "%char; tab; " "%char]
     = Panic (SliceOutOfRange 1 0).
Proof.
  apply (blank_only_line_is_refused 0 initial_state [" "%char; tab; " "%char]).
  - discriminate.
  - reflexivity.
Defined.

(** ** The first line that is refused *)

Lemma Main_scan_line_unknown (fuel : nat) (st : scan_state) (line : gostring) :
  classify line = KUnknown -> Main.scan_line fuel st line = Err (Main.UnknownFormat line).
Proof.
  unfold classify, Main.scan_line.
  destruct (HasPrefix line (str "language")); [discriminate|].
  destruct (HasPrefix line (str "start-error-number")); [discriminate|].
  destruct (HasPrefix line (str "default-language")); [discriminate|].
  destruct (continuation_prefix line); [discriminate|].
  destruct (header_prefix line); [discriminate|].
  destruct (_ || _); [discriminate|].
  destruct (HasPrefix line _); [discriminate|reflexivity].
Qed.

(** main.go stops at the first line it refuses: [run] returns that line's
    error whatever follows the line and whether or not a previous
    [constants.go] is there, which it has not read yet.  A line of none of
    the kinds of the switch is refused with [unknown format] and the
    line. *)
Theorem Main_first_refused_line_aborts (fuel : nat) (pkg input : gostring)
        (prior : option gostring) (before after : list gostring) (line : gostring)
        (st : scan_state) :
  scan_lines input = before ++ line :: after ->
  Main.scan fuel initial_state before = Ok st ->
  (forall e, Main.scan_line fuel st line = Err e -> Main.run fuel pkg input prior = Err e)
  /\ (classify line = KUnknown ->
      Main.run fuel pkg input prior = Err (Main.UnknownFormat line)).
Proof.
  intros Hin Hbefore.
  assert (forall e, Main.scan_line fuel st line = Err e ->
                    Main.run fuel pkg input prior = Err e) as H.
  { intros e He. unfold Main.run. rewrite Hin, Main_scan_app, Hbefore.
    cbn [bind Main.scan]. rewrite He. reflexivity. }
  split; [exact H|]. intros Hk. apply H, Main_scan_line_unknown, Hk.
Qed.

Lemma Main_first_refused_line_aborts_witness :
  (forall e,
      Main.scan_line 0 (mkState (str "eng") 1000 1 []
                          [mkMysqlError (str "ER_A") 1000 [] [] [] false])
                     (str "bogus line") = Err e ->
      Main.run 0 (str "mysql") (unlines [str "ER_A"; str "bogus line"; str "ER_B"])
               (Some (str "const X")) = Err e)
  /\ (classify (str "bogus line") = KUnknown ->
      Main.run 0 (str "mysql") (unlines [str "ER_A"; str "bogus line"; str "ER_B"])
               (Some (str "const X")) = Err (Main.UnknownFormat (str "bogus line"))).
Proof.
  apply (Main_first_refused_line_aborts 0 (str "mysql")
           (unlines [str "ER_A"; str "bogus line"; str "ER_B"]) (Some (str "const X"))
           [str "ER_A"] [str "ER_B"] (str "bogus line")); reflexivity.
Defined.

(** ** The default-language declaration *)

(** main.go takes the token after the keyword as the default language and
    refuses the line when anything follows the token; the second copy takes
    the token and lets the rest pass. *)
Theorem default_language_declaration (fuel : nat) (st : scan_state)
        (sep tok rest : gostring) :
  all_in trim_delims sep = true -> sep <> [] -> is_word tok = true ->
  match rest with [] => True | d :: _ => mem d word_delims = true end ->
  let line := str "default-language" ++ sep ++ tok ++ rest in
  Main.scan_line fuel st line
  = (if is_empty rest
     then Ok (mkState tok (errorCodeOffset st) (rCount st) (languages st) (errs st))
     else Err (Main.InvalidFormat line))
  /\ Legacy.scan_line fuel st line
     = Ok (mkState tok (errorCodeOffset st) (rCount st) (languages st) (errs st)).
Proof.
  intros Hsep Hne Htok Hrest line.
  unfold is_word in Htok. apply andb_true_iff in Htok as [Htne Hfree].
  assert (tok <> []) as Htne' by (destruct tok; [discriminate|congruence]).
  destruct (directive_tokens (str "default-language") sep tok rest) as (H1 & H2 & H3);
    try assumption; try reflexivity.
  unfold Main.scan_line, Legacy.scan_line. subst line.
  replace (HasPrefix (str "default-language" ++ sep ++ tok ++ rest) (str "language"))
    with false by reflexivity.
  replace (HasPrefix (str "default-language" ++ sep ++ tok ++ rest)
                     (str "start-error-number")) with false by reflexivity.
  rewrite HasPrefix_app, H1, H2, H3.
  split; [destruct rest|]; reflexivity.
Qed.

Lemma default_language_declaration_witness :
  Main.scan_line 0 initial_state (str "default-language eng")
  = Ok (mkState (str "eng") 1000 0 [] [])
  /\ Legacy.scan_line 0 initial_state (str "default-language eng")
     = Ok (mkState (str "eng") 1000 0 [] []).
Proof.
  apply (default_language_declaration 0 initial_state (str " ") (str "eng") []);
    first [reflexivity | discriminate | exact I].
Defined.

(** ** Language declarations and the catalog *)

Lemma Main_scan_line_same_catalog (fuel : nat) (a b a' : scan_state) (line : gostring) :
  same_catalog a b -> Main.scan_line fuel a line = Ok a' ->
  if is_language_decl line then same_catalog a' b
  else exists b', Main.scan_line fuel b line = Ok b' /\ same_catalog a' b'.
Proof.
  destruct a as [dla offa rca la ea], b as [dlb offb rcb lb eb].
  unfold same_catalog. cbn [errorCodeOffset rCount errs]. intros (-> & -> & ->).
  unfold is_language_decl, classify, Main.scan_line.
  cbn [defaultLanguage errorCodeOffset rCount languages errs].
  destruct (HasPrefix line (str "language")).
  { destruct (parseLanguage fuel line); [|discriminate]. intros [= <-]. simpl. auto. }
  destruct (HasPrefix line (str "start-error-number")).
  { destruct (consumeWord line) as [kw l1].
    destruct (consumeWord (trimDelimiters l1)) as [offsetStr rest].
    destruct (negb (is_empty rest)); [discriminate|].
    intros [= <-]. eexists. split; [reflexivity|]. simpl. auto. }
  destruct (HasPrefix line (str "default-language")).
  { destruct (consumeWord line) as [kw l1].
    destruct (consumeWord (trimDelimiters l1)) as [shortName rest].
    destruct (negb (is_empty rest)); [discriminate|].
    intros [= <-]. simpl. auto. }
  destruct (continuation_prefix line).
  { destruct (split_continuation line) as [lang lit].
    destruct (negb (HasPrefix lit [dquote])); [discriminate|].
    destruct (Main.parseQuoted (slice_from lit 1)); try discriminate.
    destruct (append_message eb _) as [errs'|]; [|discriminate].
    intros [= <-]. eexists. split; [reflexivity|]. simpl. auto. }
  destruct (header_prefix line).
  { destruct (consumeWord line) as [errorName l1].
    destruct (consumeWord (trimDelimiters l1)) as [sqlSt l2].
    destruct (consumeWord (trimDelimiters l2)) as [odbcSt l3].
    intros [= <-]. eexists. split; [reflexivity|]. simpl. auto. }
  destruct (_ || _).
  { intros [= <-]. eexists. split; [reflexivity|]. simpl. auto. }
  destruct (HasPrefix line _); [|discriminate].
  intros [= <-]. eexists. split; [reflexivity|]. simpl. auto.
Qed.

Lemma Main_scan_same_catalog (fuel : nat) (lines : list gostring) :
  forall a b a',
    same_catalog a b -> Main.scan fuel a lines = Ok a' ->
    exists b',
      Main.scan fuel b (List.filter (fun l => negb (is_language_decl l)) lines) = Ok b'
      /\ same_catalog a' b'.
Proof.
  induction lines as [|l lines IH]; intros a b a' Hab Hscan; cbn [Main.scan] in Hscan.
  - injection Hscan as <-. exists b. split; [reflexivity | exact Hab].
  - destruct (Main.scan_line fuel a l) as [a1| | |] eqn:Hline; try discriminate.
    cbn [bind] in Hscan.
    pose proof (Main_scan_line_same_catalog fuel a b a1 l Hab Hline) as Hstep.
    cbn [List.filter]. destruct (is_language_decl l); cbn [negb].
    + apply (IH a1 b a' Hstep Hscan).
    + destruct Hstep as (b1 & Hb1 & Hab1). cbn [Main.scan]. rewrite Hb1. cbn [bind].
      apply (IH a1 b1 a' Hab1 Hscan).
Qed.

(** The language and default-language lines of an input main.go accepts
    have no part in what is generated: without them the scan ends with the
    same offset, count and catalog, and the generator writes the same
    file. *)
Theorem language_lines_leave_catalog_alone (fuel : nat) (st st' : scan_state)
        (lines : list gostring) :
  Main.scan fuel st lines = Ok st' ->
  exists st'',
    Main.scan fuel st (List.filter (fun l => negb (is_language_decl l)) lines) = Ok st''
    /\ same_catalog st' st''
    /\ forall pkg cs, Main.generate pkg cs (errs st'') = Main.generate pkg cs (errs st').
Proof.
  intros Hscan.
  destruct (Main_scan_same_catalog fuel lines st st st') as (st'' & H1 & H2);
    [repeat split | exact Hscan |].
  exists st''. split; [exact H1|]. split; [exact H2|].
  intros pkg cs. destruct H2 as (_ & _ & ->). reflexivity.
Qed.

Lemma language_lines_leave_catalog_alone_witness :
  exists st'',
    Main.scan 9 initial_state
      (List.filter (fun l => negb (is_language_decl l))
                   [str "languages czech=cze latin2;"; str "default-language cze";
                    str "ER_A 42000"]) = Ok st''
    /\ same_catalog (mkState (str "cze") 1000 1
                       [mkLanguage (str "czech") (str "cze") (str "latin2;")]
                       [mkMysqlError (str "ER_A") 1000 (str "42000") [] [] false]) st''
    /\ forall pkg cs,
         Main.generate pkg cs (errs st'')
         = Main.generate pkg cs
             (errs (mkState (str "cze") 1000 1
                      [mkLanguage (str "czech") (str "cze") (str "latin2;")]
                      [mkMysqlError (str "ER_A") 1000 (str "42000") [] [] false])).
Proof.
  apply (language_lines_leave_catalog_alone 9 initial_state _
           [str "languages czech=cze latin2;"; str "default-language cze";
            str "ER_A 42000"]).
  vm_compute. reflexivity.
Defined.

(** ** The second copy on the inputs main.go accepts *)

Lemma append_message_related (ea eb ea' : list mysqlError) (m : message) :
  Forall2 same_but_flag ea eb -> append_message ea m = Some ea' ->
  exists eb', append_message eb m = Some eb' /\ Forall2 same_but_flag ea' eb'.
Proof.
  unfold append_message. intros Hrel H.
  destruct (rev ea) as [|e before] eqn:Hrev; [discriminate|].
  injection H as <-.
  assert (ea = rev before ++ [e]) as Hea
    by (rewrite <- (rev_involutive ea), Hrev; reflexivity).
  rewrite Hea in Hrel. apply List.Forall2_app_inv_l in Hrel as (l1 & l2 & H1 & H2 & ->).
  inversion H2 as [|? e2 ? ? He Hnil]; subst. inversion Hnil; subst.
  rewrite rev_unit. eexists. split; [reflexivity|].
  rewrite rev_involutive. apply List.Forall2_app; [exact H1|].
  constructor; [|constructor].
  destruct He as (Hn & Hc & Hs & Ho & Hm). unfold same_but_flag. simpl.
  rewrite Hn, Hc, Hs, Ho, Hm. auto.
Qed.

Lemma legacy_follows_main_line (fuel : nat) (a b a' : scan_state) (line : gostring) :
  same_but_flags a b -> Main.scan_line fuel a line = Ok a' ->
  exists b', Legacy.scan_line fuel b line = Ok b' /\ same_but_flags a' b'.
Proof.
  destruct a as [dla offa rca la ea], b as [dlb offb rcb lb eb].
  unfold same_but_flags. cbn [defaultLanguage errorCodeOffset rCount languages errs].
  intros (-> & -> & -> & -> & Herrs).
  unfold Main.scan_line, Legacy.scan_line.
  cbn [defaultLanguage errorCodeOffset rCount languages errs].
  destruct (HasPrefix line (str "language")).
  { destruct (parseLanguage fuel line); [|discriminate]. intros [= <-].
    eexists. split; [reflexivity|]. simpl. auto. }
  destruct (HasPrefix line (str "start-error-number")).
  { destruct (consumeWord line) as [kw l1].
    destruct (consumeWord (trimDelimiters l1)) as [offsetStr rest].
    destruct (negb (is_empty rest)); [discriminate|]. intros [= <-].
    eexists. split; [reflexivity|]. simpl. auto. }
  destruct (HasPrefix line (str "default-language")).
  { destruct (consumeWord line) as [kw l1].
    destruct (consumeWord (trimDelimiters l1)) as [shortName rest].
    destruct (negb (is_empty rest)); [discriminate|]. intros [= <-].
    eexists. split; [reflexivity|]. simpl. auto. }
  destruct (continuation_prefix line).
  { destruct (split_continuation line) as [lang lit].
    destruct (HasPrefix lit [dquote]) eqn:Hq; [|discriminate]. cbn [negb].
    destruct lit as [|c lit]; [discriminate|].
    destruct (Z.ltb_spec (len (c :: lit)) 1) as [Hlen|_];
      [unfold len in Hlen; simpl length in Hlen; lia|].
    unfold Main.parseQuoted, Legacy.parseQuoted.
    destruct (parseQuoted_run (slice_from (c :: lit) 1)) as [[t|]|]; try discriminate.
    destruct (append_message ea _) as [ea'|] eqn:Happ; [|discriminate].
    intros [= <-].
    destruct (append_message_related ea eb ea' _ Herrs Happ) as (eb' & -> & Hrel).
    eexists. split; [reflexivity|]. simpl. auto. }
  destruct (header_prefix line).
  { destruct (consumeWord line) as [errorName l1].
    destruct (consumeWord (trimDelimiters l1)) as [sqlSt l2].
    destruct (consumeWord (trimDelimiters l2)) as [odbcSt l3].
    intros [= <-]. eexists. split; [reflexivity|]. simpl.
    repeat split; try reflexivity. apply List.Forall2_app; [exact Herrs|].
    constructor; [|constructor]. unfold same_but_flag. simpl. auto. }
  destruct (_ || _).
  { intros [= <-]. eexists. split; [reflexivity|]. simpl. auto. }
  destruct (HasPrefix line _); [|discriminate].
  intros [= <-]. eexists. split; [reflexivity|]. simpl. auto.
Qed.

Lemma legacy_follows_main_scan (fuel : nat) (lines : list gostring) :
  forall a b a',
    same_but_flags a b -> Main.scan fuel a lines = Ok a' ->
    exists b', Legacy.scan fuel b lines = Ok b' /\ same_but_flags a' b'.
Proof.
  induction lines as [|l lines IH]; intros a b a' Hab Hscan; cbn [Main.scan] in Hscan.
  - injection Hscan as <-. exists b. split; [reflexivity | exact Hab].
  - destruct (Main.scan_line fuel a l) as [a1| | |] eqn:Hline; try discriminate.
    cbn [bind] in Hscan.
    destruct (legacy_follows_main_line fuel a b a1 l Hab Hline) as (b1 & Hb1 & Hab1).
    cbn [Legacy.scan]. rewrite Hb1. cbn [bind]. apply (IH a1 b1 a' Hab1 Hscan).
Qed.

Lemma same_declarations (ea eb : list mysqlError) :
  Forall2 same_but_flag ea eb ->
  concat (map (Main.emit_error Main.no_constants) ea)
  = concat (map (fun e => Main.const_decl (name e) (code e)) eb).
Proof.
  induction 1 as [|a b ea eb (Hn & Hc & _) _ IH]; [reflexivity|].
  cbn [map concat]. rewrite IH.
  change (Main.emit_error Main.no_constants a) with (Main.const_decl (name a) (code a)).
  rewrite Hn, Hc. reflexivity.
Qed.

(** On every input from which main.go generates a first [constants.go],
    the second copy of the program generates a file too, with the same
    marker, package clause and constant declarations: the two files differ
    in the license text only. *)
Theorem legacy_writes_the_same_constants (fuel : nat) (pkg input out : gostring) :
  Main.run fuel pkg input None = Ok out ->
  exists consts,
    out = Sprintln [str "// Code generated mysqlerrgen DO NOT EDIT."]
          ++ Main.writeLicense ++ Sprintln [str "package"; pkg] ++ consts
    /\ Legacy.run fuel pkg input
       = Ok (Sprintln [str "// Code generated mysqlerrgen DO NOT EDIT."]
             ++ Legacy.writeLicense ++ Sprintln [str "package"; pkg] ++ consts).
Proof.
  unfold Main.run, Legacy.run. intros H.
  destruct (Main.scan fuel initial_state (scan_lines input)) as [st| | |] eqn:Hscan;
    try discriminate.
  cbn [bind] in H. injection H as <-.
  destruct (legacy_follows_main_scan fuel (scan_lines input)
              initial_state initial_state st)
    as (st2 & -> & (_ & _ & _ & _ & Herrs)); [|exact Hscan|].
  { unfold same_but_flags. repeat split; constructor. }
  exists (concat (map (fun e => Main.const_decl (name e) (code e)) (errs st2))).
  cbn [bind]. unfold Main.generate, Main.preamble, Legacy.generate.
  rewrite (same_declarations _ _ Herrs), <- !app_assoc. split; reflexivity.
Qed.

Lemma legacy_writes_the_same_constants_witness :
  exists consts,
    Main.generate (str "mysql") Main.no_constants
      [mkMysqlError (str "OBSOLETE_WARN_A") 1000 (str "42000") [] [] true;
       mkMysqlError (str "ER_B") 1001 [] [] [] false]
    = Sprintln [str "// Code generated mysqlerrgen DO NOT EDIT."]
      ++ Main.writeLicense ++ Sprintln [str "package"; str "mysql"] ++ consts
    /\ Legacy.run 0 (str "mysql") (unlines [str "OBSOLETE_WARN_A 42000"; str "ER_B"])
       = Ok (Sprintln [str "// Code generated mysqlerrgen DO NOT EDIT."]
             ++ Legacy.writeLicense ++ Sprintln [str "package"; str "mysql"] ++ consts).
Proof.
  apply (legacy_writes_the_same_constants 0 (str "mysql")
           (unlines [str "OBSOLETE_WARN_A 42000"; str "ER_B"])).
  vm_compute. reflexivity.
Defined.

(** ** Literals that decode to a given text *)

Lemma byte_val_range (c : ascii) : 0 <= byte_val c < 256.
Proof.
  unfold byte_val. pose proof (N_ascii_bounded c). lia.
Qed.

Lemma byte_of_byte_val (c : ascii) : byte_of (byte_val c) = c.
Proof.
  unfold byte_of. rewrite Z.mod_small by apply byte_val_range.
  unfold byte_val. rewrite N2Z.id. apply ascii_N_embedding.
Qed.

Lemma byte_val_inj (c d : ascii) : byte_val c = byte_val d -> c = d.
Proof.
  intros H. rewrite <- (byte_of_byte_val c), <- (byte_of_byte_val d), H. reflexivity.
Qed.

Lemma encode_rune_ascii (c : ascii) : byte_val c < 128 -> encode_rune (byte_val c) = [c].
Proof.
  intros H. pose proof (byte_val_range c) as Hr. unfold encode_rune.
  destruct (Z.leb_spec 0 (byte_val c)); [|lia].
  destruct (Z.leb_spec (byte_val c) 127); [|lia].
  cbn [andb]. rewrite byte_of_byte_val. reflexivity.
Qed.

(** [[]rune(s)] on a text that starts with ASCII bytes: their values, then
    the runes of the rest. *)
Lemma runes_of_ascii_prefix (t : gostring) :
  forall (rest : gostring) (fuel : nat),
    is_ascii_text t = true -> (length (t ++ rest) <= fuel)%nat ->
    exists after, runes_of fuel (t ++ rest) = map byte_val t ++ after.
Proof.
  induction t as [|c t IH]; intros rest fuel Hascii Hfuel.
  - eexists. reflexivity.
  - simpl in Hascii. apply andb_true_iff in Hascii as [Hc Ht].
    destruct fuel as [|fuel]; [simpl in Hfuel; lia|].
    rewrite <- app_comm_cons. cbn [runes_of].
    unfold decoderune. cbn [map]. rewrite Hc. cbn [drop]. rewrite drop_0.
    destruct (IH rest fuel Ht) as [after Hafter]; [simpl in Hfuel; lia|].
    exists after. rewrite Hafter. reflexivity.
Qed.

Lemma index_in_range (before : list Z) (x : Z) (rest : list Z) :
  (Z.of_nat (length before) <? rlen (before ++ x :: rest)) = true.
Proof.
  unfold rlen. rewrite length_app. simpl length. apply Z.ltb_lt. lia.
Qed.

Lemma next_index_in_range (before : list Z) (x y : Z) (rest : list Z) :
  (Z.of_nat (length before) + 1 <? rlen (before ++ x :: y :: rest)) = true.
Proof.
  unfold rlen. rewrite length_app. simpl length. apply Z.ltb_lt. lia.
Qed.

Lemma rune_at_next (before : list Z) (x y : Z) (rest : list Z) :
  rune_at (before ++ x :: y :: rest) (Z.of_nat (length before) + 1) = y.
Proof.
  replace (before ++ x :: y :: rest) with ((before ++ [x]) ++ y :: rest)
    by (rewrite <- app_assoc; reflexivity).
  replace (Z.of_nat (length before) + 1) with (Z.of_nat (length (before ++ [x])))
    by (rewrite length_app; simpl; lia).
  apply rune_at_middle.
Qed.

(** One pass of the loop on a rune that is neither the quote nor the
    backslash, and on a backslash followed by a rune that is neither [n]
    nor an octal digit. *)
Lemma parseQuoted_loop_plain (fuel : nat) (before : list Z) (x : Z) (rest : list Z)
      (b : gostring) :
  x <> 34 -> x <> 92 ->
  parseQuoted_loop (S fuel) (before ++ x :: rest) (Z.of_nat (length before)) b
  = parseQuoted_loop fuel ((before ++ [x]) ++ rest)
                     (Z.of_nat (length (before ++ [x]))) (b ++ encode_rune x).
Proof.
  intros H34 H92. cbn [parseQuoted_loop].
  rewrite index_in_range, rune_at_middle.
  destruct (Z.eqb_spec x 34); [congruence|].
  destruct (Z.eqb_spec x 92); [congruence|]. cbn [andb].
  rewrite <- app_assoc, length_app. simpl length. simpl app.
  f_equal. lia.
Qed.

Lemma parseQuoted_loop_escape (fuel : nat) (before : list Z) (y : Z) (rest : list Z)
      (b : gostring) :
  parseQuoted_loop (S fuel) (before ++ 92 :: y :: rest) (Z.of_nat (length before)) b
  = parseQuoted_loop fuel ((before ++ [92; y]) ++ rest)
                     (Z.of_nat (length (before ++ [92; y])))
                     (b ++ (if y =? 110 then [lf]
                            else if (48 <=? y) && (y <=? 55) then [] else encode_rune y))
  \/ (48 <=? y) && (y <=? 55) = true.
Proof.
  destruct ((48 <=? y) && (y <=? 55)) eqn:Hoct; [right; reflexivity|left].
  cbn [parseQuoted_loop].
  rewrite index_in_range, rune_at_middle, next_index_in_range, rune_at_next.
  cbn [Z.eqb Pos.eqb andb]. rewrite Hoct.
  rewrite <- app_assoc, length_app. simpl length. simpl app.
  replace (Z.of_nat (length before) + 1 + 1) with (Z.of_nat (length before + 2)) by lia.
  destruct (y =? 110); reflexivity.
Qed.

Lemma parseQuoted_loop_escaped (t : gostring) :
  forall (fuel : nat) (before after : list Z) (b : gostring),
    is_ascii_text t = true -> (length (escape_text t) < fuel)%nat ->
    parseQuoted_loop fuel (before ++ map byte_val (escape_text t) ++ 34 :: after)
                     (Z.of_nat (length before)) b
    = Some (Closed (b ++ t)).
Proof.
  induction t as [|c t IH]; intros fuel before after b Hascii Hfuel.
  - destruct fuel as [|fuel]; [lia|]. cbn [escape_text flat_map map app parseQuoted_loop].
    rewrite index_in_range, rune_at_middle, app_nil_r. reflexivity.
  - simpl in Hascii. apply andb_true_iff in Hascii as [Hc Ht]. apply Z.ltb_lt in Hc.
    destruct fuel as [|fuel]; [lia|].
    change (escape_text (c :: t)) with (escape_byte c ++ escape_text t) in *.
    rewrite length_app in Hfuel. rewrite map_app, <- app_assoc.
    assert (forall (x : ascii) (y : Z) (out : gostring),
               escape_byte c = [backslash; x] -> byte_val x = y ->
               (48 <=? y) && (y <=? 55) = false ->
               (if y =? 110 then [lf] else encode_rune y) = out -> out = [c] ->
               parseQuoted_loop (S fuel)
                 (before ++ map byte_val (escape_byte c)
                         ++ map byte_val (escape_text t) ++ 34 :: after)
                 (Z.of_nat (length before)) b
               = Some (Closed (b ++ c :: t))) as Hesc.
    { intros x y out Hx Hy Hoct Hout Hc'. rewrite Hx in *. cbn [map app].
      change (byte_val backslash) with 92. rewrite Hy.
      destruct (parseQuoted_loop_escape fuel before y
                  (map byte_val (escape_text t) ++ 34 :: after) b) as [->|Hbad];
        [|congruence].
      rewrite Hoct. replace (if y =? 110 then [lf] else encode_rune y) with [c]
        by congruence.
      rewrite IH by (try assumption; simpl in Hfuel; lia).
      rewrite <- app_assoc. reflexivity. }
    unfold escape_byte in *.
    destruct (Ascii.eqb c dquote) eqn:E1.
    { apply Ascii.eqb_eq in E1. subst c.
      apply (Hesc dquote 34 [dquote]); reflexivity. }
    destruct (Ascii.eqb c backslash) eqn:E2.
    { apply Ascii.eqb_eq in E2. subst c.
      apply (Hesc backslash 92 [backslash]); reflexivity. }
    destruct (Ascii.eqb c lf) eqn:E3.
    { apply Ascii.eqb_eq in E3. subst c.
      apply (Hesc "n"%char 110 [lf]); reflexivity. }
    clear Hesc. cbn [map app].
    rewrite parseQuoted_loop_plain.
    + rewrite IH by (try assumption; simpl in Hfuel; lia).
      rewrite (encode_rune_ascii c Hc), <- app_assoc. reflexivity.
    + intros H. apply (byte_val_inj c dquote) in H. subst c. discriminate E1.
    + intros H. apply (byte_val_inj c backslash) in H. subst c. discriminate E2.
Qed.

Lemma escape_text_ascii (t : gostring) :
  is_ascii_text t = true -> is_ascii_text (escape_text t) = true.
Proof.
  induction t as [|c t IH]; intros H; [reflexivity|].
  simpl in H. apply andb_true_iff in H as [Hc Ht].
  change (escape_text (c :: t)) with (escape_byte c ++ escape_text t).
  unfold is_ascii_text in *. rewrite forallb_app, (IH Ht), andb_true_r.
  unfold escape_byte.
  destruct (Ascii.eqb c dquote); [reflexivity|].
  destruct (Ascii.eqb c backslash); [reflexivity|].
  destruct (Ascii.eqb c lf); [reflexivity|]. simpl. rewrite Hc. reflexivity.
Qed.

Lemma parseQuoted_run_escaped (t rest : gostring) :
  is_ascii_text t = true ->
  parseQuoted_run (escape_text t ++ dquote :: rest) = Some (Closed t).
Proof.
  intros Ht. unfold parseQuoted_run, to_runes.
  destruct (runes_of_ascii_prefix (escape_text t ++ [dquote]) rest
              (length (escape_text t ++ dquote :: rest))) as [after Hafter].
  - unfold is_ascii_text in *. rewrite forallb_app.
    fold (is_ascii_text (escape_text t)). rewrite (escape_text_ascii t Ht). reflexivity.
  - rewrite <- app_assoc. reflexivity.
  - rewrite <- app_assoc in Hafter. cbn [app] in Hafter. rewrite Hafter.
    rewrite map_app, <- app_assoc. cbn [map app]. change (byte_val dquote) with 34.
    apply (parseQuoted_loop_escaped t _ [] after [] Ht).
    rewrite length_app, length_map. lia.
Qed.

(** Every ASCII text has a literal: written with a backslash before each
    double quote and backslash and with [\n] for each newline, and closed by
    a double quote, it decodes to the text, in both copies of the program
    and whatever follows the closing quote on the line. *)
Theorem parseQuoted_reads_escaped_text (t rest : gostring) :
  is_ascii_text t = true ->
  Main.parseQuoted (escape_text t ++ dquote :: rest) = Ok t
  /\ Legacy.parseQuoted (escape_text t ++ dquote :: rest) = Ok t.
Proof.
  intros Ht. unfold Main.parseQuoted, Legacy.parseQuoted.
  rewrite (parseQuoted_run_escaped t rest Ht). split; reflexivity.
Qed.

Lemma parseQuoted_reads_escaped_text_witness :
  Main.parseQuoted (escape_text (str "say " ++ dquote :: str "hi" ++ dquote :: backslash
                                   :: lf :: str "1")
                    ++ dquote :: str " trailing")
  = Ok (str "say " ++ dquote :: str "hi" ++ dquote :: backslash :: lf :: str "1")
  /\ Legacy.parseQuoted (escape_text (str "say " ++ dquote :: str "hi" ++ dquote
                                        :: backslash :: lf :: str "1")
                         ++ dquote :: str " trailing")
     = Ok (str "say " ++ dquote :: str "hi" ++ dquote :: backslash :: lf :: str "1").
Proof.
  apply (parseQuoted_reads_escaped_text
           (str "say " ++ dquote :: str "hi" ++ dquote :: backslash :: lf :: str "1")
           (str " trailing")).
  reflexivity.
Defined.

(** ** Scanning the lines of a catalog *)

Lemma HasPrefix_app_l (s p x : gostring) :
  HasPrefix s p = true -> HasPrefix (s ++ x) p = true.
Proof.
  intros H. apply HasPrefix_split in H as [t ->].
  rewrite <- app_assoc. apply HasPrefix_app.
Qed.

Lemma header_prefix_app (s x : gostring) :
  header_prefix s = true -> header_prefix (s ++ x) = true.
Proof.
  unfold header_prefix. intros H.
  repeat (apply orb_true_iff in H as [H|H]);
    rewrite (HasPrefix_app_l _ _ x H); rewrite ?orb_true_r; reflexivity.
Qed.

Lemma header_prefix_is_header (line : gostring) :
  header_prefix line = true -> is_header line = true.
Proof.
  unfold header_prefix. intros H.
  apply orb_true_iff in H as [H|H]; [apply orb_true_iff in H as [H|H];
    [apply orb_true_iff in H as [H|H]|]|];
    apply HasPrefix_split in H as [t ->]; reflexivity.
Qed.

Lemma Main_scan_line_header_fields (fuel : nat) (st : scan_state) (line : gostring) :
  is_header line = true ->
  Main.scan_line fuel st line
  = let l1 := trimDelimiters (snd (consumeWord line)) in
    let l2 := trimDelimiters (snd (consumeWord l1)) in
    Ok (mkState (defaultLanguage st) (errorCodeOffset st) (int_add (rCount st) 1)
                (languages st)
                (errs st ++
                 [mkMysqlError (fst (consumeWord line))
                               (int_add (errorCodeOffset st) (rCount st))
                               (fst (consumeWord l1)) (fst (consumeWord l2)) []
                               (HasPrefix (fst (consumeWord line)) (str "OBSOLETE_"))])).
Proof.
  unfold is_header, classify, Main.scan_line. intros H.
  destruct (HasPrefix line (str "language")); [discriminate|].
  destruct (HasPrefix line (str "start-error-number")); [discriminate|].
  destruct (HasPrefix line (str "default-language")); [discriminate|].
  destruct (continuation_prefix line); [discriminate|].
  destruct (header_prefix line); [|destruct (_ || _); [discriminate|];
    destruct (HasPrefix line _); discriminate].
  destruct (consumeWord line) as [errorName l1]. cbn [fst snd].
  destruct (consumeWord (trimDelimiters l1)) as [sqlSt l2]. cbn [fst snd].
  destruct (consumeWord (trimDelimiters l2)) as [odbcSt l3]. reflexivity.
Qed.

(** The three tokens of a header line written with single blanks. *)
Lemma header_line_tokens (e : mysqlError) :
  free_of word_delims (name e) = true ->
  free_of word_delims (sqlState e) = true ->
  free_of word_delims (odbcState e) = true ->
  negb (is_empty (sqlState e)) || is_empty (odbcState e) = true ->
  let l1 := trimDelimiters (snd (consumeWord (header_line e))) in
  let l2 := trimDelimiters (snd (consumeWord l1)) in
  fst (consumeWord (header_line e)) = name e
  /\ fst (consumeWord l1) = sqlState e
  /\ fst (consumeWord l2) = odbcState e.
Proof.
  intros Hn Hs Ho Hboth. cbv zeta. unfold header_line.
  rewrite (consumeWord_word (name e) " "%char _ Hn eq_refl). cbn [fst snd].
  split; [reflexivity|].
  assert (trimDelimiters (odbcState e) = odbcState e) as Hodbc.
  { apply TrimLeft_fixed. exact (word_head_not_trimmed _ Ho). }
  destruct (sqlState e) as [|c sql] eqn:Hsql.
  - simpl in Hboth. destruct (odbcState e); [|discriminate]. split; reflexivity.
  - assert (trimDelimiters (" "%char :: (c :: sql) ++ " "%char :: odbcState e)
            = (c :: sql) ++ " "%char :: odbcState e) as ->.
    { apply (TrimLeft_run [" "%char] trim_delims); [reflexivity|].
      exact (word_head_not_trimmed (c :: sql) Hs). }
    rewrite (consumeWord_word (c :: sql) " "%char _ Hs eq_refl). cbn [fst snd].
    split; [reflexivity|].
    assert (trimDelimiters (" "%char :: odbcState e) = odbcState e) as ->.
    { apply (TrimLeft_run [" "%char] trim_delims); [reflexivity|].
      exact (word_head_not_trimmed _ Ho). }
    rewrite (consumeWord_whole _ Ho). reflexivity.
Qed.

(** The language token and the literal of a continuation line written with
    a tab, the token, a blank and the quoted text. *)
Lemma message_line_parts (m : message) :
  message_ok m = true ->
  classify (message_line m) = KContinuation
  /\ split_continuation (message_line m)
     = (langShortName m, dquote :: escape_text (text m) ++ [dquote]).
Proof.
  unfold message_ok. intros H.
  apply andb_true_iff in H as [H _]. apply andb_true_iff in H as [Hne Hfree].
  split; [reflexivity|].
  unfold split_continuation, message_line.
  destruct (langShortName m) as [|c lang] eqn:Hlang; [discriminate|].
  assert (mem c [" "%char; tab] = false) as Hc
    by (apply free_of_cons in Hfree as [Hc _]; exact Hc).
  replace (TrimLeft (tab :: (c :: lang) ++ " "%char :: dquote :: escape_text (text m)
                         ++ [dquote]) [" "%char; tab])
    with ((c :: lang) ++ " "%char :: dquote :: escape_text (text m) ++ [dquote])
    by (cbn [TrimLeft app]; rewrite Hc; reflexivity).
  rewrite (IndexAny_word (c :: lang) [" "%char; tab] " "%char _ Hfree eq_refl).
  unfold len, slice_to, slice_from.
  destruct (Z.leb_spec 0 (Z.of_nat (length (c :: lang)))); [|lia].
  rewrite Nat2Z.id, take_app_length, drop_app_length. reflexivity.
Qed.

Lemma Main_scan_message_lines (fuel : nat) (ms : list message) :
  forall (st : scan_state) (before : list mysqlError) (e : mysqlError),
    errs st = before ++ [e] -> forallb message_ok ms = true ->
    Main.scan fuel st (map message_line ms)
    = Ok (mkState (defaultLanguage st) (errorCodeOffset st) (rCount st) (languages st)
            (before ++ [mkMysqlError (name e) (code e) (sqlState e) (odbcState e)
                                     (messages e ++ ms) (obsolete e)])).
Proof.
  induction ms as [|m ms IH]; intros st before e Herrs Hok.
  - destruct e, st. simpl in *. subst. rewrite app_nil_r. reflexivity.
  - simpl in Hok. apply andb_true_iff in Hok as [Hm Hms].
    destruct (message_line_parts m Hm) as [Hk Hsplit].
    pose proof Hm as Hm'. unfold message_ok in Hm'.
    apply andb_true_iff in Hm' as [_ Hascii].
    cbn [map Main.scan].
    rewrite (Main_scan_line_continuation fuel st (message_line m) before e (text m) Hk).
    + cbn [bind].
      rewrite (IH (mkState (defaultLanguage st) (errorCodeOffset st) (rCount st)
                     (languages st)
                     (before ++
                      [mkMysqlError (name e) (code e) (sqlState e) (odbcState e)
                         (messages e ++
                          [mkMessage (fst (split_continuation (message_line m)))
                                     (text m)])
                         (obsolete e)]))
                  before _ eq_refl Hms).
      cbn [name code sqlState odbcState messages obsolete defaultLanguage
           errorCodeOffset rCount languages].
      rewrite Hsplit. cbn [fst]. rewrite <- app_assoc.
      destruct m. reflexivity.
    + rewrite Hsplit. reflexivity.
    + rewrite Hsplit. cbn [snd].
      replace (slice_from (dquote :: escape_text (text m) ++ [dquote]) 1)
        with (escape_text (text m) ++ [dquote]) by reflexivity.
      unfold Main.parseQuoted. rewrite (parseQuoted_run_escaped _ [] Hascii). reflexivity.
    + exact Herrs.
Qed.

Lemma Main_scan_record_lines (fuel : nat) (st : scan_state) (e : mysqlError) :
  record_ok e = true ->
  Main.scan fuel st (record_lines e)
  = Ok (mkState (defaultLanguage st) (errorCodeOffset st) (int_add (rCount st) 1)
          (languages st)
          (errs st ++ numbered (errorCodeOffset st) (rCount st) [e])).
Proof.
  unfold record_ok. intros H.
  apply andb_true_iff in H as [H Hms]. apply andb_true_iff in H as [H Hboth].
  apply andb_true_iff in H as [H Ho]. apply andb_true_iff in H as [H Hs].
  apply andb_true_iff in H as [Hp Hn].
  destruct (header_line_tokens e Hn Hs Ho Hboth) as (T1 & T2 & T3).
  unfold record_lines. cbn [Main.scan].
  rewrite Main_scan_line_header_fields
    by (apply header_prefix_is_header; unfold header_line; apply header_prefix_app;
        exact Hp).
  cbv zeta. rewrite T1, T2, T3. cbn [bind].
  rewrite (Main_scan_message_lines fuel (messages e)
             (mkState (defaultLanguage st) (errorCodeOffset st) (int_add (rCount st) 1)
                (languages st)
                (errs st ++
                 [mkMysqlError (name e) (int_add (errorCodeOffset st) (rCount st))
                    (sqlState e) (odbcState e) []
                    (HasPrefix (name e) (str "OBSOLETE_"))]))
             (errs st) _ eq_refl Hms).
  reflexivity.
Qed.

(** A catalog written out one record after the other, each as its header
    line and one continuation line per message with the text escaped, is
    read back as it is: the names, both states and the messages in their
    order; the codes are numbered from the offset and the count of the
    state the scan starts in, and the flag is set by the name. *)
Theorem Main_scan_reads_catalog_back (fuel : nat) (es : list mysqlError) :
  forall st : scan_state,
    forallb record_ok es = true ->
    Main.scan fuel st (flat_map record_lines es)
    = Ok (mkState (defaultLanguage st) (errorCodeOffset st)
            (Nat.iter (length es) (fun c => int_add c 1) (rCount st))
            (languages st)
            (errs st ++ numbered (errorCodeOffset st) (rCount st) es)).
Proof.
  induction es as [|e es IH]; intros st Hok.
  - destruct st. simpl. rewrite app_nil_r. reflexivity.
  - cbn [forallb] in Hok. apply andb_true_iff in Hok as [He Hes].
    cbn [flat_map]. rewrite Main_scan_app, (Main_scan_record_lines fuel st e He).
    cbn [bind]. rewrite (IH _ Hes).
    cbn [defaultLanguage errorCodeOffset rCount languages errs numbered length].
    rewrite Nat.iter_succ_r, <- app_assoc. reflexivity.
Qed.

Lemma Main_scan_reads_catalog_back_witness :
  forallb record_ok
    [mkMysqlError (str "ER_A") 0 (str "HY000") (str "S1000")
       [mkMessage (str "eng") (str "a" ++ dquote :: backslash :: lf :: str "b");
        mkMessage (str "ger") (str "c")] true;
     mkMysqlError (str "OBSOLETE_ER_B") 7 [] [] [] false] = true
  /\ Main.scan 0 (mkState (str "eng") 1000 5 [] [])
       [str "ER_A HY000 S1000";
        tab :: str "eng " ++ dquote :: str "a" ++ backslash :: dquote :: backslash
            :: backslash :: backslash :: str "nb" ++ [dquote];
        tab :: str "ger " ++ dquote :: str "c" ++ [dquote];
        str "OBSOLETE_ER_B  "]
     = Ok (mkState (str "eng") 1000 7 []
             [mkMysqlError (str "ER_A") 1005 (str "HY000") (str "S1000")
                [mkMessage (str "eng") (str "a" ++ dquote :: backslash :: lf :: str "b");
                 mkMessage (str "ger") (str "c")] false;
              mkMysqlError (str "OBSOLETE_ER_B") 1006 [] [] [] true]).
Proof.
  split; [reflexivity|].
  exact (Main_scan_reads_catalog_back 0
           [mkMysqlError (str "ER_A") 0 (str "HY000") (str "S1000")
              [mkMessage (str "eng") (str "a" ++ dquote :: backslash :: lf :: str "b");
               mkMessage (str "ger") (str "c")] true;
            mkMysqlError (str "OBSOLETE_ER_B") 7 [] [] [] false]
           (mkState (str "eng") 1000 5 [] []) eq_refl).
Defined.

(** ** Reading a list of languages *)

Lemma language_text_app (l : language) (x : gostring) :
  language_text l ++ x
  = longName l ++ "="%char :: shortName l ++ " "%char :: charset l ++ x.
Proof.
  unfold language_text. rewrite <- app_assoc. cbn [app].
  rewrite <- app_assoc. reflexivity.
Qed.

Lemma language_ok_words (l : language) :
  language_ok l = true ->
  (exists c w, longName l = c :: w /\ Ascii.eqb c ";"%char = false)
  /\ free_of word_delims (longName l) = true
  /\ (shortName l <> [] /\ free_of word_delims (shortName l) = true)
  /\ (charset l <> [] /\ free_of word_delims (charset l) = true).
Proof.
  unfold language_ok, is_word. intros H.
  apply andb_true_iff in H as [H Hsemi]. apply andb_true_iff in H as [H Hc].
  apply andb_true_iff in H as [Hl Hs].
  apply andb_true_iff in Hl as [Hl1 Hl2]. apply andb_true_iff in Hs as [Hs1 Hs2].
  apply andb_true_iff in Hc as [Hc1 Hc2].
  repeat split; try assumption.
  - destruct (longName l) as [|c w]; [discriminate|]. exists c, w. split; [reflexivity|].
    cbn in Hsemi. rewrite andb_true_r in Hsemi. apply negb_true_iff in Hsemi. exact Hsemi.
  - destruct (shortName l); [discriminate|congruence].
  - destruct (charset l); [discriminate|congruence].
Qed.

(** The text of a list of languages, followed by a text that no delimiter
    starts, starts with no delimiter either. *)
Lemma languages_text_starts_clean (ls : list language) (R : gostring) :
  forallb language_ok ls = true ->
  match R with [] => True | c :: _ => mem c trim_delims = false end ->
  match languages_text ls ++ R with [] => True | c :: _ => mem c trim_delims = false end.
Proof.
  destruct ls as [|l ls]; intros Hok HR; [exact HR|].
  cbn [forallb] in Hok. apply andb_true_iff in Hok as [Hl _].
  destruct (language_ok_words l Hl) as ((c & w & Hc & _) & Hfree & _).
  pose proof (word_head_not_trimmed _ Hfree) as Hhead. rewrite Hc in Hhead.
  unfold languages_text. cbn [flat_map]. rewrite <- !app_assoc, language_text_app, Hc.
  exact Hhead.
Qed.

(** One pass of the loop over a triple written [long=short charset],
    followed by a comma and a blank. *)
Lemma parseLanguage_body_language (l : language) (R : gostring) :
  language_ok l = true ->
  match R with [] => True | c :: _ => mem c trim_delims = false end ->
  parseLanguage_body (language_text l ++ str ", " ++ R) = (l, R).
Proof.
  intros Hl HR.
  destruct (language_ok_words l Hl) as (_ & Hlong & (Hsne & Hshort) & (Hcne & Hchar)).
  rewrite language_text_app. unfold parseLanguage_body.
  rewrite (consumeWord_word (longName l) "="%char _ Hlong eq_refl).
  assert (trimDelimiters ("="%char :: shortName l ++ " "%char :: charset l
                            ++ str ", " ++ R)
          = shortName l ++ " "%char :: charset l ++ str ", " ++ R) as ->.
  { apply (TrimLeft_run ["="%char] trim_delims); [reflexivity|].
    pose proof (word_head_not_trimmed _ Hshort) as Hh.
    destruct (shortName l); [congruence|exact Hh]. }
  rewrite (consumeWord_word (shortName l) " "%char _ Hshort eq_refl).
  assert (trimDelimiters (" "%char :: charset l ++ str ", " ++ R)
          = charset l ++ str ", " ++ R) as ->.
  { apply (TrimLeft_run [" "%char] trim_delims); [reflexivity|].
    pose proof (word_head_not_trimmed _ Hchar) as Hh.
    destruct (charset l); [congruence|exact Hh]. }
  change (charset l ++ str ", " ++ R) with (charset l ++ ","%char :: " "%char :: R).
  rewrite (consumeWord_word (charset l) ","%char _ Hchar eq_refl).
  assert (trimDelimiters (","%char :: " "%char :: R) = R) as ->
    by (apply (TrimLeft_run [","%char; " "%char] trim_delims); [reflexivity|exact HR]).
  destruct l. reflexivity.
Qed.

(** The last triple of a line that ends in a semicolon: nothing cuts the
    semicolon off the name of the character set. *)
Lemma parseLanguage_body_last (l : language) :
  language_ok l = true ->
  parseLanguage_body (language_text l ++ str ";")
  = (mkLanguage (longName l) (shortName l) (charset l ++ str ";"), []).
Proof.
  intros Hl.
  destruct (language_ok_words l Hl) as (_ & Hlong & (Hsne & Hshort) & (Hcne & Hchar)).
  rewrite language_text_app. unfold parseLanguage_body.
  rewrite (consumeWord_word (longName l) "="%char _ Hlong eq_refl).
  assert (trimDelimiters ("="%char :: shortName l ++ " "%char :: charset l ++ str ";")
          = shortName l ++ " "%char :: charset l ++ str ";") as ->.
  { apply (TrimLeft_run ["="%char] trim_delims); [reflexivity|].
    pose proof (word_head_not_trimmed _ Hshort) as Hh.
    destruct (shortName l); [congruence|exact Hh]. }
  rewrite (consumeWord_word (shortName l) " "%char _ Hshort eq_refl).
  assert (trimDelimiters (" "%char :: charset l ++ str ";") = charset l ++ str ";") as ->.
  { apply (TrimLeft_run [" "%char] trim_delims); [reflexivity|].
    pose proof (word_head_not_trimmed _ Hchar) as Hh.
    destruct (charset l); [congruence|exact Hh]. }
  rewrite (consumeWord_whole (charset l ++ str ";"))
    by (rewrite free_of_app, Hchar; reflexivity).
  reflexivity.
Qed.

Lemma parseLanguage_loop_languages (ls : list language) :
  forall (acc : list language) (fuel : nat) (R : gostring),
    forallb language_ok ls = true ->
    match R with [] => True | c :: _ => mem c trim_delims = false end ->
    parseLanguage_loop (length ls + fuel) (languages_text ls ++ R) acc
    = parseLanguage_loop fuel R (acc ++ ls).
Proof.
  induction ls as [|l ls IH]; intros acc fuel R Hok HR.
  - rewrite app_nil_r. reflexivity.
  - cbn [forallb] in Hok. apply andb_true_iff in Hok as [Hl Hls].
    pose proof (languages_text_starts_clean ls R Hls HR) as Hclean.
    destruct (language_ok_words l Hl) as ((c & w & Hc & Hsemi) & _).
    cbn [length Nat.add parseLanguage_loop].
    assert (languages_text (l :: ls) ++ R
            = language_text l ++ str ", " ++ languages_text ls ++ R) as Htext
      by (unfold languages_text; cbn [flat_map]; rewrite <- !app_assoc; reflexivity).
    rewrite Htext.
    assert (HasPrefix (language_text l ++ str ", " ++ languages_text ls ++ R) (str ";")
            || is_empty (language_text l ++ str ", " ++ languages_text ls ++ R) = false)
      as ->.
    { rewrite language_text_app, Hc. cbn. rewrite Hsemi. reflexivity. }
    rewrite (parseLanguage_body_language l _ Hl Hclean), (IH _ _ _ Hls HR),
      <- app_assoc.
    reflexivity.
Qed.

Lemma parseLanguage_keyword (X : gostring) :
  match X with [] => True | c :: _ => mem c trim_delims = false end ->
  forall fuel, parseLanguage fuel (str "languages " ++ X) = parseLanguage_loop fuel X [].
Proof.
  intros HX fuel. unfold parseLanguage.
  change (str "languages " ++ X) with (str "languages" ++ " "%char :: X).
  rewrite (consumeWord_word (str "languages") " "%char X eq_refl eq_refl).
  assert (trimDelimiters (" "%char :: X) = X) as ->
    by (apply (TrimLeft_run [" "%char] trim_delims); [reflexivity|exact HX]).
  reflexivity.
Qed.

(** A language line whose triples are written [long=short charset], each
    followed by a comma and a blank, gives the triples in their order,
    whether the line stops there or a semicolon follows.  When the semicolon
    is written right after the last character set, as a line that separates
    its triples by commas has it, the character set of the last triple is
    read with the semicolon at its end. *)
Theorem parseLanguage_reads_the_triples (fuel : nat) (ls : list language) (l : language) :
  forallb language_ok ls = true -> language_ok l = true ->
  (length ls + 1 < fuel)%nat ->
  parseLanguage fuel (str "languages " ++ languages_text ls) = Some ls
  /\ parseLanguage fuel (str "languages " ++ languages_text ls ++ str ";") = Some ls
  /\ parseLanguage fuel (str "languages " ++ languages_text ls ++ language_text l ++ str ";")
     = Some (ls ++ [mkLanguage (longName l) (shortName l) (charset l ++ str ";")]).
Proof.
  intros Hls Hl Hfuel.
  destruct fuel as [|fuel]; [lia|]. destruct fuel as [|fuel]; [lia|].
  replace (S (S fuel)) with (length ls + S (S (fuel - length ls)))%nat by lia.
  destruct (language_ok_words l Hl) as ((c & w & Hc & Hsemi) & Hfree & _).
  pose proof (word_head_not_trimmed _ Hfree) as Hhead. rewrite Hc in Hhead.
  assert (match language_text l ++ str ";" with
          | [] => True | c :: _ => mem c trim_delims = false end) as Hlast
    by (rewrite language_text_app, Hc; exact Hhead).
  split; [|split].
  - rewrite <- (app_nil_r (languages_text ls)) at 1.
    rewrite parseLanguage_keyword
      by (apply languages_text_starts_clean; [exact Hls|exact I]).
    rewrite (parseLanguage_loop_languages ls [] _ [] Hls I). reflexivity.
  - rewrite parseLanguage_keyword
      by (apply languages_text_starts_clean; [exact Hls|reflexivity]).
    rewrite (parseLanguage_loop_languages ls [] _ (str ";") Hls eq_refl). reflexivity.
  - rewrite parseLanguage_keyword
      by (apply languages_text_starts_clean; [exact Hls|exact Hlast]).
    rewrite (parseLanguage_loop_languages ls [] _ _ Hls Hlast).
    cbn [parseLanguage_loop app].
    assert (HasPrefix (language_text l ++ str ";") (str ";")
            || is_empty (language_text l ++ str ";") = false) as ->.
    { rewrite language_text_app, Hc. cbn. rewrite Hsemi. reflexivity. }
    rewrite (parseLanguage_body_last l Hl). reflexivity.
Qed.

Lemma parseLanguage_reads_the_triples_witness :
  parseLanguage 5 (str "languages czech=cze latin2, danish=dan latin1, ")
  = Some [mkLanguage (str "czech") (str "cze") (str "latin2");
          mkLanguage (str "danish") (str "dan") (str "latin1")]
  /\ parseLanguage 5 (str "languages czech=cze latin2, danish=dan latin1, ;")
     = Some [mkLanguage (str "czech") (str "cze") (str "latin2");
             mkLanguage (str "danish") (str "dan") (str "latin1")]
  /\ parseLanguage 5 (str "languages czech=cze latin2, danish=dan latin1, english=eng latin1;")
     = Some [mkLanguage (str "czech") (str "cze") (str "latin2");
             mkLanguage (str "danish") (str "dan") (str "latin1");
             mkLanguage (str "english") (str "eng") (str "latin1;")].
Proof.
  apply (parseLanguage_reads_the_triples 5
           [mkLanguage (str "czech") (str "cze") (str "latin2");
            mkLanguage (str "danish") (str "dan") (str "latin1")]
           (mkLanguage (str "english") (str "eng") (str "latin1")));
    [reflexivity | reflexivity | simpl; lia].
Defined.

(** ** Reading back a whole generated file *)

(** A line that fits the buffer of the scanner is given whole. *)
Lemma scan_from_short_line (l : gostring) :
  forall cur rest : gostring,
    free_of [lf] l = true -> len cur + len l < MaxScanTokenSize ->
    scan_from cur (l ++ lf :: rest) = dropCR (rev cur ++ l) :: scan_from [] rest.
Proof.
  induction l as [|c l IH]; intros cur rest Hl Hlen.
  - simpl. rewrite app_nil_r. reflexivity.
  - apply free_of_cons in Hl as [Hc Hl].
    unfold mem in Hc. simpl in Hc. rewrite orb_false_r in Hc.
    rewrite <- app_comm_cons. cbn [scan_from]. rewrite Hc.
    unfold len in *. rewrite length_cons, Nat2Z.inj_succ in Hlen.
    destruct (Z.leb_spec MaxScanTokenSize (Z.of_nat (length cur) + 1)); [lia|].
    rewrite IH; [|exact Hl|rewrite length_cons, Nat2Z.inj_succ; lia].
    simpl. rewrite <- app_assoc. reflexivity.
Qed.

Lemma scan_lines_short_lines (lines : list gostring) :
  forallb (fun l => free_of [lf] l && (len l <? MaxScanTokenSize)) lines = true ->
  scan_lines (unlines lines) = map dropCR lines.
Proof.
  unfold scan_lines. induction lines as [|l lines IH]; intros H; [reflexivity|].
  cbn [forallb] in H. apply andb_true_iff in H as [Hl Hrest].
  apply andb_true_iff in Hl as [Hfree Hlen]. apply Z.ltb_lt in Hlen.
  rewrite unlines_cons, (scan_from_short_line l [] _ Hfree)
    by (change (len []) with 0; lia).
  cbn [map rev app]. rewrite (IH Hrest). reflexivity.
Qed.

Lemma parseConstantsGo_short_output (pkg : gostring) (errs : list mysqlError) :
  Forall scanned_record errs ->
  forallb (fun l => free_of [lf] l && (len l <? MaxScanTokenSize))
          (preamble_lines pkg ++ map const_text errs) = true ->
  Main.parseConstantsGo (Main.generate pkg Main.no_constants errs)
  = Ok (record_all Main.no_constants errs).
Proof.
  intros Hrec Hshort. unfold Main.parseConstantsGo.
  rewrite generate_first_is_lines, (scan_lines_short_lines _ Hshort).
  rewrite map_app, read_lines_app, read_lines_skips.
  - cbn [bind]. apply read_lines_const_texts, Hrec.
  - apply List.Forall_map.
    assert (free_of [lf] pkg = true) as Hpkg.
    { rewrite forallb_app in Hshort. apply andb_true_iff in Hshort as [Hpre _].
      unfold preamble_lines in Hpre. cbn [forallb] in Hpre.
      apply andb_true_iff in Hpre as [_ Hpre].
      rewrite forallb_app in Hpre. apply andb_true_iff in Hpre as [_ Hpre].
      cbn [forallb] in Hpre. rewrite andb_true_r in Hpre.
      apply andb_true_iff in Hpre as [Hpre _].
      unfold join_sp in Hpre. rewrite free_of_app in Hpre.
      apply andb_true_iff in Hpre as [_ Hpre].
      apply free_of_cons in Hpre as [_ Hpre]. exact Hpre. }
    eapply List.Forall_impl; [|exact (preamble_lines_plain pkg Hpkg)].
    intros l [_ H]. apply HasPrefix_dropCR, H.
Qed.

(** Two runs, the second with the file of the first as the previous file,
    on a catalog that may have changed in between.  When every line of the
    first file fits the buffer of the scanner, the second file has, for each
    record of the second catalog, one deprecated alias for every name the
    first catalog gave the code of the record, other than the name of the
    record, in the order of the first catalog, and then the constant of the
    record. *)
Theorem second_run_aliases_the_old_names (fuel : nat) (pkg input1 input2 : gostring)
        (st1 st2 : scan_state) :
  Main.scan fuel initial_state (scan_lines input1) = Ok st1 ->
  Main.scan fuel initial_state (scan_lines input2) = Ok st2 ->
  forallb (fun l => free_of [lf] l && (len l <? MaxScanTokenSize))
          (preamble_lines pkg ++ map const_text (errs st1)) = true ->
  exists first,
    Main.run fuel pkg input1 None = Ok first
    /\ Main.run fuel pkg input2 (Some first)
       = Ok (Main.preamble pkg
             ++ concat (map (fun e =>
                  concat (map (fun n => deprecated_alias n (code e))
                            (List.filter (fun n => negb (bool_decide (n = name e)))
                               (map name
                                  (List.filter (fun e1 => code e1 =? code e) (errs st1)))))
                  ++ Main.const_decl (name e) (code e)) (errs st2))).
Proof.
  intros Hscan1 Hscan2 Hshort.
  assert (Forall scanned_record (errs st1)) as Hrec
    by (apply (Main_scan_records fuel _ _ _ Hscan1); constructor).
  exists (Main.generate pkg Main.no_constants (errs st1)).
  unfold Main.run. rewrite Hscan1, Hscan2. cbn [bind]. split; [reflexivity|].
  rewrite (parseConstantsGo_short_output pkg (errs st1) Hrec Hshort). cbn [bind].
  unfold Main.generate. do 3 f_equal. apply map_ext. intros e.
  rewrite emit_error_aliases, names_of_record_all. reflexivity.
Qed.

Lemma second_run_aliases_the_old_names_witness :
  exists first,
    Main.run 0 (str "mysqlerr") (unlines [str "ER_OLD"; str "ER_KEPT"]) None = Ok first
    /\ Main.run 0 (str "mysqlerr") (unlines [str "ER_NEW"; str "ER_KEPT"]) (Some first)
       = Ok (Main.preamble (str "mysqlerr")
             ++ deprecated_alias (str "ER_OLD") 1000
             ++ Main.const_decl (str "ER_NEW") 1000
             ++ Main.const_decl (str "ER_KEPT") 1001).
Proof.
  apply (second_run_aliases_the_old_names 0 (str "mysqlerr")
           (unlines [str "ER_OLD"; str "ER_KEPT"]) (unlines [str "ER_NEW"; str "ER_KEPT"])
           (mkState (str "eng") 1000 2 []
              [mkMysqlError (str "ER_OLD") 1000 [] [] [] false;
               mkMysqlError (str "ER_KEPT") 1001 [] [] [] false])
           (mkState (str "eng") 1000 2 []
              [mkMysqlError (str "ER_NEW") 1000 [] [] [] false;
               mkMysqlError (str "ER_KEPT") 1001 [] [] [] false]));
    vm_compute; reflexivity.
Defined.

(** ** An offset that is no number *)

Lemma Atoi_error_value (s : gostring) :
  snd (Atoi s) = false ->
  fst (Atoi s) = 0 \/ fst (Atoi s) = max_int \/ fst (Atoi s) = min_int.
Proof.
  unfold Atoi, ParseInt. destruct s as [|c s]; [left; reflexivity|].
  destruct (Ascii.eqb c "+"); [apply int_of_uint_error|].
  destruct (Ascii.eqb c "-"); apply int_of_uint_error.
Qed.

(** [strconv.Atoi] returns an error for the token of an offset declaration
    that is no decimal [int], and both copies drop it: the line is taken,
    the count starts again, and the offset is what [Atoi] returns beside
    the error.  That is 0 when a byte that is no digit is met while the
    digits before it fit 64 bits, and when the token is a lone sign; the
    bound of [int] on the side of the sign when the digits stop fitting 64
    bits, whatever follows them; and for digits only, the integer written
    brought into the range of [int]. *)
Theorem offset_token_error_is_dropped (fuel : nat) (st : scan_state)
        (sep tok : gostring) :
  all_in trim_delims sep = true -> sep <> [] -> is_word tok = true ->
  snd (Atoi tok) = false ->
  let line := str "start-error-number" ++ sep ++ tok in
  let st' := mkState (defaultLanguage st) (fst (Atoi tok)) 0 (languages st) (errs st) in
  Main.scan_line fuel st line = Ok st'
  /\ Legacy.scan_line fuel st line = Ok st'
  /\ (fst (Atoi tok) = 0 \/ fst (Atoi tok) = max_int \/ fst (Atoi tok) = min_int)
  /\ (forall p d rest,
        unsigned tok = p ++ d :: rest -> forallb is_digit p = true ->
        is_digit d = false -> digits_val 0 p <= max_uint64 ->
        fst (Atoi tok) = 0)
  /\ (unsigned tok = [] -> fst (Atoi tok) = 0)
  /\ (forall p rest,
        unsigned tok = p ++ rest -> forallb is_digit p = true ->
        max_uint64 < digits_val 0 p ->
        fst (Atoi tok) = if is_negative tok then min_int else max_int)
  /\ (unsigned tok <> [] -> forallb is_digit (unsigned tok) = true ->
      fst (Atoi tok) = clamp_int (signed_value tok)
      /\ (signed_value tok < min_int \/ max_int < signed_value tok)).
Proof.
  intros Hsep Hne Htok Herr line st'.
  unfold is_word in Htok. apply andb_true_iff in Htok as [Htne Hfree].
  assert (tok <> []) as Htne' by (destruct tok; [discriminate|congruence]).
  destruct (directive_tokens (str "start-error-number") sep tok []) as (H1 & H2 & H3);
    try assumption; try reflexivity; try exact I.
  rewrite app_nil_r in *.
  destruct (Atoi_value tok) as (V1 & V2 & V3 & V4).
  unfold Main.scan_line, Legacy.scan_line. subst line st'.
  replace (HasPrefix (str "start-error-number" ++ sep ++ tok) (str "language"))
    with false by reflexivity.
  rewrite HasPrefix_app, H1, H2, H3.
  split; [reflexivity|]. split; [reflexivity|].
  split; [exact (Atoi_error_value tok Herr)|].
  split; [intros p d rest Hu Hall Hd Hfit; rewrite (V2 p d rest Hu Hall Hd Hfit);
          reflexivity|].
  split; [intros Hu; rewrite (V3 Hu); reflexivity|].
  split; [intros p rest Hu Hall Hover; rewrite (V4 p rest Hu Hall Hover); reflexivity|].
  intros Hu Hall. rewrite (V1 Hu Hall) in Herr |- *. cbn [fst snd] in *.
  split; [reflexivity|].
  apply andb_false_iff in Herr as [Herr|Herr]; apply Z.leb_gt in Herr; lia.
Qed.

Lemma offset_token_error_is_dropped_witness :
  Main.scan_line 0 (mkState (str "eng") 1000 7 [] [])
                 (str "start-error-number 99999999999999999999x")
  = Ok (mkState (str "eng") max_int 0 [] [])
  /\ Legacy.scan_line 0 (mkState (str "eng") 1000 7 [] [])
                      (str "start-error-number 99999999999999999999x")
     = Ok (mkState (str "eng") max_int 0 [] [])
  /\ Main.scan_line 0 (mkState (str "eng") 1000 7 [] []) (str "start-error-number 3k")
     = Ok (mkState (str "eng") 0 0 [] []).
Proof.
  destruct (offset_token_error_is_dropped 0 (mkState (str "eng") 1000 7 [] [])
              (str " ") (str "99999999999999999999x") eq_refl) as (H1 & H2 & _);
    [discriminate | reflexivity | reflexivity |].
  destruct (offset_token_error_is_dropped 0 (mkState (str "eng") 1000 7 [] [])
              (str " ") (str "3k") eq_refl) as (H3 & _);
    [discriminate | reflexivity | reflexivity |].
  split; [exact H1|]. split; [exact H2 | exact H3].
Defined.

(** ** The two maps of the constants *)

Lemma code_of_add_same (c : Main.constants) (n : gostring) (v : Z) :
  code_of (Main.add c n v) n = Some v.
Proof. unfold code_of, Main.add. simpl. apply lookup_insert_eq. Qed.

Lemma code_of_add_other (c : Main.constants) (n n' : gostring) (v : Z) :
  n' <> n -> code_of (Main.add c n v) n' = code_of c n'.
Proof.
  intros Hne. unfold code_of, Main.add. simpl.
  rewrite lookup_insert_ne by congruence.
  destruct (Main.byName c); [reflexivity|]. apply lookup_empty.
Qed.

Lemma names_of_add_keeps (c : Main.constants) (n n' : gostring) (v v' : Z) :
  In n' (Main.names_of c v') -> In n' (Main.names_of (Main.add c n v) v').
Proof.
  intros Hin. destruct (Z.eq_dec v' v) as [->|Hne].
  - rewrite names_of_add_same. apply in_or_app. left. exact Hin.
  - rewrite names_of_add_other by exact Hne. exact Hin.
Qed.

Lemma names_of_add_inv (c : Main.constants) (n n' : gostring) (v v' : Z) :
  In n' (Main.names_of (Main.add c n v) v') -> n' = n \/ In n' (Main.names_of c v').
Proof.
  destruct (Z.eq_dec v' v) as [->|Hne].
  - rewrite names_of_add_same. intros Hin. apply in_app_or in Hin as [Hin|[Hin|[]]];
      [right; exact Hin | left; symmetry; exact Hin].
  - rewrite names_of_add_other by exact Hne. auto.
Qed.

Lemma add_maps_agree (c : Main.constants) (n : gostring) (v : Z) :
  maps_agree c -> maps_agree (Main.add c n v).
Proof.
  intros [H1 H2]. split.
  - intros n' v' Hcode. destruct (decide (n' = n)) as [->|Hne].
    + rewrite code_of_add_same in Hcode. injection Hcode as <-.
      rewrite names_of_add_same. apply in_or_app. right. left. reflexivity.
    + rewrite code_of_add_other in Hcode by exact Hne.
      apply names_of_add_keeps, H1, Hcode.
  - intros n' v' Hin. destruct (decide (n' = n)) as [->|Hne].
    + exists v. apply code_of_add_same.
    + apply names_of_add_inv in Hin as [Heq|Hin]; [congruence|].
      destruct (H2 n' v' Hin) as [v'' Hv]. exists v''.
      rewrite code_of_add_other by exact Hne. exact Hv.
Qed.

Lemma read_lines_maps_agree (lines : list gostring) :
  forall c cs, maps_agree c -> Main.read_lines c lines = Ok cs -> maps_agree cs.
Proof.
  induction lines as [|l lines IH]; intros c cs Hc Hread; cbn [Main.read_lines] in Hread.
  - injection Hread as <-. exact Hc.
  - destruct (Main.read_line c l) as [c1| | |] eqn:Hline; try discriminate.
    cbn [bind] in Hread. apply (IH c1 cs); [|exact Hread].
    unfold Main.read_line in Hline.
    destruct (negb (HasPrefix l (str "const "))); [injection Hline as <-; exact Hc|].
    destruct (Split l (str " ") !! 1%nat) as [key|]; [|discriminate].
    destruct (Split l (str " ") !! 3%nat) as [t3|]; [|discriminate].
    injection Hline as <-. apply add_maps_agree, Hc.
Qed.

(** Whatever the previous file holds, when [parseConstantsGo] returns, its
    two maps hold the same names: each name of [byName] is listed in
    [byCode] under the code [byName] gives it, and each name listed in
    [byCode] has a code in [byName]. *)
Theorem parseConstantsGo_maps_agree (data : gostring) (cs : Main.constants) :
  Main.parseConstantsGo data = Ok cs -> maps_agree cs.
Proof.
  unfold Main.parseConstantsGo. apply read_lines_maps_agree.
  split; [intros n v H; discriminate | intros n v []].
Qed.

Lemma parseConstantsGo_maps_agree_witness :
  maps_agree
    (record_all Main.no_constants
       [mkMysqlError (str "ER_A") 1000 [] [] [] false;
        mkMysqlError (str "ER_B") 1000 [] [] [] false;
        mkMysqlError (str "ER_A") 1001 [] [] [] false]).
Proof.
  apply (parseConstantsGo_maps_agree
           (unlines [str "package p"; str "const ER_A = 1000"; str "const ER_B = 1000";
                     str "const ER_A = 1001"])).
  vm_compute. reflexivity.
Defined.
